(** * pixel-art-pipeline: the orchestration and frame-assembly core

    A shallow embedding of [pixelart/assembler.py], [pixelart/config.py],
    [pixelart/client.py] and [pixelart/generator.py].

    Modelling conventions.
    - A [Path] naming a directory is the list of its components; a [Path]
      naming a file is a directory together with a file name ([d // n]).
    - The filesystem maps every existing directory to its regular files.
      Sub-directories are separate keys, so a glob over a directory only
      sees files.
    - Python [int] is [Z], [float] is the kernel's binary64 [float], [bytes]
      is [list byte], [str] is [string].
    - The libraries the program calls (base64, PIL, tempfile, requests) are
      the fields of a record [externals]; the remote service answers each
      request with an error or with frames and a cost.
    - [print] appends a line to the world's output; [time.sleep] has no
      effect on the state and is left out.
    - Exceptions are values: a function that can raise returns an
      [outcome]. The exceptions followed are those of the client, of
      [base64.b64decode] on a payload it rejects, of [Image.open] on content
      it rejects, and the [IndexError] of an empty list; writing to the
      filesystem succeeds. *)

From Stdlib Require Import ZArith Uint63 Floats Ascii String DecimalString DecimalNat.
From stdpp Require Import gmap strings list sorting.

Set Warnings "-inexact-float".

Local Open Scope string_scope.
Local Open Scope list_scope.
Local Open Scope nat_scope.
Local Open Scope stdpp_scope.

(** ** Text: decimal formatting and the frame glob pattern *)

Definition decimal (n : nat) : string :=
  NilEmpty.string_of_uint (Nat.to_uint n).

(** [f"{z:02d}"]: at least two characters, the sign included, padded with
    zeros on the left. *)
Definition format_02d (z : Z) : string :=
  if (z <? 0)%Z then "-" +:+ decimal (Z.abs_nat z)
  else if (z <? 10)%Z then "0" +:+ decimal (Z.to_nat z)
  else decimal (Z.to_nat z).

(** Reading a formatted index back. *)
Definition parse_02d (s : string) : option Z :=
  match s with
  | String "-" s' =>
    (λ d, (- Z.of_nat (Nat.of_uint d))%Z) <$> NilEmpty.uint_of_string s'
  | _ => (λ d, Z.of_nat (Nat.of_uint d)) <$> NilEmpty.uint_of_string s
  end.

(** The two decimal digits of an index below one hundred, the tens first. *)
Definition two_digits (n : nat) : string :=
  String (ascii_of_nat (48 + n / 10)) (String (ascii_of_nat (48 + n mod 10)) "").

(** [f"frame_{z:02d}.png"] *)
Definition frame_name (z : Z) : string :=
  "frame_" +:+ format_02d z +:+ ".png".

Definition chars (s : string) : list ascii := list_ascii_of_string s.

(** [fnmatch(n, "frame_*.png")]: the literal prefix, anything, the literal
    suffix. *)
Definition fnmatch_frame (n : string) : bool :=
  bool_decide (chars "frame_" `prefix_of` chars n)
  && bool_decide (chars ".png" `suffix_of` drop 6 (chars n)).

(** ** Paths and the filesystem *)

Definition path := list string.
Definition bytes := list Byte.byte.

Record fpath := FPath { fp_dir : path; fp_name : string }.

Notation "d // n" := (FPath d n) (at level 40, left associativity).

Global Instance fpath_eq_dec : EqDecision fpath.
Proof. solve_decision. Defined.

(** [p.parent] of a directory path. *)
Definition dir_parent (d : path) : path := removelast d.

Abbreviation FS := (gmap path (gmap string bytes)).

Definition listing (fs : FS) (d : path) : gmap string bytes :=
  default ∅ (fs !! d).

Definition dir_exists (fs : FS) (d : path) : bool :=
  bool_decide (is_Some (fs !! d)).

Definition read_file (fs : FS) (p : fpath) : option bytes :=
  listing fs (fp_dir p) !! fp_name p.

Definition file_exists (fs : FS) (p : fpath) : bool :=
  bool_decide (is_Some (read_file fs p)).

(** [open(p, "wb").write(b)] *)
Definition write_file (p : fpath) (b : bytes) (fs : FS) : FS :=
  <[fp_dir p := <[fp_name p := b]> (listing fs (fp_dir p))]> fs.

Definition mkdir (d : path) (fs : FS) : FS :=
  match fs !! d with
  | Some _ => fs
  | None => <[d := ∅]> fs
  end.

Fixpoint prefixes (d : path) : list path :=
  [] :: match d with
        | [] => []
        | x :: d' => fmap (cons x) (prefixes d')
        end.

(** [d.mkdir(parents=True, exist_ok=True)] *)
Definition mkdir_parents (d : path) (fs : FS) : FS :=
  foldr mkdir fs (prefixes d).

(** The names that [d.glob("frame_*.png")] yields, in the order the
    directory lists them. *)
Definition glob_names (fs : FS) (d : path) : list string :=
  filter (λ n, fnmatch_frame n = true) (fmap fst (map_to_list (listing fs d))).

Definition glob_frames (fs : FS) (d : path) : list fpath :=
  fmap (FPath d) (glob_names fs d).

(** [sorted(d.glob("frame_*.png"))]: paths of one directory are ordered by
    their last component, compared character by character. *)
Definition sorted_frames (fs : FS) (d : path) : list fpath :=
  fmap (FPath d) (merge_sort String.le (glob_names fs d)).


(** ** Frames, the remote service and the external libraries *)

(** A frame dict [{"type": "base64", "base64": ..., "format": "png"}]; only
    the payload under ["base64"] is ever read. *)
Record frame := Frame { base64 : string }.

Record request := Request {
  reference_image : frame;
  action : string;
  width : Z;
  height : Z;
  seed : option Z }.

(** What one POST to the animation endpoint comes back with: status 200 with
    [data.get("images", [])] and [usage.get("usd", 0)], another status with
    the response text, or an exception of the transport. *)
Inductive response :=
| Http200 (images : list frame) (usd : float)
| HttpStatus (status_code : Z) (text : string)
| TransportError.

Record externals := Externals {
  b64decode : string → bytes;
  b64encode : bytes → string;
  image : Type;
  image_open : bytes → image;
  resize_nearest : image → Z → Z → image;
  (* [save(..., save_all=True, duration=d, loop=0, optimize=True, disposal=2)] *)
  save_gif : list image → Z → bytes;
  save_png : image → bytes;
  mktemp : FS → fpath;
  api_key : option string;
  service : nat → request → response;
  (* the payloads [base64.b64decode] accepts; on the others it raises *)
  b64decode_ok : string → bool;
  (* the contents [Image.open] accepts; on the others it raises *)
  image_open_ok : bytes → bool }.

Inductive exn :=
| FileNotFoundError (p : fpath)
| MissingApiKey
| ApiError (status_code : Z) (text : string)
| RequestException
| IndexError
| BinasciiError
| UnidentifiedImageError (p : fpath).

(** The lines the orchestrator prints. *)
Inductive log_line :=
| LNothing (kind : string)
| LBanner (kind : string) (items steps : nat)
| LSkipHasFrames (name : string) (existing : nat)
| LSkipComplete (name : string)
| LSkipNoFrame15 (name : string)
| LSkipEmoteExists (name : string)
| LStart (kind label : string)
| LStep (number total : nat) (from_s to_s : string)
| LCost (cost : float)
| LSaved (count : nat) (cost : option float)
| LGif (file : string)
| LError (stage : string) (e : exn)
| LComplete (kind : string) (total_cost : float).

Inductive outcome (A : Type) :=
| Returned (a : A)
| Raised (e : exn).
Arguments Returned {A} a.
Arguments Raised {A} e.

(** One call of the generation client, with what it came back with. *)
Record call := Call {
  call_reference : fpath;
  call_action : string;
  call_width : Z;
  call_height : Z;
  call_result : outcome (list frame * float) }.

Record world := World {
  w_fs : FS;
  w_calls : list call;
  w_out : list log_line }.

Definition set_fs (f : FS) (w : world) : world :=
  World f (w_calls w) (w_out w).

Definition print (l : log_line) (w : world) : world :=
  World (w_fs w) (w_calls w) (w_out w ++ [l]).

(** [f.read()] of a file that is known to exist. *)
Definition file_bytes (fs : FS) (p : fpath) : bytes :=
  default [] (read_file fs p).

Fixpoint enumerate_from {A} (i : nat) (l : list A) : list (nat * A) :=
  match l with
  | [] => []
  | x :: l' => (i, x) :: enumerate_from (S i) l'
  end.

Definition enumerate {A} (l : list A) : list (nat * A) := enumerate_from 0 l.

Section Assembler.
Context (E : externals).

(** ** assembler.py *)

Definition save_frames (frames : list frame) (output_dir : path) (fs : FS)
  : list fpath * FS :=
  fold_left
    (λ (st : list fpath * FS) (e : nat * frame),
       let path := output_dir // ("frame_" +:+ format_02d (Z.of_nat e.1) +:+ ".png") in
       (st.1 ++ [path], write_file path (b64decode E (base64 e.2)) st.2))
    (enumerate frames)
    ([], mkdir_parents output_dir fs).

Definition save_frames_offset (frames : list frame) (output_dir : path)
    (offset : Z) (fs : FS) : list fpath * FS :=
  fold_left
    (λ (st : list fpath * FS) (e : nat * frame),
       let path := output_dir // ("frame_" +:+ format_02d (Z.of_nat e.1 + offset) +:+ ".png") in
       (st.1 ++ [path], write_file path (b64decode E (base64 e.2)) st.2))
    (enumerate frames)
    ([], mkdir_parents output_dir fs).

Definition frames_to_gif (frame_dir : path) (output_path : fpath)
    (upscale_size duration_ms : Z) (fs : FS) : option fpath * FS :=
  let frame_files := sorted_frames fs frame_dir in
  match frame_files with
  | [] => (None, fs)
  | _ =>
    let frames := fmap (λ f, image_open E (file_bytes fs f)) frame_files in
    let upscaled :=
      fmap (λ f, resize_nearest E f upscale_size upscale_size) frames in
    let fs := mkdir_parents (fp_dir output_path) fs in
    (Some output_path, write_file output_path (save_gif E upscaled duration_ms) fs)
  end.

Definition create_static_fallback (frame_dir : path) (output_path : fpath)
    (upscale_size frame_index : Z) (fs : FS) : option fpath * FS :=
  let frame_file := frame_dir // ("frame_" +:+ format_02d frame_index +:+ ".png") in
  let chosen :=
    if file_exists fs frame_file then Some frame_file
    else last (sorted_frames fs frame_dir) in
  match chosen with
  | None => (None, fs)
  | Some frame_file =>
    let img := image_open E (file_bytes fs frame_file) in
    let upscaled := resize_nearest E img upscale_size upscale_size in
    let fs := mkdir_parents (fp_dir output_path) fs in
    (Some output_path, write_file output_path (save_png E upscaled) fs)
  end.

(** *** The same functions on unchecked input

    The four definitions above take the arguments their docstrings name:
    base64 frame data and directories of frame PNGs, on which decoding and
    opening succeed. The generators hand on what the service sent, so for
    them [base64.b64decode] can raise ([binascii.Error]) and [Image.open]
    can raise ([UnidentifiedImageError]). By then [open(path, "wb")] has
    created or emptied the frame's file. *)

Fixpoint save_loop_or_raise (output_dir : path) (number : nat → Z)
    (l : list (nat * frame)) (paths : list fpath) (fs : FS)
  : outcome (list fpath) * FS :=
  match l with
  | [] => (Returned paths, fs)
  | e :: l' =>
    let path := output_dir // ("frame_" +:+ format_02d (number e.1) +:+ ".png") in
    let fs := write_file path [] fs in
    if b64decode_ok E (base64 e.2)
    then save_loop_or_raise output_dir number l' (paths ++ [path])
           (write_file path (b64decode E (base64 e.2)) fs)
    else (Raised BinasciiError, fs)
  end.

Definition save_frames_or_raise (frames : list frame) (output_dir : path)
    (fs : FS) : outcome (list fpath) * FS :=
  save_loop_or_raise output_dir (λ i, Z.of_nat i) (enumerate frames) []
    (mkdir_parents output_dir fs).

Definition save_frames_offset_or_raise (frames : list frame)
    (output_dir : path) (offset : Z) (fs : FS) : outcome (list fpath) * FS :=
  save_loop_or_raise output_dir (λ i, (Z.of_nat i + offset)%Z) (enumerate frames)
    [] (mkdir_parents output_dir fs).

(** [[Image.open(f) for f in frame_files]] *)
Fixpoint open_all (fs : FS) (frame_files : list fpath)
  : outcome (list (image E)) :=
  match frame_files with
  | [] => Returned []
  | f :: rest =>
    if image_open_ok E (file_bytes fs f)
    then match open_all fs rest with
         | Returned frames => Returned (image_open E (file_bytes fs f) :: frames)
         | Raised e => Raised e
         end
    else Raised (UnidentifiedImageError f)
  end.

Definition frames_to_gif_or_raise (frame_dir : path) (output_path : fpath)
    (upscale_size duration_ms : Z) (fs : FS) : outcome (option fpath) * FS :=
  let frame_files := sorted_frames fs frame_dir in
  match frame_files with
  | [] => (Returned None, fs)
  | _ =>
    match open_all fs frame_files with
    | Raised e => (Raised e, fs)
    | Returned frames =>
      let upscaled :=
        fmap (λ f, resize_nearest E f upscale_size upscale_size) frames in
      let fs := mkdir_parents (fp_dir output_path) fs in
      (Returned (Some output_path),
       write_file output_path (save_gif E upscaled duration_ms) fs)
    end
  end.

Definition create_static_fallback_or_raise (frame_dir : path)
    (output_path : fpath) (upscale_size frame_index : Z) (fs : FS)
  : outcome (option fpath) * FS :=
  let frame_file := frame_dir // ("frame_" +:+ format_02d frame_index +:+ ".png") in
  let chosen :=
    if file_exists fs frame_file then Some frame_file
    else last (sorted_frames fs frame_dir) in
  match chosen with
  | None => (Returned None, fs)
  | Some frame_file =>
    if image_open_ok E (file_bytes fs frame_file)
    then
      let img := image_open E (file_bytes fs frame_file) in
      let upscaled := resize_nearest E img upscale_size upscale_size in
      let fs := mkdir_parents (fp_dir output_path) fs in
      (Returned (Some output_path), write_file output_path (save_png E upscaled) fs)
    else (Raised (UnidentifiedImageError frame_file), fs)
  end.
End Assembler.

(** ** config.py *)

Record single_entry := SingleEntry { prompt : string }.

Record step := Step {
  step_from : option string;
  step_to : option string;
  step_prompt : string }.

Record sequence_entry := SequenceEntry {
  label : option string;
  steps : list step }.

Record cycle_entry := CycleEntry {
  shape : string;
  forward_prompt : string;
  reverse_prompt : string }.

Record PipelineConfig := Config {
  reference : fpath;
  output_dir : path;
  frame_size : Z;
  upscale_size : Z;
  frame_duration_ms : Z;
  singles : list (string * single_entry);
  emotes : list (string * single_entry);
  chains : list (string * sequence_entry);
  journeys : list (string * sequence_entry);
  cycles : list (string * cycle_entry) }.

Definition singles_dir (c : PipelineConfig) : path := output_dir c ++ ["singles"].
Definition emotes_dir (c : PipelineConfig) : path := output_dir c ++ ["emotes"].
Definition chains_dir (c : PipelineConfig) : path := output_dir c ++ ["chains"].
Definition journeys_dir (c : PipelineConfig) : path := output_dir c ++ ["journeys"].
Definition cycles_dir (c : PipelineConfig) : path := output_dir c ++ ["cycles"].
Definition static_dir (c : PipelineConfig) : path := output_dir c ++ ["static"].

Record counts := Counts {
  n_singles : Z;
  n_emotes : Z;
  n_chains : Z;
  n_journeys : Z;
  n_cycles : Z;
  total_api_calls : Z }.

Definition sum_Z (l : list Z) : Z := fold_left Z.add l 0%Z.

Definition count_animations (c : PipelineConfig) : counts :=
  let s := Z.of_nat (length (singles c)) in
  let e := Z.of_nat (length (emotes c)) in
  let ch := sum_Z (fmap (λ kv, Z.of_nat (length (steps kv.2))) (chains c)) in
  let j := sum_Z (fmap (λ kv, Z.of_nat (length (steps kv.2))) (journeys c)) in
  let cy := Z.of_nat (length (cycles c)) in
  Counts s e ch j cy (s + e + ch + j + cy)%Z.

(** [int] to [float], correctly rounded; exact below 2^53, which is all a
    count of catalog entries can reach. *)
Definition float_of_int (z : Z) : float :=
  if (z <? 0)%Z then (- PrimFloat.of_uint63 (Uint63.of_Z (- z)))%float
  else PrimFloat.of_uint63 (Uint63.of_Z z).

Definition estimate_cost (c : PipelineConfig) : float :=
  (float_of_int (total_api_calls (count_animations c)) * 0.16)%float.

Section Generator.
Context (E : externals).

(** ** client.py *)

Definition encode_image (fs : FS) (path : fpath) : option frame :=
  match read_file fs path with
  | Some content => Some (Frame (b64encode E content))
  | None => None
  end.

(** What [generate_animation] does with its arguments: the reference is
    read first, then the headers need the API key (an empty key counts as
    none), then the request goes out and its answer is examined; of the text
    of an error answer the first 300 characters are kept. *)
Definition client_result (fs : FS) (calls_before : nat)
    (reference_path : fpath) (action : string) (width height : Z)
  : outcome (list frame * float) :=
  match encode_image fs reference_path with
  | None => Raised (FileNotFoundError reference_path)
  | Some image_data =>
    match api_key E with
    | None => Raised MissingApiKey
    | Some key =>
      if bool_decide (key = "") then Raised MissingApiKey
      else
        let payload := Request image_data action width height None in
        match service E calls_before payload with
        | Http200 images cost => Returned (images, cost)
        | HttpStatus status_code text =>
          Raised (ApiError status_code (String.substring 0 300 text))
        | TransportError => Raised RequestException
        end
    end
  end.

(** A call of the client; the world keeps a record of every call. *)
Definition generate_animation (reference_path : fpath) (action : string)
    (width height : Z) (w : world) : outcome (list frame * float) * world :=
  let r := client_result (w_fs w) (length (w_calls w)) reference_path action
             width height in
  (r, World (w_fs w)
        (w_calls w ++ [Call reference_path action width height r])
        (w_out w)).

(** ** generator.py *)

Definition _has_frames (fs : FS) (directory : path) (min_count : nat) : bool :=
  if dir_exists fs directory
  then bool_decide (min_count ≤ length (glob_frames fs directory))
  else false.

Definition _assemble_animation (config : PipelineConfig) (frame_dir : path)
    (name : string) (w : world) : world :=
  let gif_path := dir_parent frame_dir // (name +:+ ".gif") in
  let w :=
    set_fs (frames_to_gif E frame_dir gif_path (upscale_size config)
              (frame_duration_ms config) (w_fs w)).2 w in
  let w :=
    if file_exists (w_fs w) gif_path then print (LGif (name +:+ ".gif")) w
    else w in
  let static_path := static_dir config // (name +:+ ".png") in
  set_fs (create_static_fallback E frame_dir static_path (upscale_size config)
            15 (w_fs w)).2 w.

(** [_assemble_animation] on a directory whose frame files were not
    checked: an exception of [frames_to_gif] or of [create_static_fallback]
    ends it where it is raised. *)
Definition _assemble_animation_or_raise (config : PipelineConfig)
    (frame_dir : path) (name : string) (w : world) : outcome unit * world :=
  let gif_path := dir_parent frame_dir // (name +:+ ".gif") in
  match frames_to_gif_or_raise E frame_dir gif_path (upscale_size config)
          (frame_duration_ms config) (w_fs w) with
  | (Raised e, fs) => (Raised e, set_fs fs w)
  | (Returned _, fs) =>
    let w := set_fs fs w in
    let w :=
      if file_exists (w_fs w) gif_path then print (LGif (name +:+ ".gif")) w
      else w in
    let static_path := static_dir config // (name +:+ ".png") in
    match create_static_fallback_or_raise E frame_dir static_path
            (upscale_size config) 15 (w_fs w) with
    | (Raised e, fs) => (Raised e, set_fs fs w)
    | (Returned _, fs) => (Returned tt, set_fs fs w)
    end
  end.

(** [if targets: items = {k: v for k, v in items.items() if k in targets}] *)
Definition select_targets {A} (items : list (string * A))
    (targets : option (list string)) : list (string * A) :=
  match targets with
  | Some (t :: ts) => filter (λ kv, kv.1 ∈ t :: ts) items
  | _ => items
  end.

Definition _resolve_step_reference (config : PipelineConfig) (step : step)
    (previous_frames : list frame) (w : world) : fpath * world :=
  let from_shape := default "" (step_from step) in
  if bool_decide (from_shape = "")
     || bool_decide (from_shape ∈ ["liquid"; "reference"; "base"])
  then (reference config, w)
  else
    let shape_dir := singles_dir config ++ [from_shape] in
    let ref := shape_dir // "frame_15.png" in
    if file_exists (w_fs w) ref then (ref, w)
    else
      match last previous_frames with
      | Some previous =>
        let tmp := mktemp E (w_fs w) in
        (tmp, set_fs (write_file tmp (b64decode E (base64 previous)) (w_fs w)) w)
      | None => (reference config, w)
      end.

(** [_resolve_step_reference] on frames that were not checked: the last
    frame may fail to decode, after the temporary file was opened. *)
Definition _resolve_step_reference_or_raise (config : PipelineConfig)
    (step : step) (previous_frames : list frame) (w : world)
  : outcome fpath * world :=
  let from_shape := default "" (step_from step) in
  if bool_decide (from_shape = "")
     || bool_decide (from_shape ∈ ["liquid"; "reference"; "base"])
  then (Returned (reference config), w)
  else
    let shape_dir := singles_dir config ++ [from_shape] in
    let ref := shape_dir // "frame_15.png" in
    if file_exists (w_fs w) ref then (Returned ref, w)
    else
      match last previous_frames with
      | Some previous =>
        let tmp := mktemp E (w_fs w) in
        let w := set_fs (write_file tmp [] (w_fs w)) w in
        if b64decode_ok E (base64 previous)
        then (Returned tmp,
              set_fs (write_file tmp (b64decode E (base64 previous)) (w_fs w)) w)
        else (Raised BinasciiError, w)
      | None => (Returned (reference config), w)
      end.

(** One iteration of the loop of [generate_singles]; the [try] covers the
    call, the saving of the frames and the assembling. *)
Definition single_item (config : PipelineConfig) (st : float * world)
    (item : string * single_entry) : float * world :=
  let '(total_cost, w) := st in
  let '(name, entry) := item in
  let frame_dir := singles_dir config ++ [name] in
  if _has_frames (w_fs w) frame_dir 16 then
    let existing := length (glob_frames (w_fs w) frame_dir) in
    (total_cost, print (LSkipHasFrames name existing) w)
  else
    let w := print (LStart "Generating" name) w in
    match generate_animation (reference config) (prompt entry)
            (frame_size config) (frame_size config) w with
    | (Returned (frames, cost), w) =>
      match save_frames_or_raise E frames frame_dir (w_fs w) with
      | (Returned saved, fs) =>
        let w := set_fs fs w in
        let total_cost := (total_cost + cost)%float in
        let w := print (LSaved (length saved) (Some cost)) w in
        match _assemble_animation_or_raise config frame_dir name w with
        | (Returned _, w) => (total_cost, w)
        | (Raised e, w) => (total_cost, print (LError "" e) w)
        end
      | (Raised e, fs) => (total_cost, print (LError "" e) (set_fs fs w))
      end
    | (Raised e, w) => (total_cost, print (LError "" e) w)
    end.

Definition generate_singles (config : PipelineConfig)
    (targets : option (list string)) (w : world) : float * world :=
  let items := select_targets (singles config) targets in
  match items with
  | [] => (0%float, print (LNothing "singles") w)
  | _ =>
    let w := print (LBanner "SINGLE TRANSFORMS" (length items) (length items)) w in
    let '(total_cost, w) := fold_left (single_item config) items (0%float, w) in
    (total_cost, print (LComplete "Singles" total_cost) w)
  end.

(** One iteration of the loop of [generate_emotes]. *)
Definition emote_item (config : PipelineConfig) (st : float * world)
    (item : string * single_entry) : float * world :=
  let '(total_cost, w) := st in
  let '(name, entry) := item in
  let frame_dir := singles_dir config ++ [name] in
  let ref_frame := frame_dir // "frame_15.png" in
  if negb (file_exists (w_fs w) ref_frame) then
    (total_cost, print (LSkipNoFrame15 name) w)
  else if file_exists (w_fs w) (frame_dir // "frame_16.png") then
    (total_cost, print (LSkipEmoteExists name) w)
  else
    let w := print (LStart "Emote" name) w in
    match generate_animation ref_frame (prompt entry)
            (frame_size config) (frame_size config) w with
    | (Returned (frames, cost), w) =>
      match save_frames_offset_or_raise E frames frame_dir 16 (w_fs w) with
      | (Returned _, fs) =>
        let w := set_fs fs w in
        let total_cost := (total_cost + cost)%float in
        let w := print (LSaved (length frames) (Some cost)) w in
        match _assemble_animation_or_raise config frame_dir name w with
        | (Returned _, w) => (total_cost, w)
        | (Raised e, w) => (total_cost, print (LError "" e) w)
        end
      | (Raised e, fs) => (total_cost, print (LError "" e) (set_fs fs w))
      end
    | (Raised e, w) => (total_cost, print (LError "" e) w)
    end.

Definition generate_emotes (config : PipelineConfig)
    (targets : option (list string)) (w : world) : float * world :=
  let items := select_targets (emotes config) targets in
  match items with
  | [] => (0%float, print (LNothing "emotes") w)
  | _ =>
    let w := print (LBanner "EMOTES" (length items) (length items)) w in
    let '(total_cost, w) := fold_left (emote_item config) items (0%float, w) in
    (total_cost, print (LComplete "Emotes" total_cost) w)
  end.

(** The loop over the steps of one chain or journey. It ends at the first
    step whose call raises ([break]); resolving the reference is outside
    the [try], so an exception there leaves the generator. *)
Fixpoint run_steps (config : PipelineConfig) (steps : list step)
    (step_idx total : nat) (all_frames : list frame) (total_cost : float)
    (w : world) : outcome (list frame * float) * world :=
  match steps with
  | [] => (Returned (all_frames, total_cost), w)
  | step :: rest =>
    match _resolve_step_reference_or_raise config step all_frames w with
    | (Raised e, w) => (Raised e, w)
    | (Returned ref, w) =>
      let from_s := default "?" (step_from step) in
      let to_s := default "?" (step_to step) in
      let w := print (LStep (step_idx + 1) total from_s to_s) w in
      match generate_animation ref (step_prompt step)
              (frame_size config) (frame_size config) w with
      | (Returned (frames, cost), w) =>
        run_steps config rest (S step_idx) total (all_frames ++ frames)
          (total_cost + cost)%float (print (LCost cost) w)
      | (Raised e, w) =>
        (Returned (all_frames, total_cost), print (LError "" e) w)
      end
    end
  end.

(** One iteration of the loop of [generate_chains] ([kind] is "Chain",
    [base] is [config.chains_dir]) or of [generate_journeys]; saving and
    assembling are outside any [try]. *)
Definition sequence_item (kind : string) (base : path)
    (config : PipelineConfig) (st : float * world)
    (item : string * sequence_entry) : outcome float * world :=
  let '(total_cost, w) := st in
  let '(chain_name, entry) := item in
  let steps := steps entry in
  let chain_dir := base ++ [chain_name] in
  let expected_frames := length steps * 16 in
  if _has_frames (w_fs w) chain_dir expected_frames then
    (Returned total_cost, print (LSkipComplete chain_name) w)
  else
    let w := print (LStart kind (default chain_name (label entry))) w in
    let w := set_fs (mkdir_parents chain_dir (w_fs w)) w in
    match run_steps config steps 0 (length steps) [] total_cost w with
    | (Raised e, w) => (Raised e, w)
    | (Returned (all_frames, total_cost), w) =>
      match all_frames with
      | [] => (Returned total_cost, w)
      | _ =>
        match save_frames_or_raise E all_frames chain_dir (w_fs w) with
        | (Raised e, fs) => (Raised e, set_fs fs w)
        | (Returned saved, fs) =>
          let w := print (LSaved (length saved) None) (set_fs fs w) in
          match _assemble_animation_or_raise config chain_dir chain_name w with
          | (Raised e, w) => (Raised e, w)
          | (Returned _, w) => (Returned total_cost, w)
          end
        end
      end
    end.

(** The loop over the chains or journeys; an exception leaves it. *)
Fixpoint sequence_loop (kind : string) (base : path) (config : PipelineConfig)
    (items : list (string * sequence_entry)) (total_cost : float) (w : world)
  : outcome float * world :=
  match items with
  | [] => (Returned total_cost, w)
  | item :: rest =>
    match sequence_item kind base config (total_cost, w) item with
    | (Returned total_cost, w) => sequence_loop kind base config rest total_cost w
    | (Raised e, w) => (Raised e, w)
    end
  end.

Definition total_steps (items : list (string * sequence_entry)) : nat :=
  fold_left Nat.add (fmap (λ kv, length (steps kv.2)) items) 0.

Definition generate_chains (config : PipelineConfig) (w : world)
  : outcome float * world :=
  match chains config with
  | [] => (Returned 0%float, print (LNothing "chains") w)
  | _ =>
    let w := print (LBanner "CHAINS" (length (chains config))
                      (total_steps (chains config))) w in
    match sequence_loop "Chain" (chains_dir config) config (chains config)
            0%float w with
    | (Returned total_cost, w) =>
      (Returned total_cost, print (LComplete "Chains" total_cost) w)
    | (Raised e, w) => (Raised e, w)
    end
  end.

Definition generate_journeys (config : PipelineConfig)
    (targets : option (list string)) (w : world) : outcome float * world :=
  let items := select_targets (journeys config) targets in
  match items with
  | [] => (Returned 0%float, print (LNothing "journeys") w)
  | _ =>
    let w := print (LBanner "JOURNEYS" (length items) (total_steps items)) w in
    match sequence_loop "Journey" (journeys_dir config) config items
            0%float w with
    | (Returned total_cost, w) =>
      (Returned total_cost, print (LComplete "Journeys" total_cost) w)
    | (Raised e, w) => (Raised e, w)
    end
  end.

(** The first half of an iteration of [generate_cycles]: the forward
    frames, reused from the singles directory or generated into it; the
    [try] covers the call and the saving. [None] is the [continue] after
    either failed. *)
Definition cycle_forward (config : PipelineConfig) (entry : cycle_entry)
    (total_cost : float) (w : world) : option (list fpath) * float * world :=
  let shape := shape entry in
  let forward_dir := singles_dir config ++ [shape] in
  let forward_frames :=
    if dir_exists (w_fs w) forward_dir
    then sorted_frames (w_fs w) forward_dir else [] in
  match forward_frames with
  | [] =>
    let w := print (LStart "Generating forward" shape) w in
    match generate_animation (reference config) (forward_prompt entry)
            (frame_size config) (frame_size config) w with
    | (Returned (frames, cost), w) =>
      match save_frames_or_raise E frames forward_dir (w_fs w) with
      | (Returned _, fs) =>
        let w := set_fs fs w in
        let forward_frames := sorted_frames (w_fs w) forward_dir in
        (Some forward_frames, (total_cost + cost)%float, w)
      | (Raised e, fs) =>
        (None, total_cost, print (LError "generating forward" e) (set_fs fs w))
      end
    | (Raised e, w) =>
      (None, total_cost, print (LError "generating forward" e) w)
    end
  | _ => (Some forward_frames, total_cost, w)
  end.

(** One iteration of the loop of [generate_cycles]. [forward_frames[-1]]
    raises when the forward generation came back with no frame; saving the
    combined frames and assembling are outside any [try]. *)
Definition cycle_item (config : PipelineConfig) (st : float * world)
    (item : string * cycle_entry) : outcome float * world :=
  let '(total_cost, w) := st in
  let '(cycle_name, entry) := item in
  let cycle_dir := cycles_dir config ++ [cycle_name] in
  if _has_frames (w_fs w) cycle_dir 32 then
    (Returned total_cost, print (LSkipComplete cycle_name) w)
  else
    let w := print (LStart "Cycle" cycle_name) w in
    match cycle_forward config entry total_cost w with
    | (None, total_cost, w) => (Returned total_cost, w)
    | (Some forward_frames, total_cost, w) =>
      match last forward_frames with
      | None => (Raised IndexError, w)
      | Some last_frame =>
        let w := print (LStart "Generating reverse" (shape entry)) w in
        match generate_animation last_frame (reverse_prompt entry)
                (frame_size config) (frame_size config) w with
        | (Returned (reverse_frames, cost), w) =>
          let total_cost := (total_cost + cost)%float in
          let all_frames :=
            fmap (λ fp, Frame (b64encode E (file_bytes (w_fs w) fp)))
                forward_frames ++ reverse_frames in
          match save_frames_or_raise E all_frames cycle_dir (w_fs w) with
          | (Raised e, fs) => (Raised e, set_fs fs w)
          | (Returned saved, fs) =>
            let w := print (LSaved (length saved) None) (set_fs fs w) in
            match _assemble_animation_or_raise config cycle_dir cycle_name w with
            | (Raised e, w) => (Raised e, w)
            | (Returned _, w) => (Returned total_cost, w)
            end
          end
        | (Raised e, w) =>
          (Returned total_cost, print (LError "generating reverse" e) w)
        end
      end
    end.

Fixpoint cycle_loop (config : PipelineConfig)
    (items : list (string * cycle_entry)) (total_cost : float) (w : world)
  : outcome float * world :=
  match items with
  | [] => (Returned total_cost, w)
  | item :: rest =>
    match cycle_item config (total_cost, w) item with
    | (Returned total_cost, w) => cycle_loop config rest total_cost w
    | (Raised e, w) => (Raised e, w)
    end
  end.

Definition generate_cycles (config : PipelineConfig) (w : world)
  : outcome float * world :=
  match cycles config with
  | [] => (Returned 0%float, print (LNothing "cycles") w)
  | _ =>
    let w := print (LBanner "FULL CYCLES" (length (cycles config))
                      (length (cycles config))) w in
    match cycle_loop config (cycles config) 0%float w with
    | (Returned total_cost, w) =>
      (Returned total_cost, print (LComplete "Cycles" total_cost) w)
    | (Raised e, w) => (Raised e, w)
    end
  end.
End Generator.

(** ** Reading the record of calls *)

(** The cost figure a call returned, when it succeeded. *)
Definition call_cost (c : call) : option float :=
  match call_result c with
  | Returned (_, cost) => Some cost
  | Raised _ => None
  end.

(** The frames a call returned; none when it failed. *)
Definition call_frames (c : call) : list frame :=
  match call_result c with
  | Returned (frames, _) => frames
  | Raised _ => []
  end.

Definition call_failed (c : call) : Prop :=
  match call_result c with
  | Returned _ => False
  | Raised _ => True
  end.

(** [total] plus the cost figures of the calls that succeeded, added in the
    order of the calls. *)
Definition add_costs (total : float) (calls : list call) : float :=
  fold_left PrimFloat.add (omap call_cost calls) total.

(** Every payload of [frames] is one [base64.b64decode] accepts. *)
Definition frames_ok (E : externals) (frames : list frame) : bool :=
  forallb (λ fr, b64decode_ok E (base64 fr)) frames.

(** Every frame file of the directory [d] is one [Image.open] accepts. *)
Definition files_ok (E : externals) (fs : FS) (d : path) : bool :=
  forallb (λ f, image_open_ok E (file_bytes fs f)) (sorted_frames fs d).







(** What the loop over the steps of a sequence leaves behind, from the
    frames, total and world it started with to its result [r]: [new] are the
    calls it made, one per step from the first step on, in order. The loop
    raises only when a frame that has to be written as the next reference
    does not decode. *)
Definition steps_run (E : externals) (steps : list step)
    (all_frames : list frame) (total_cost : float) (w : world)
    (r : outcome (list frame * float) * world) (new : list call) : Prop :=
  w_calls r.2 = w_calls w ++ new
  ∧ length new ≤ length steps
  ∧ (∀ k c, new !! k = Some c →
       ∃ s, steps !! k = Some s ∧ call_action c = step_prompt s)
  ∧ (∀ k c, new !! k = Some c → call_failed c → S k = length new)
  ∧ match r.1 with
    | Returned (frames, total) =>
      frames = all_frames ++ concat (call_frames <$> new)
      ∧ total = add_costs total_cost new
      ∧ (length new < length steps → ∃ c, last new = Some c ∧ call_failed c)
      ∧ (frames = [] → w_fs r.2 = w_fs w)
    | Raised e =>
      e = BinasciiError
      ∧ frames_ok E (all_frames ++ concat (call_frames <$> new)) = false
    end.

(** The world midway through an iteration of [generate_cycles] whose
    forward call returned [frames] at [cost]: the frames are saved in the
    singles directory of the shape and the call is on record. *)
Definition after_forward (E : externals) (config : PipelineConfig) (w : world)
    (name : string) (entry : cycle_entry) (frames : list frame) (cost : float)
  : world :=
  World (save_frames E frames (singles_dir config ++ [shape entry]) (w_fs w)).2
    (w_calls w
     ++ [Call (reference config) (forward_prompt entry) (frame_size config)
           (frame_size config) (Returned (frames, cost))])
    (w_out w ++ [LStart "Cycle" name; LStart "Generating forward" (shape entry)]).

(** ** Sample data: the project of [tests/test_config.py] and stand-ins for
    the external libraries, used to evaluate the model on concrete inputs.
    The stand-in codec writes a payload as ["="] followed by the content,
    reads any other payload as the content itself and rejects the payload
    ["?"]; the stand-in image library rejects an empty file. *)

Definition sample_externals (key : option string) (answers : list response)
  : externals :=
  {| b64decode := λ s, list_byte_of_string
                         match s with String "=" content => content | _ => s end;
     b64encode := λ b, String "=" (string_of_list_byte b);
     image := bytes * Z * Z;
     image_open := λ b, (b, 64%Z, 64%Z);
     resize_nearest := λ i w h, (i.1.1, w, h);
     save_gif := λ l d, concat (fmap (λ i : bytes * Z * Z, i.1.1) l);
     save_png := λ i, i.1.1;
     mktemp := λ _, ["tmp"] // "tmp0.png";
     api_key := key;
     service := λ n _, nth n answers TransportError;
     b64decode_ok := λ s, negb (bool_decide (s = "?"));
     image_open_ok := λ b, match b with [] => false | _ => true end |}.

Definition sample_config : PipelineConfig :=
  {| reference := ["project"] // "reference.png";
     output_dir := ["project"; "output"];
     frame_size := 64;
     upscale_size := 512;
     frame_duration_ms := 200;
     singles := [("flame", SingleEntry "transforms into a flame");
                 ("star", SingleEntry "transforms into a star")];
     emotes := [("flame", SingleEntry "flame sways gently")];
     chains :=
       [("flame_to_heart",
         SequenceEntry (Some "Fire to Love")
           [Step (Some "reference") (Some "flame") "becomes a flame";
            Step (Some "flame") (Some "heart") "becomes a heart"])];
     journeys :=
       [("hero",
         SequenceEntry (Some "Hero")
           [Step (Some "reference") (Some "sword") "becomes sword";
            Step (Some "sword") (Some "mushroom") "becomes mushroom";
            Step (Some "mushroom") (Some "crown") "becomes crown"])];
     cycles :=
       [("cycle_flame",
         CycleEntry "flame" "becomes a flame" "flame returns to gold")] |}.

(** [n] frames whose payloads are the one-character strings from [c] on. *)
Definition sample_frames (c n : nat) : list frame :=
  fmap (λ i, Frame (String (ascii_of_nat (c + i)) "")) (seq 0 n).

(** A project directory holding only the reference image. *)
Definition fresh_fs : FS :=
  write_file (["project"] // "reference.png") [Byte.x2a] (mkdir_parents ["project"] ∅).

Definition fresh_world : world := World fresh_fs [] [].

(** A service that answers its first twelve requests with a 16-frame
    animation at 0.16 each. *)
Definition steady : externals :=
  sample_externals (Some "key")
    (replicate 12 (Http200 (sample_frames 65 16) 0.16%float)).

(** A service whose first answer is a 16-frame animation and whose second
    answer is an error. *)
Definition flaky : externals :=
  sample_externals (Some "key")
    [Http200 (sample_frames 65 16) 0.16%float; HttpStatus 500 "server error"].

(** A service whose first answer is one frame that does not decode and
    whose second answer is an error. *)
Definition garbled : externals :=
  sample_externals (Some "key")
    [Http200 [Frame "?"] 0.16%float; HttpStatus 500 "server error"].

(** A service that answers every request with an 8-frame animation. *)
Definition short_reply : externals :=
  sample_externals (Some "key")
    (replicate 12 (Http200 (sample_frames 65 8) 0.16%float)).

(** The output tree of the sample project once every animation is complete. *)
Definition complete_fs : FS :=
  let E := sample_externals None [] in
  let out := output_dir sample_config in
  let fs := (save_frames E (sample_frames 65 16) (out ++ ["singles"; "flame"]) fresh_fs).2 in
  let fs := (save_frames E (sample_frames 65 32) (out ++ ["chains"; "flame_to_heart"]) fs).2 in
  let fs := (save_frames E (sample_frames 65 48) (out ++ ["journeys"; "hero"]) fs).2 in
  (save_frames E (sample_frames 65 32) (out ++ ["cycles"; "cycle_flame"]) fs).2.

Definition complete_world : world := World complete_fs [] [].

(** The sample project after its singles were generated. *)
Definition singles_world : world :=
  (generate_singles steady sample_config None fresh_world).2.

(** The sample project after its singles and then its emotes were
    generated. *)
Definition emotes_world : world :=
  (generate_emotes steady sample_config None singles_world).2.

(** A directory holding frames 0 to 3 only. *)
Definition four_frames_fs : FS :=
  (save_frames (sample_externals None []) (sample_frames 65 4) ["frames"] ∅).2.

(** ** config.py: validation *)

(** The messages [validate] can return, with the values they mention. *)
Inductive config_error :=
| ReferenceNotFound (reference : fpath)
| FrameSizeOutOfRange (frame_size : Z)
| UpscaleBelowFrameSize (upscale_size frame_size : Z)
| FrameDurationTooShort (frame_duration_ms : Z)
| MissingPrompt (catalog name : string)
| TooFewSteps (catalog name : string)
| StepMissingPrompt (catalog name : string) (index : nat)
| CycleMissing (name field : string).

(** [not entry.get(key)]: an absent key and an empty string are both falsy,
    and [PipelineConfig] holds the empty string for either. *)
Definition falsy (s : string) : bool := bool_decide (s = "").

(** The loop over [singles] and the one over [emotes]. *)
Definition validate_prompts (catalog : string)
    (items : list (string * single_entry)) : list config_error :=
  items ≫= λ kv,
    if falsy (prompt kv.2) then [MissingPrompt catalog kv.1] else [].

(** The loop over [chains] and the one over [journeys]. *)
Definition validate_sequences (catalog : string)
    (items : list (string * sequence_entry)) : list config_error :=
  items ≫= λ kv,
    (if bool_decide (length (steps kv.2) < 2)
     then [TooFewSteps catalog kv.1] else [])
    ++ (enumerate (steps kv.2) ≫= λ e,
          if falsy (step_prompt e.2)
          then [StepMissingPrompt catalog kv.1 e.1] else []).

Definition validate_cycles (items : list (string * cycle_entry))
  : list config_error :=
  items ≫= λ kv,
    (if falsy (shape kv.2) then [CycleMissing kv.1 "shape"] else [])
    ++ (if falsy (forward_prompt kv.2)
        then [CycleMissing kv.1 "forward_prompt"] else [])
    ++ (if falsy (reverse_prompt kv.2)
        then [CycleMissing kv.1 "reverse_prompt"] else []).

(** [validate]; the reference is the path of a file, and it exists when
    that file does, as in the generators. *)
Definition validate (c : PipelineConfig) (fs : FS) : list config_error :=
  (if file_exists fs (reference c) then []
   else [ReferenceNotFound (reference c)])
  ++ (if bool_decide (frame_size c < 16)%Z || bool_decide (frame_size c > 256)%Z
      then [FrameSizeOutOfRange (frame_size c)] else [])
  ++ (if bool_decide (upscale_size c < frame_size c)%Z
      then [UpscaleBelowFrameSize (upscale_size c) (frame_size c)] else [])
  ++ (if bool_decide (frame_duration_ms c < 10)%Z
      then [FrameDurationTooShort (frame_duration_ms c)] else [])
  ++ validate_prompts "singles" (singles c)
  ++ validate_prompts "emotes" (emotes c)
  ++ validate_sequences "chains" (chains c)
  ++ validate_sequences "journeys" (journeys c)
  ++ validate_cycles (cycles c).

(** What [validate] checks, said at once. *)
Definition well_formed (c : PipelineConfig) (fs : FS) : Prop :=
  is_Some (read_file fs (reference c))
  ∧ (16 ≤ frame_size c ≤ 256)%Z
  ∧ (frame_size c ≤ upscale_size c)%Z
  ∧ (10 ≤ frame_duration_ms c)%Z
  ∧ Forall (λ kv, prompt kv.2 ≠ "") (singles c)
  ∧ Forall (λ kv, prompt kv.2 ≠ "") (emotes c)
  ∧ Forall (λ kv, 2 ≤ length (steps kv.2)
                  ∧ Forall (λ s, step_prompt s ≠ "") (steps kv.2)) (chains c)
  ∧ Forall (λ kv, 2 ≤ length (steps kv.2)
                  ∧ Forall (λ s, step_prompt s ≠ "") (steps kv.2)) (journeys c)
  ∧ Forall (λ kv, shape kv.2 ≠ "" ∧ forward_prompt kv.2 ≠ ""
                  ∧ reverse_prompt kv.2 ≠ "") (cycles c).

(** ** What a run keeps *)

(** Nothing was removed between [fs] and [fs']: every directory and every
    file of [fs] is still there (the content of a file may have changed). *)
Definition fs_grows (fs fs' : FS) : Prop :=
  ∀ d, (dir_exists fs d = true → dir_exists fs' d = true)
       ∧ ∀ n, is_Some (listing fs d !! n) → is_Some (listing fs' d !! n).

(** ** What a run does with the client *)

(** The call [c] on record is a call the client answered: its result is
    what [generate_animation] computes for its arguments, for some state of
    the filesystem and some number of earlier calls. *)
Definition made_by (E : externals) (c : call) : Prop :=
  ∃ fs n,
    call_result c
    = client_result E fs n (call_reference c) (call_action c) (call_width c)
        (call_height c).

(** From running total [t] and world [w] to outcome [o] and world [w']:
    at most [bound] calls were made, all by the client; and if every one of
    them failed, the total is returned as it was and no file was created or
    changed. *)
Definition ran (E : externals) (bound : nat) (t : float) (w : world)
    (o : outcome float) (w' : world) : Prop :=
  ∃ new,
    w_calls w' = w_calls w ++ new
    ∧ length new ≤ bound
    ∧ Forall (made_by E) new
    ∧ (Forall call_failed new →
       o = Returned t ∧ ∀ d, listing (w_fs w') d = listing (w_fs w) d).

(** The call [c] on record returned at least [n] frames, all of which
    decode. *)
Definition call_saved (E : externals) (n : nat) (c : call) : bool :=
  match call_result c with
  | Returned (frames, _) => bool_decide (n ≤ length frames) && frames_ok E frames
  | Raised _ => false
  end.

(** The call [c] on record returned at least [n] frames. *)
Definition call_returned (n : nat) (c : call) : bool :=
  match call_result c with
  | Returned (frames, _) => bool_decide (n ≤ length frames)
  | Raised _ => false
  end.


(** The test [generate_emotes] makes before it calls the client, as the
    condition under which the emote [name] is skipped. *)
Definition emote_skips (config : PipelineConfig) (fs : FS) (name : string)
  : bool :=
  negb (file_exists fs ((singles_dir config ++ [name]) // "frame_15.png"))
  || file_exists fs ((singles_dir config ++ [name]) // "frame_16.png").

(** * Properties *)

(** ** Decimal formatting *)

Lemma decimal_parse (n : nat) :
  NilEmpty.uint_of_string (decimal n) = Some (Nat.to_uint n).
Proof. apply NilEmpty.usu. Qed.

Lemma decimal_inj (a b : nat) : decimal a = decimal b → a = b.
Proof.
  intros H. apply (f_equal NilEmpty.uint_of_string) in H.
  rewrite !decimal_parse in H. injection H as H.
  apply (f_equal Nat.of_uint) in H. by rewrite !DecimalNat.Unsigned.of_to in H.
Qed.

Lemma format_02d_neg (z : Z) :
  (z < 0)%Z → format_02d z = String "-" (decimal (Z.abs_nat z)).
Proof. intros. unfold format_02d. by rewrite (proj2 (Z.ltb_lt _ _)). Qed.

Lemma format_02d_pad (z : Z) :
  (0 ≤ z < 10)%Z → format_02d z = String "0" (decimal (Z.to_nat z)).
Proof.
  intros. unfold format_02d.
  rewrite (proj2 (Z.ltb_ge _ _)) by lia. by rewrite (proj2 (Z.ltb_lt _ _)) by lia.
Qed.

Lemma format_02d_plain (z : Z) : (10 ≤ z)%Z → format_02d z = decimal (Z.to_nat z).
Proof.
  intros. unfold format_02d.
  rewrite (proj2 (Z.ltb_ge _ _)) by lia. by rewrite (proj2 (Z.ltb_ge _ _)) by lia.
Qed.

Lemma parse_02d_unsigned (s : string) (d : Decimal.uint) :
  NilEmpty.uint_of_string s = Some d →
  parse_02d s = Some (Z.of_nat (Nat.of_uint d)).
Proof.
  intros Hs. destruct s as [|c s]; [by injection Hs as <-|].
  assert (c ≠ "-"%char) as Hc
    by (intros ->; simpl in Hs; unfold uint_of_char in Hs;
        destruct (NilEmpty.uint_of_string s); discriminate).
  transitivity ((λ d, Z.of_nat (Nat.of_uint d)) <$> NilEmpty.uint_of_string (String c s)).
  - destruct c as [[] [] [] [] [] [] [] []]; try reflexivity. by destruct Hc.
  - by rewrite Hs.
Qed.

Lemma parse_format_02d (z : Z) : parse_02d (format_02d z) = Some z.
Proof.
  destruct (Z.lt_ge_cases z 0); [|destruct (Z.lt_ge_cases z 10)].
  - rewrite format_02d_neg by done. unfold parse_02d. rewrite decimal_parse.
    cbn. rewrite DecimalNat.Unsigned.of_to. f_equal. lia.
  - rewrite format_02d_pad by done.
    rewrite (parse_02d_unsigned _ (Decimal.D0 (Nat.to_uint (Z.to_nat z)))).
    + change (Nat.of_uint (Decimal.D0 ?d)) with (Nat.of_uint d).
      rewrite DecimalNat.Unsigned.of_to. f_equal. lia.
    + change (NilEmpty.uint_of_string (String "0" ?s))
        with (uint_of_char "0" (NilEmpty.uint_of_string s)).
      by rewrite decimal_parse.
  - rewrite format_02d_plain by done.
    rewrite (parse_02d_unsigned _ _ (decimal_parse _)).
    rewrite DecimalNat.Unsigned.of_to. f_equal. lia.
Qed.

Lemma format_02d_inj (a b : Z) : format_02d a = format_02d b → a = b.
Proof.
  intros H. apply (f_equal parse_02d) in H.
  rewrite !parse_format_02d in H. by injection H.
Qed.

Lemma frame_name_inj (a b : Z) : frame_name a = frame_name b → a = b.
Proof.
  unfold frame_name. intros H. apply String.app_inj in H.
  apply format_02d_inj.
  revert H. generalize (format_02d a) (format_02d b). 
  induction s as [|c s IH]; intros [|c' s']; intros H; try done.
  - destruct s' as [|? [|? [|? [|? [|]]]]]; discriminate.
  - destruct s as [|? [|? [|? [|? [|]]]]]; discriminate.
  - injection H as -> H. f_equal. by apply IH.
Qed.

Lemma format_02d_two_digits (z : Z) :
  (0 ≤ z < 100)%Z → format_02d z = two_digits (Z.to_nat z).
Proof.
  intros Hz.
  assert (forallb (λ n, String.eqb (format_02d (Z.of_nat n)) (two_digits n))
            (seq 0 100) = true) as Hall by (vm_compute; reflexivity).
  rewrite forallb_forall in Hall.
  specialize (Hall (Z.to_nat z)). rewrite Z2Nat.id in Hall by lia.
  apply String.eqb_eq, Hall, in_seq. lia.
Qed.

Lemma frame_name_step_le (n : nat) :
  n < 99 → String.le (frame_name (Z.of_nat n)) (frame_name (Z.of_nat (S n))).
Proof.
  intros Hn.
  assert (forallb (λ n, bool_decide (String.le (frame_name (Z.of_nat n))
                                               (frame_name (Z.of_nat (S n)))))
            (seq 0 99) = true) as Hall by (vm_compute; reflexivity).
  rewrite forallb_forall in Hall.
  eapply bool_decide_eq_true_1, Hall, in_seq. lia.
Qed.

(** ** The glob pattern *)

Lemma chars_app (a b : string) : chars (a +:+ b) = chars a ++ chars b.
Proof.
  induction a as [|c a IH]; [done|].
  change (String c a +:+ b) with (String c (a +:+ b)).
  unfold chars in *. simpl. by rewrite IH.
Qed.

Lemma fnmatch_frame_wrap (s : string) :
  fnmatch_frame ("frame_" +:+ s +:+ ".png") = true.
Proof.
  unfold fnmatch_frame. rewrite !chars_app.
  apply andb_true_intro. split; apply bool_decide_eq_true_2.
  - by eexists.
  - change (drop 6 (chars "frame_" ++ ?l)) with l. by eexists.
Qed.

Lemma fnmatch_frame_name (z : Z) : fnmatch_frame (frame_name z) = true.
Proof. apply fnmatch_frame_wrap. Qed.

(** ** The filesystem *)

Lemma listing_mkdir (d d' : path) (fs : FS) :
  listing (mkdir d fs) d' = listing fs d'.
Proof.
  unfold mkdir, listing. destruct (fs !! d) eqn:Hd; [done|].
  destruct (decide (d = d')) as [<-|Hne].
  - by rewrite lookup_insert_eq, Hd.
  - by rewrite lookup_insert_ne.
Qed.

Lemma listing_mkdir_parents (d d' : path) (fs : FS) :
  listing (mkdir_parents d fs) d' = listing fs d'.
Proof.
  unfold mkdir_parents. induction (prefixes d) as [|p ps IH]; [done|].
  simpl. by rewrite listing_mkdir.
Qed.

Lemma dir_exists_true (fs : FS) (d : path) :
  dir_exists fs d = true ↔ is_Some (fs !! d).
Proof. unfold dir_exists. apply bool_decide_eq_true. Qed.

Lemma dir_exists_mkdir (d d' : path) (fs : FS) :
  dir_exists (mkdir d fs) d' = true ↔ dir_exists fs d' = true ∨ d' = d.
Proof.
  rewrite !dir_exists_true. unfold mkdir.
  destruct (fs !! d) eqn:Hd.
  - split; [auto|]. intros [?| ->]; [done|]. by rewrite Hd.
  - destruct (decide (d = d')) as [<-|Hne].
    + rewrite lookup_insert_eq. split; eauto.
    + rewrite lookup_insert_ne by done. split; [auto|]. by intros [?| ->].
Qed.

Lemma dir_exists_mkdir_parents (d d' : path) (fs : FS) :
  dir_exists (mkdir_parents d fs) d' = true
  ↔ dir_exists fs d' = true ∨ d' ∈ prefixes d.
Proof.
  unfold mkdir_parents. induction (prefixes d) as [|p ps IH]; simpl.
  - split; [auto|]. intros [?|H]; [done|]. by apply elem_of_nil in H.
  - rewrite dir_exists_mkdir, IH, elem_of_cons. tauto.
Qed.

Lemma prefixes_self (d : path) : d ∈ prefixes d.
Proof.
  induction d as [|x d IH]; simpl; [apply list_elem_of_here|].
  apply list_elem_of_further, list_elem_of_fmap. eauto.
Qed.

Lemma prefixes_length (d p : path) : p ∈ prefixes d → length p ≤ length d.
Proof.
  revert p. induction d as [|x d IH]; simpl; intros p Hp.
  - apply list_elem_of_singleton in Hp as ->. done.
  - apply elem_of_cons in Hp as [->|Hp]; [simpl; lia|].
    apply list_elem_of_fmap in Hp as (q & -> & Hq). apply IH in Hq. simpl. lia.
Qed.

Lemma dir_exists_mkdir_parents_self (d : path) (fs : FS) :
  dir_exists (mkdir_parents d fs) d = true.
Proof. apply dir_exists_mkdir_parents. right. apply prefixes_self. Qed.

Lemma listing_write_file (p : fpath) (b : bytes) (fs : FS) (d : path) :
  listing (write_file p b fs) d
  = if decide (fp_dir p = d) then <[fp_name p := b]> (listing fs d)
    else listing fs d.
Proof.
  unfold write_file. case_decide as Hd.
  - subst d. unfold listing at 1. by rewrite lookup_insert_eq.
  - unfold listing at 1 3. by rewrite lookup_insert_ne.
Qed.

Lemma dir_exists_write_file (p : fpath) (b : bytes) (fs : FS) (d : path) :
  dir_exists (write_file p b fs) d = true
  ↔ dir_exists fs d = true ∨ d = fp_dir p.
Proof.
  rewrite !dir_exists_true. unfold write_file.
  destruct (decide (fp_dir p = d)) as [<-|Hne].
  - rewrite lookup_insert_eq. split; eauto.
  - rewrite lookup_insert_ne by done. split; [auto|]. by intros [?| ->].
Qed.

Lemma read_file_write_file (p q : fpath) (b : bytes) (fs : FS) :
  read_file (write_file p b fs) q
  = if decide (p = q) then Some b else read_file fs q.
Proof.
  unfold read_file. rewrite listing_write_file.
  destruct p as [d n], q as [d' n']; simpl.
  destruct (decide (d = d')) as [<-|Hd].
  - destruct (decide (n = n')) as [<-|Hn].
    + rewrite lookup_insert_eq. by rewrite decide_True.
    + rewrite lookup_insert_ne by done. rewrite decide_False; [done|congruence].
  - rewrite decide_False; [done|congruence].
Qed.


Lemma file_exists_true (fs : FS) (p : fpath) :
  file_exists fs p = true ↔ is_Some (read_file fs p).
Proof. unfold file_exists. apply bool_decide_eq_true. Qed.

(** ** Globbing a directory *)

Lemma glob_names_listing (fs fs' : FS) (d d' : path) :
  listing fs d = listing fs' d' → glob_names fs d = glob_names fs' d'.
Proof. unfold glob_names. by intros ->. Qed.

Lemma elem_of_glob_names (fs : FS) (d : path) (n : string) :
  n ∈ glob_names fs d ↔ fnmatch_frame n = true ∧ is_Some (listing fs d !! n).
Proof.
  unfold glob_names. rewrite list_elem_of_filter, list_elem_of_fmap.
  split.
  - intros [Hm ([n' b] & -> & Hin)]. split; [done|].
    apply elem_of_map_to_list in Hin. simpl. eauto.
  - intros [Hm [b Hb]]. split; [done|]. exists (n, b). split; [done|].
    by apply elem_of_map_to_list.
Qed.

Lemma NoDup_glob_names (fs : FS) (d : path) : NoDup (glob_names fs d).
Proof. unfold glob_names. apply NoDup_filter, NoDup_fst_map_to_list. Qed.

Lemma length_glob_frames (fs : FS) (d : path) :
  length (glob_frames fs d) = length (glob_names fs d).
Proof. unfold glob_frames. apply length_fmap. Qed.

Lemma sorted_frames_Permutation (fs : FS) (d : path) :
  sorted_frames fs d ≡ₚ glob_frames fs d.
Proof.
  unfold sorted_frames, glob_frames. apply fmap_Permutation, merge_sort_Permutation.
Qed.

Lemma length_sorted_frames (fs : FS) (d : path) :
  length (sorted_frames fs d) = length (glob_names fs d).
Proof. by rewrite sorted_frames_Permutation, length_glob_frames. Qed.

Lemma sorted_frames_listing (fs fs' : FS) (d : path) :
  listing fs d = listing fs' d → sorted_frames fs d = sorted_frames fs' d.
Proof. unfold sorted_frames. intros H. by rewrite (glob_names_listing _ _ _ _ H). Qed.

Lemma elem_of_sorted_frames (fs : FS) (d : path) (p : fpath) :
  p ∈ sorted_frames fs d
  ↔ fp_dir p = d ∧ fnmatch_frame (fp_name p) = true ∧ is_Some (read_file fs p).
Proof.
  unfold sorted_frames. rewrite list_elem_of_fmap. split.
  - intros (n & -> & Hn). rewrite merge_sort_Permutation in Hn.
    apply elem_of_glob_names in Hn. done.
  - destruct p as [d' n]. simpl. intros (-> & Hm & Hs). exists n. split; [done|].
    rewrite merge_sort_Permutation. by apply elem_of_glob_names.
Qed.

Lemma sorted_frames_nil (fs : FS) (d : path) :
  sorted_frames fs d = [] ↔ glob_frames fs d = [].
Proof.
  split; intros H; apply Permutation_nil_r.
  - by rewrite <- sorted_frames_Permutation, H.
  - by rewrite sorted_frames_Permutation, H.
Qed.

(** ** Persisting frames *)

Section SaveLoop.
Context (E : externals) (d : path) (number : nat → Z).
Context (number_inj : ∀ i j, number i = number j → i = j).

Local Abbreviation body :=
  (λ (st : list fpath * FS) (e : nat * frame),
     let path := d // ("frame_" +:+ format_02d (number e.1) +:+ ".png") in
     (st.1 ++ [path], write_file path (b64decode E (base64 e.2)) st.2)).

Local Abbreviation loop k frames ps fs :=
  (fold_left body (enumerate_from k frames) (ps, fs)).

Lemma save_loop_paths (frames : list frame) (k : nat) (ps : list fpath) (fs : FS) :
  (loop k frames ps fs).1
  = ps ++ ((λ i, d // frame_name (number i)) <$> seq k (length frames)).
Proof.
  revert k ps fs. induction frames as [|fr frames IH]; intros k ps fs; simpl.
  - by rewrite app_nil_r.
  - rewrite IH. by rewrite <- app_assoc.
Qed.

Lemma save_loop_other_dir (frames : list frame) (k : nat) (ps : list fpath)
    (fs : FS) (d' : path) :
  d' ≠ d → listing (loop k frames ps fs).2 d' = listing fs d'.
Proof.
  intros Hd. revert k ps fs.
  induction frames as [|fr frames IH]; intros k ps fs; simpl; [done|].
  rewrite IH, listing_write_file. simpl. by rewrite decide_False.
Qed.

Lemma save_loop_dir_exists (frames : list frame) (k : nat) (ps : list fpath)
    (fs : FS) (d' : path) :
  dir_exists fs d' = true → dir_exists (loop k frames ps fs).2 d' = true.
Proof.
  revert k ps fs.
  induction frames as [|fr frames IH]; intros k ps fs Hd; simpl; [done|].
  apply IH, dir_exists_write_file. by left.
Qed.

Lemma save_loop_lookup_old (frames : list frame) (k : nat) (ps : list fpath)
    (fs : FS) (n : string) :
  (∀ i, k ≤ i < k + length frames → n ≠ frame_name (number i)) →
  listing (loop k frames ps fs).2 d !! n = listing fs d !! n.
Proof.
  revert k ps fs.
  induction frames as [|fr frames IH]; intros k ps fs Hn; simpl; [done|].
  rewrite IH.
  - rewrite listing_write_file. simpl. rewrite decide_True by done.
    apply lookup_insert_ne. intros Heq. apply (Hn k); [simpl; lia|done].
  - intros i Hi. apply Hn. simpl. lia.
Qed.

Lemma save_loop_lookup_new (frames : list frame) (k : nat) (ps : list fpath)
    (fs : FS) (i : nat) (fr : frame) :
  frames !! i = Some fr →
  listing (loop k frames ps fs).2 d !! frame_name (number (k + i))
  = Some (b64decode E (base64 fr)).
Proof.
  revert k ps fs i.
  induction frames as [|fr0 frames IH]; intros k ps fs i Hi; [done|].
  destruct i as [|i]; simpl.
  - injection Hi as ->. rewrite save_loop_lookup_old.
    + rewrite listing_write_file. simpl. rewrite decide_True by done.
      rewrite Nat.add_0_r. apply lookup_insert_eq.
    + intros j Hj Heq. apply frame_name_inj, number_inj in Heq. lia.
  - replace (k + S i) with (S k + i) by lia. by apply IH.
Qed.

Lemma save_loop_is_Some (frames : list frame) (k : nat) (ps : list fpath)
    (fs : FS) (n : string) :
  is_Some (listing (loop k frames ps fs).2 d !! n)
  ↔ is_Some (listing fs d !! n)
    ∨ ∃ i, k ≤ i < k + length frames ∧ n = frame_name (number i).
Proof.
  destruct (decide (Exists (λ i, n = frame_name (number i)) (seq k (length frames))))
    as [Hex|Hno]; rewrite Exists_exists in *.
  - destruct Hex as (i & Hi & ->). apply elem_of_seq in Hi.
    destruct (lookup_lt_is_Some_2 frames (i - k)) as [fr Hfr]; [lia|].
    pose proof (save_loop_lookup_new frames k ps fs (i - k) fr Hfr) as Hnew.
    replace (k + (i - k)) with i in Hnew by lia. rewrite Hnew.
    split; [|eauto]. intros _. right. exists i. split; [lia|done].
  - rewrite save_loop_lookup_old.
    + split; [auto|]. intros [?|(i & Hi & ->)]; [done|].
      destruct Hno. exists i. split; [|done]. apply elem_of_seq. lia.
    + intros i Hi ->. apply Hno. exists i. split; [|done]. apply elem_of_seq. lia.
Qed.
End SaveLoop.

Lemma save_frames_is_offset_0 (E : externals) (frames : list frame) (d : path) (fs : FS) :
  save_frames E frames d fs = save_frames_offset E frames d 0 fs.
Proof.
  unfold save_frames, save_frames_offset.
  generalize (@nil fpath, mkdir_parents d fs). unfold enumerate. generalize 0.
  induction frames as [|fr frames IH]; intros k st; simpl; [done|].
  rewrite Z.add_0_r. apply IH.
Qed.

Lemma Sorted_frame_names (a n : nat) :
  a + n ≤ 100 →
  Sorted String.le ((λ i, frame_name (Z.of_nat i)) <$> seq a n).
Proof.
  revert a. induction n as [|n IH]; intros a Ha; simpl; [constructor|].
  constructor; [apply IH; lia|].
  destruct n as [|n]; simpl; constructor.
  apply frame_name_step_le. lia.
Qed.

Lemma frame_names_shift (offset : Z) (k n : nat) :
  (0 ≤ offset)%Z →
  (λ i, frame_name (Z.of_nat i + offset)) <$> seq k n
  = (λ i, frame_name (Z.of_nat i)) <$> seq (Z.to_nat offset + k) n.
Proof.
  intros Ho. revert k. induction n as [|n IH]; intros k; simpl; [done|].
  f_equal; [f_equal; lia|]. rewrite IH. f_equal. f_equal. lia.
Qed.

Lemma frame_names_two_digits (a n : nat) :
  a + n ≤ 100 →
  (λ i, frame_name (Z.of_nat i)) <$> seq a n
  = (λ i, "frame_" +:+ two_digits i +:+ ".png") <$> seq a n.
Proof.
  intros Ha. apply list_fmap_ext. intros j i Hi.
  apply lookup_seq in Hi as [-> Hj]. unfold frame_name.
  rewrite format_02d_two_digits by lia. by rewrite Nat2Z.id.
Qed.

Section SaveOffset.
Context (E : externals) (frames : list frame) (d : path) (offset : Z) (fs : FS).

Local Abbreviation number := (λ i : nat, (Z.of_nat i + offset)%Z).

Lemma number_inj (i j : nat) : number i = number j → i = j.
Proof. simpl. lia. Qed.

Lemma save_frames_offset_paths :
  (save_frames_offset E frames d offset fs).1
  = (λ i, d // frame_name (Z.of_nat i + offset)) <$> seq 0 (length frames).
Proof. apply (save_loop_paths E d number frames 0 []). Qed.

Lemma save_frames_offset_other_dir (d' : path) :
  d' ≠ d →
  listing (save_frames_offset E frames d offset fs).2 d' = listing fs d'.
Proof.
  intros Hd. unfold save_frames_offset, enumerate.
  rewrite (save_loop_other_dir E d number frames 0 [] _ d' Hd).
  apply listing_mkdir_parents.
Qed.

Lemma save_frames_offset_read (i : nat) (fr : frame) :
  frames !! i = Some fr →
  read_file (save_frames_offset E frames d offset fs).2
    (d // frame_name (Z.of_nat i + offset))
  = Some (b64decode E (base64 fr)).
Proof.
  intros Hi. unfold read_file. simpl.
  apply (save_loop_lookup_new E d number number_inj frames 0 [] _ i fr Hi).
Qed.

Lemma save_frames_offset_is_Some (n : string) :
  is_Some (listing (save_frames_offset E frames d offset fs).2 d !! n)
  ↔ is_Some (listing fs d !! n)
    ∨ ∃ i, i < length frames ∧ n = frame_name (Z.of_nat i + offset).
Proof.
  unfold save_frames_offset, enumerate.
  rewrite (save_loop_is_Some E d number number_inj frames 0 []).
  rewrite listing_mkdir_parents. simpl.
  split; (intros [?|(i & Hi & ->)]; [by left|right; exists i; split; [lia|done]]).
Qed.

Lemma save_frames_offset_keeps (n : string) :
  (∀ i, i < length frames → n ≠ frame_name (Z.of_nat i + offset)) →
  listing (save_frames_offset E frames d offset fs).2 d !! n
  = listing fs d !! n.
Proof.
  intros Hn. unfold save_frames_offset, enumerate.
  rewrite (save_loop_lookup_old E d number frames 0 []).
  - by rewrite listing_mkdir_parents.
  - intros i Hi. apply Hn. lia.
Qed.

Lemma save_frames_offset_dir_exists (d' : path) :
  dir_exists fs d' = true ∨ d' = d →
  dir_exists (save_frames_offset E frames d offset fs).2 d' = true.
Proof.
  intros Hd. unfold save_frames_offset, enumerate.
  apply (save_loop_dir_exists E d number frames 0 []).
  apply dir_exists_mkdir_parents. destruct Hd as [?| ->]; [by left|].
  right. apply prefixes_self.
Qed.

Lemma NoDup_saved_names :
  NoDup ((λ i, frame_name (Z.of_nat i + offset)) <$> seq 0 (length frames)).
Proof.
  apply NoDup_fmap_2_strong; [|apply NoDup_seq].
  intros i j _ _ Hij. by apply frame_name_inj, number_inj in Hij.
Qed.

(** Every persisted frame is a file of the directory that the glob sees. *)
Lemma saved_names_in_glob (i : nat) :
  i < length frames →
  frame_name (Z.of_nat i + offset)
  ∈ glob_names (save_frames_offset E frames d offset fs).2 d.
Proof.
  intros Hi. apply elem_of_glob_names. split; [apply fnmatch_frame_name|].
  apply save_frames_offset_is_Some. right. eauto.
Qed.

Lemma save_frames_offset_count :
  length frames ≤ length (glob_frames (save_frames_offset E frames d offset fs).2 d).
Proof.
  rewrite length_glob_frames.
  etrans; [|apply submseteq_length, NoDup_submseteq; [apply NoDup_saved_names|]].
  { by rewrite length_fmap, length_seq. }
  intros n (i & -> & Hi)%list_elem_of_fmap. apply elem_of_seq in Hi.
  apply saved_names_in_glob. lia.
Qed.

Lemma save_frames_offset_glob_fresh :
  glob_frames fs d = [] →
  glob_names (save_frames_offset E frames d offset fs).2 d
  ≡ₚ (λ i, frame_name (Z.of_nat i + offset)) <$> seq 0 (length frames).
Proof.
  intros Hfresh.
  apply NoDup_Permutation; [apply NoDup_glob_names|apply NoDup_saved_names|].
  intros n. rewrite elem_of_glob_names, save_frames_offset_is_Some, list_elem_of_fmap.
  split.
  - intros [Hm [Hold|(i & Hi & ->)]].
    + assert (n ∈ glob_names fs d) as Hin by (by apply elem_of_glob_names).
      unfold glob_frames in Hfresh. apply fmap_nil_inv in Hfresh.
      rewrite Hfresh in Hin. by apply elem_of_nil in Hin.
    + exists i. split; [done|]. apply elem_of_seq. lia.
  - intros (i & -> & Hi). apply elem_of_seq in Hi.
    split; [apply fnmatch_frame_name|]. right. exists i. split; [lia|done].
Qed.
End SaveOffset.

Lemma saved_names_two_digits (offset : Z) (n : nat) :
  (0 ≤ offset)%Z → (offset + Z.of_nat n ≤ 100)%Z →
  (λ i, frame_name (Z.of_nat i + offset)) <$> seq 0 n
  = (λ i, "frame_" +:+ two_digits (Z.to_nat offset + i) +:+ ".png") <$> seq 0 n.
Proof.
  intros Ho Hn. apply list_fmap_ext. intros j i Hi.
  apply lookup_seq in Hi as [-> Hj]. unfold frame_name.
  rewrite format_02d_two_digits by lia. do 3 f_equal. lia.
Qed.

(** C2 (amended). For frames numbered from a start offset [offset ≥ 0] with
    [offset + N ≤ 100], persisted into a directory that holds no frame file:
    the returned paths are, in input order, [frame_NN.png] with the two-digit
    zero-padded indices [offset, offset+1, ...]; listing the directory
    afterwards yields exactly these N files in that order; each holds the
    decoded payload of its frame; and [save_frames] is the case [offset = 0]. *)
Theorem save_frames_offset_roundtrip (E : externals) (frames : list frame)
    (d : path) (offset : Z) (fs : FS) :
  (0 ≤ offset)%Z →
  (offset + Z.of_nat (length frames) ≤ 100)%Z →
  glob_frames fs d = [] →
  let names :=
    (λ i, d // ("frame_" +:+ two_digits (Z.to_nat offset + i) +:+ ".png"))
      <$> seq 0 (length frames) in
  let r := save_frames_offset E frames d offset fs in
  r.1 = names
  ∧ sorted_frames r.2 d = names
  ∧ length (glob_frames r.2 d) = length frames
  ∧ (∀ i fr, frames !! i = Some fr →
       names !! i ≫= read_file r.2 = Some (b64decode E (base64 fr)))
  ∧ save_frames E frames d fs = save_frames_offset E frames d 0 fs.
Proof.
  intros Ho Hn Hfresh names r.
  pose proof (saved_names_two_digits offset (length frames) Ho Hn) as Hnames.
  assert (names = FPath d <$> ((λ i, frame_name (Z.of_nat i + offset))
                                 <$> seq 0 (length frames))) as Hn1.
  { rewrite Hnames. subst names. by rewrite <- list_fmap_compose. }
  assert (r.1 = names) as Hpaths.
  { rewrite Hn1, <- list_fmap_compose. apply save_frames_offset_paths. }
  assert (sorted_frames r.2 d = names) as Hsorted.
  { rewrite Hn1. unfold sorted_frames. f_equal.
    apply (Sorted_unique String.le).
    - apply Sorted_merge_sort, _.
    - rewrite frame_names_shift by done. apply Sorted_frame_names. lia.
    - rewrite merge_sort_Permutation. by apply save_frames_offset_glob_fresh. }
  split; [done|]. split; [done|]. split; [|split].
  - rewrite <- sorted_frames_Permutation, Hsorted. subst names.
    by rewrite length_fmap, length_seq.
  - intros i fr Hi. rewrite Hn1, <- list_fmap_compose, list_lookup_fmap.
    rewrite lookup_seq_lt by (by eapply lookup_lt_Some). simpl.
    by apply save_frames_offset_read.
  - apply save_frames_is_offset_0.
Qed.

Lemma save_frames_offset_roundtrip_witness :
  let E := sample_externals None [] in
  let frames := sample_frames 65 3 in
  let names := [["d"] // "frame_16.png"; ["d"] // "frame_17.png"; ["d"] // "frame_18.png"] in
  let r := save_frames_offset E frames ["d"] 16 ∅ in
  r.1 = names
  ∧ sorted_frames r.2 ["d"] = names
  ∧ length (glob_frames r.2 ["d"]) = 3
  ∧ (∀ i fr, frames !! i = Some fr →
       names !! i ≫= read_file r.2 = Some (b64decode E (base64 fr)))
  ∧ save_frames E frames ["d"] ∅ = save_frames_offset E frames ["d"] 0 ∅.
Proof.
  apply (save_frames_offset_roundtrip (sample_externals None [])
           (sample_frames 65 3) ["d"] 16 ∅); [lia|simpl; lia|reflexivity].
Defined.

(** C2 as stated fails in two ways: at index 100 the name carries three
    digits, and a directory that already holds frames (the emote case)
    lists more than the N files just persisted. *)
Lemma save_frames_offset_not_two_digits :
  let E := sample_externals None [] in
  let r := save_frames_offset E (sample_frames 65 1) ["d"] 100 ∅ in
  let s := save_frames_offset E (sample_frames 65 1) ["d"] 16
             (save_frames E (sample_frames 97 1) ["d"] ∅).2 in
  r.1 = [["d"] // "frame_100.png"]
  ∧ sorted_frames r.2 ["d"] = [["d"] // "frame_100.png"]
  ∧ sorted_frames s.2 ["d"] = [["d"] // "frame_00.png"; ["d"] // "frame_16.png"].
Proof. vm_compute. done. Qed.

(** ** Assembling *)

Lemma glob_frames_no_dir (fs : FS) (d : path) :
  dir_exists fs d = false → glob_frames fs d = [].
Proof.
  intros Hd. unfold glob_frames, glob_names, listing.
  apply bool_decide_eq_false in Hd.
  destruct (fs !! d) eqn:Hl; [by destruct Hd|]. simpl.
  by rewrite map_to_list_empty.
Qed.

(** C8. When the frame directory yields no file matching the frame pattern
    (it is empty, holds only other files, or does not exist), assembling the
    looping image returns [None] and leaves the filesystem as it was. *)
Theorem frames_to_gif_no_frames (E : externals) (frame_dir : path)
    (output_path : fpath) (upscale_size duration_ms : Z) (fs : FS) :
  glob_frames fs frame_dir = [] →
  frames_to_gif E frame_dir output_path upscale_size duration_ms fs = (None, fs).
Proof.
  intros Hg. unfold frames_to_gif.
  by rewrite (proj2 (sorted_frames_nil fs frame_dir) Hg).
Qed.

Lemma frames_to_gif_no_frames_witness :
  frames_to_gif (sample_externals None []) ["project"; "empty"]
    (["project"] // "output.gif") 512 200 (mkdir_parents ["project"; "empty"] fresh_fs)
  = (None, mkdir_parents ["project"; "empty"] fresh_fs)
  ∧ frames_to_gif (sample_externals None []) ["project"; "missing"]
      (["project"] // "output.gif") 512 200 fresh_fs
    = (None, fresh_fs).
Proof.
  split; apply frames_to_gif_no_frames; reflexivity.
Defined.







(** ** The skip rule *)

Lemma _has_frames_true (fs : FS) (d : path) (min_count : nat) :
  _has_frames fs d min_count = true
  ↔ dir_exists fs d = true ∧ min_count ≤ length (glob_frames fs d).
Proof.
  unfold _has_frames. destruct (dir_exists fs d).
  - rewrite bool_decide_eq_true. tauto.
  - split; [done|]. by intros [? _].
Qed.

Lemma glob_frames_dir_exists (fs : FS) (d : path) :
  glob_frames fs d ≠ [] → dir_exists fs d = true.
Proof.
  intros Hg. destruct (dir_exists fs d) eqn:Hd; [done|].
  by apply glob_frames_no_dir in Hd.
Qed.

(** C1. An item whose frame directory exists and already holds at least the
    threshold of frame files for its kind (16 for a single, 32 for a cycle,
    16 per step for a chain or journey) is skipped: its iteration only
    prints the skip line, so no call is made, no file or directory changes
    and the cost stays as it was, and the loop goes on with the items that
    follow. *)
Theorem skip_rule (E : externals) (config : PipelineConfig)
    (total_cost : float) (w : world) (name : string) :
  let has (d : path) (threshold : nat) :=
    dir_exists (w_fs w) d = true ∧ threshold ≤ length (glob_frames (w_fs w) d) in
  (∀ entry rest,
     has (singles_dir config ++ [name]) 16 →
     fold_left (single_item E config) ((name, entry) :: rest) (total_cost, w)
     = fold_left (single_item E config) rest
         (total_cost,
          print (LSkipHasFrames name
                   (length (glob_frames (w_fs w) (singles_dir config ++ [name])))) w))
  ∧ (∀ entry rest,
     has (chains_dir config ++ [name]) (length (steps entry) * 16) →
     sequence_loop E "Chain" (chains_dir config) config ((name, entry) :: rest)
       total_cost w
     = sequence_loop E "Chain" (chains_dir config) config rest total_cost
         (print (LSkipComplete name) w))
  ∧ (∀ entry rest,
     has (journeys_dir config ++ [name]) (length (steps entry) * 16) →
     sequence_loop E "Journey" (journeys_dir config) config
       ((name, entry) :: rest) total_cost w
     = sequence_loop E "Journey" (journeys_dir config) config rest total_cost
         (print (LSkipComplete name) w))
  ∧ (∀ entry rest,
     has (cycles_dir config ++ [name]) 32 →
     cycle_loop E config ((name, entry) :: rest) total_cost w
     = cycle_loop E config rest total_cost (print (LSkipComplete name) w)).
Proof.
  intros has. repeat split; intros entry rest Hhas;
    apply _has_frames_true in Hhas; simpl.
  - by rewrite Hhas.
  - by rewrite Hhas.
  - by rewrite Hhas.
  - by rewrite Hhas.
Qed.

(** ** Resolving the reference of a step *)


(** ** What assembling touches *)

Lemma listing_write_other (p : fpath) (b : bytes) (fs : FS) (d d0 : path) :
  d ≠ fp_dir p →
  listing (write_file p b (mkdir_parents d0 fs)) d = listing fs d.
Proof.
  intros Hd. rewrite listing_write_file, decide_False by done.
  apply listing_mkdir_parents.
Qed.

Lemma dir_exists_write_mkdir (p : fpath) (b : bytes) (fs : FS) (d d0 : path) :
  dir_exists fs d = true →
  dir_exists (write_file p b (mkdir_parents d0 fs)) d = true.
Proof.
  intros Hd. apply dir_exists_write_file. left.
  apply dir_exists_mkdir_parents. by left.
Qed.

Lemma frames_to_gif_listing (E : externals) (frame_dir : path)
    (output_path : fpath) (upscale_size duration_ms : Z) (fs : FS) (d : path) :
  d ≠ fp_dir output_path →
  listing (frames_to_gif E frame_dir output_path upscale_size duration_ms fs).2 d
  = listing fs d.
Proof.
  intros Hd. unfold frames_to_gif.
  destruct (sorted_frames fs frame_dir); [done|]. simpl.
  by apply listing_write_other.
Qed.

Lemma frames_to_gif_dir_exists (E : externals) (frame_dir : path)
    (output_path : fpath) (upscale_size duration_ms : Z) (fs : FS) (d : path) :
  dir_exists fs d = true →
  dir_exists (frames_to_gif E frame_dir output_path upscale_size duration_ms fs).2 d
  = true.
Proof.
  intros Hd. unfold frames_to_gif.
  destruct (sorted_frames fs frame_dir); [done|]. simpl.
  by apply dir_exists_write_mkdir.
Qed.

Lemma create_static_fallback_listing (E : externals) (frame_dir : path)
    (output_path : fpath) (upscale_size frame_index : Z) (fs : FS) (d : path) :
  d ≠ fp_dir output_path →
  listing (create_static_fallback E frame_dir output_path upscale_size
             frame_index fs).2 d
  = listing fs d.
Proof.
  intros Hd. unfold create_static_fallback.
  destruct (if file_exists fs _ then _ else _); [|done]. simpl.
  by apply listing_write_other.
Qed.

Lemma create_static_fallback_dir_exists (E : externals) (frame_dir : path)
    (output_path : fpath) (upscale_size frame_index : Z) (fs : FS) (d : path) :
  dir_exists fs d = true →
  dir_exists (create_static_fallback E frame_dir output_path upscale_size
                frame_index fs).2 d
  = true.
Proof.
  intros Hd. unfold create_static_fallback.
  destruct (if file_exists fs _ then _ else _); [|done]. simpl.
  by apply dir_exists_write_mkdir.
Qed.

Lemma w_fs_print (l : log_line) (w : world) : w_fs (print l w) = w_fs w.
Proof. done. Qed.

Lemma w_calls_print (l : log_line) (w : world) : w_calls (print l w) = w_calls w.
Proof. done. Qed.

Lemma w_calls_set_fs (f : FS) (w : world) : w_calls (set_fs f w) = w_calls w.
Proof. done. Qed.

Lemma w_fs_set_fs (f : FS) (w : world) : w_fs (set_fs f w) = f.
Proof. done. Qed.

Section Assemble.
Context (E : externals) (config : PipelineConfig) (frame_dir : path)
  (name : string) (w : world).

Lemma _assemble_animation_calls :
  w_calls (_assemble_animation E config frame_dir name w) = w_calls w.
Proof.
  unfold _assemble_animation. cbv zeta. cbn [w_calls set_fs w_fs].
  by destruct (file_exists _ _).
Qed.

(** The files assembling writes: the looping image, then the static one. *)
Lemma _assemble_animation_w_fs :
  w_fs (_assemble_animation E config frame_dir name w)
  = (create_static_fallback E frame_dir (static_dir config // (name +:+ ".png"))
       (upscale_size config) 15
       (frames_to_gif E frame_dir (dir_parent frame_dir // (name +:+ ".gif"))
          (upscale_size config) (frame_duration_ms config) (w_fs w)).2).2.
Proof.
  unfold _assemble_animation. cbv zeta. cbn [w_calls set_fs w_fs].
  by destruct (file_exists _ _).
Qed.


Lemma _assemble_animation_listing (d : path) :
  d ≠ dir_parent frame_dir → d ≠ static_dir config →
  listing (w_fs (_assemble_animation E config frame_dir name w)) d
  = listing (w_fs w) d.
Proof.
  intros Hgif Hstatic. rewrite _assemble_animation_w_fs.
  rewrite create_static_fallback_listing by done.
  by rewrite frames_to_gif_listing.
Qed.

Lemma _assemble_animation_dir_exists (d : path) :
  dir_exists (w_fs w) d = true →
  dir_exists (w_fs (_assemble_animation E config frame_dir name w)) d = true.
Proof.
  intros Hd. rewrite _assemble_animation_w_fs.
  by apply create_static_fallback_dir_exists, frames_to_gif_dir_exists.
Qed.
End Assemble.

(** ** Directories of the output tree are distinct *)

Lemma dir_parent_snoc (base : path) (name : string) :
  dir_parent (base ++ [name]) = base.
Proof. apply removelast_last. Qed.

Lemma snoc_ne_self (base : path) (name : string) : base ++ [name] ≠ base.
Proof.
  intros H. apply (f_equal length) in H. rewrite length_app in H. simpl in H. lia.
Qed.

Lemma kind_dir_ne (out : path) (kind kind' name : string) :
  out ++ [kind] ++ [name] ≠ out ++ [kind'].
Proof.
  intros H. apply (f_equal length) in H. rewrite !length_app in H. simpl in H. lia.
Qed.

Lemma item_dir_ne_static (config : PipelineConfig) (kind name : string) :
  (output_dir config ++ [kind]) ++ [name] ≠ static_dir config.
Proof. rewrite <- app_assoc. apply kind_dir_ne. Qed.

Lemma item_dir_ne (out : path) (kind kind' name name' : string) :
  kind ≠ kind' → (out ++ [kind]) ++ [name] ≠ (out ++ [kind']) ++ [name'].
Proof.
  intros Hk H. rewrite <- !app_assoc in H. apply app_inv_head in H.
  by injection H.
Qed.

(** ** The filesystem, extensionally *)

Lemma bool_eq_iff (a b : bool) : (a = true ↔ b = true) → a = b.
Proof.
  destruct a, b; intros [H1 H2]; try done; [symmetry; by apply H1|by apply H2].
Qed.

Lemma FS_eq (fs1 fs2 : FS) :
  (∀ d, dir_exists fs1 d = dir_exists fs2 d) →
  (∀ d, listing fs1 d = listing fs2 d) →
  fs1 = fs2.
Proof.
  intros Hd Hl. apply map_eq. intros d.
  destruct (fs1 !! d) as [l1|] eqn:H1, (fs2 !! d) as [l2|] eqn:H2; [| | |done].
  - f_equal. specialize (Hl d). unfold listing in Hl. by rewrite H1, H2 in Hl.
  - assert (dir_exists fs1 d = true) as H
      by (apply dir_exists_true; rewrite H1; eauto).
    rewrite Hd in H. apply dir_exists_true in H. rewrite H2 in H. by destruct H.
  - assert (dir_exists fs2 d = true) as H
      by (apply dir_exists_true; rewrite H2; eauto).
    rewrite <- Hd in H. apply dir_exists_true in H. rewrite H1 in H. by destruct H.
Qed.

Lemma save_loop_dir_exists_iff (E : externals) (d : path) (number : nat → Z)
    (frames : list frame) (k : nat) (ps : list fpath) (fs : FS) (d' : path) :
  dir_exists fs d = true →
  dir_exists
    (fold_left
       (λ (st : list fpath * FS) (e : nat * frame),
          let path := d // ("frame_" +:+ format_02d (number e.1) +:+ ".png") in
          (st.1 ++ [path], write_file path (b64decode E (base64 e.2)) st.2))
       (enumerate_from k frames) (ps, fs)).2 d' = true
  ↔ dir_exists fs d' = true.
Proof.
  revert k ps fs.
  induction frames as [|fr frames IH]; intros k ps fs Hd; simpl; [done|].
  rewrite IH.
  - rewrite dir_exists_write_file. simpl. split; [|auto]. by intros [?| ->].
  - apply dir_exists_write_file. by left.
Qed.

Lemma save_frames_offset_dir_exists_iff (E : externals) (frames : list frame)
    (d : path) (offset : Z) (fs : FS) (d' : path) :
  dir_exists (save_frames_offset E frames d offset fs).2 d' = true
  ↔ dir_exists fs d' = true ∨ d' ∈ prefixes d.
Proof.
  unfold save_frames_offset, enumerate.
  rewrite (save_loop_dir_exists_iff E d (λ i, Z.of_nat i + offset)%Z).
  - apply dir_exists_mkdir_parents.
  - apply dir_exists_mkdir_parents_self.
Qed.

(** The file of name [n] in the directory after persisting: the payload of
    the frame numbered to that name, or what was there before. *)
Lemma save_frames_offset_lookup (E : externals) (frames : list frame)
    (d : path) (offset : Z) (fs : FS) (n : string) :
  (∃ i fr, frames !! i = Some fr ∧ n = frame_name (Z.of_nat i + offset)
           ∧ listing (save_frames_offset E frames d offset fs).2 d !! n
             = Some (b64decode E (base64 fr)))
  ∨ ((∀ i, i < length frames → n ≠ frame_name (Z.of_nat i + offset))
     ∧ listing (save_frames_offset E frames d offset fs).2 d !! n
       = listing fs d !! n).
Proof.
  destruct (decide (Exists (λ i, n = frame_name (Z.of_nat i + offset))
                      (seq 0 (length frames)))) as [Hex|Hno];
    rewrite Exists_exists in *.
  - destruct Hex as (i & Hi & ->). apply elem_of_seq in Hi.
    destruct (lookup_lt_is_Some_2 frames i) as [fr Hfr]; [lia|].
    left. exists i, fr. split; [done|]. split; [done|].
    by apply (save_frames_offset_read E frames d offset fs i fr).
  - right. assert (∀ i, i < length frames → n ≠ frame_name (Z.of_nat i + offset)) as Hn.
    { intros i Hi ->. apply Hno. exists i. split; [|done]. apply elem_of_seq. lia. }
    split; [done|]. by apply save_frames_offset_keeps.
Qed.

(** ** The assembler on unchecked input *)

Lemma write_file_twice (p : fpath) (b b0 : bytes) (fs : FS) :
  write_file p b (write_file p b0 fs) = write_file p b fs.
Proof.
  unfold write_file at 1. rewrite listing_write_file, decide_True by done.
  unfold write_file. by rewrite !insert_insert_eq.
Qed.

Lemma set_fs_same (w : world) : set_fs (w_fs w) w = w.
Proof. by destruct w. Qed.

Lemma frames_ok_app (E : externals) (frames frames' : list frame) :
  frames_ok E (frames ++ frames') = frames_ok E frames && frames_ok E frames'.
Proof. apply forallb_app. Qed.

Lemma frames_ok_elem (E : externals) (frames : list frame) (fr : frame) :
  frames_ok E frames = true → fr ∈ frames → b64decode_ok E (base64 fr) = true.
Proof.
  unfold frames_ok. rewrite forallb_forall. intros H Hin.
  by apply H, list_elem_of_In.
Qed.

(** The first payload that does not decode, when there is one. *)
Lemma frames_ok_false (E : externals) (frames : list frame) :
  frames_ok E frames = false →
  ∃ k fr, frames !! k = Some fr ∧ b64decode_ok E (base64 fr) = false
          ∧ frames_ok E (take k frames) = true.
Proof.
  induction frames as [|fr frames IH]; [done|]. cbn [frames_ok forallb].
  destruct (b64decode_ok E (base64 fr)) eqn:Hfr; cbn [andb].
  - intros (k & fr' & Hk & Hbad & Htake)%IH. exists (S k), fr'.
    split_and!; [done|done|]. cbn [take frames_ok forallb]. by rewrite Hfr.
  - intros _. by exists 0, fr.
Qed.

Section SaveLoopOrRaise.
Context (E : externals) (d : path) (number : nat → Z).

Local Abbreviation body :=
  (λ (st : list fpath * FS) (e : nat * frame),
     let path := d // ("frame_" +:+ format_02d (number e.1) +:+ ".png") in
     (st.1 ++ [path], write_file path (b64decode E (base64 e.2)) st.2)).

Local Abbreviation loop k frames ps fs :=
  (fold_left body (enumerate_from k frames) (ps, fs)).

Lemma save_loop_or_raise_ok (frames : list frame) (k : nat) (ps : list fpath)
    (fs : FS) :
  frames_ok E frames = true →
  save_loop_or_raise E d number (enumerate_from k frames) ps fs
  = (Returned (loop k frames ps fs).1, (loop k frames ps fs).2).
Proof.
  revert k ps fs. induction frames as [|fr frames IH]; intros k ps fs;
    cbn [frames_ok forallb enumerate_from save_loop_or_raise fold_left fst snd];
    [done|].
  intros [Hfr Hok]%andb_true_iff. rewrite Hfr, write_file_twice.
  by rewrite IH.
Qed.

Lemma save_loop_or_raise_bad (frames : list frame) (j : nat) (fr : frame)
    (k : nat) (ps : list fpath) (fs : FS) :
  frames !! j = Some fr → b64decode_ok E (base64 fr) = false →
  frames_ok E (take j frames) = true →
  save_loop_or_raise E d number (enumerate_from k frames) ps fs
  = (Raised BinasciiError,
     write_file (d // frame_name (number (k + j))) []
       (loop k (take j frames) ps fs).2).
Proof.
  revert j k ps fs. induction frames as [|fr0 frames IH]; intros j k ps fs;
    [done|].
  destruct j as [|j];
    cbn [lookup list_lookup take frames_ok forallb enumerate_from
         save_loop_or_raise fold_left fst snd].
  - intros [= ->] Hbad _. rewrite Hbad, Nat.add_0_r. done.
  - intros Hj Hbad [Hfr Hok]%andb_true_iff. rewrite Hfr, write_file_twice.
    rewrite (IH j (S k)) by done.
    by replace (S k + j) with (k + S j) by lia.
Qed.
End SaveLoopOrRaise.

Lemma save_frames_or_raise_is_offset_0 (E : externals) (frames : list frame)
    (d : path) (fs : FS) :
  save_frames_or_raise E frames d fs = save_frames_offset_or_raise E frames d 0 fs.
Proof.
  unfold save_frames_or_raise, save_frames_offset_or_raise.
  generalize (@nil fpath), (mkdir_parents d fs). unfold enumerate. generalize 0.
  induction frames as [|fr frames IH]; intros k ps st;
    cbn [enumerate_from save_loop_or_raise fst snd]; [done|].
  rewrite Z.add_0_r. destruct (b64decode_ok E (base64 fr)); [apply IH|done].
Qed.

Section SaveOffsetOrRaise.
Context (E : externals) (frames : list frame) (d : path) (offset : Z) (fs : FS).

Lemma save_frames_offset_or_raise_ok :
  frames_ok E frames = true →
  save_frames_offset_or_raise E frames d offset fs
  = (Returned (save_frames_offset E frames d offset fs).1,
     (save_frames_offset E frames d offset fs).2).
Proof.
  intros Hok. unfold save_frames_offset_or_raise, enumerate.
  by rewrite save_loop_or_raise_ok.
Qed.

(** Either every payload decodes and the frames are saved, or the frames
    before the first payload that does not are saved and its file is left
    empty. *)
Lemma save_frames_offset_or_raise_cases :
  (frames_ok E frames = true
   ∧ save_frames_offset_or_raise E frames d offset fs
     = (Returned (save_frames_offset E frames d offset fs).1,
        (save_frames_offset E frames d offset fs).2))
  ∨ (∃ k fr,
       frames !! k = Some fr ∧ b64decode_ok E (base64 fr) = false
       ∧ frames_ok E (take k frames) = true
       ∧ save_frames_offset_or_raise E frames d offset fs
         = (Raised BinasciiError,
            write_file (d // frame_name (Z.of_nat k + offset)) []
              (save_frames_offset E (take k frames) d offset fs).2)).
Proof.
  destruct (frames_ok E frames) eqn:Hok.
  - left. split; [done|]. by apply save_frames_offset_or_raise_ok.
  - right. apply frames_ok_false in Hok as (k & fr & Hk & Hbad & Htake).
    exists k, fr. split_and!; try done.
    unfold save_frames_offset_or_raise, enumerate.
    by rewrite (save_loop_or_raise_bad E d _ frames k fr 0).
Qed.

Lemma save_frames_offset_or_raise_returned (paths : list fpath) (fs' : FS) :
  save_frames_offset_or_raise E frames d offset fs = (Returned paths, fs') →
  frames_ok E frames = true
  ∧ paths = (save_frames_offset E frames d offset fs).1
  ∧ fs' = (save_frames_offset E frames d offset fs).2.
Proof.
  destruct save_frames_offset_or_raise_cases
    as [[Hok ->]|(k & fr & _ & _ & _ & ->)]; [|done].
  by intros [= <- <-].
Qed.

Lemma save_frames_offset_or_raise_raised (e : exn) (fs' : FS) :
  save_frames_offset_or_raise E frames d offset fs = (Raised e, fs') →
  e = BinasciiError ∧ frames_ok E frames = false.
Proof.
  destruct save_frames_offset_or_raise_cases
    as [[Hok ->]|(k & fr & Hk & Hbad & _ & ->)]; [done|].
  intros [= <- <-]. split; [done|].
  apply not_true_is_false. intros Hok.
  rewrite (frames_ok_elem E frames fr Hok) in Hbad; [done|].
  by eapply list_elem_of_lookup_2.
Qed.

Lemma save_frames_offset_or_raise_other_dir (d' : path) :
  d' ≠ d →
  listing (save_frames_offset_or_raise E frames d offset fs).2 d' = listing fs d'.
Proof.
  intros Hd. destruct save_frames_offset_or_raise_cases
    as [[Hok ->]|(k & fr & _ & _ & _ & ->)]; cbn [snd].
  - by apply save_frames_offset_other_dir.
  - rewrite listing_write_file, decide_False by (cbn; congruence).
    by apply save_frames_offset_other_dir.
Qed.

Lemma save_frames_offset_or_raise_keeps (n : string) :
  (∀ i, i < length frames → n ≠ frame_name (Z.of_nat i + offset)) →
  listing (save_frames_offset_or_raise E frames d offset fs).2 d !! n
  = listing fs d !! n.
Proof.
  intros Hn. destruct save_frames_offset_or_raise_cases
    as [[Hok ->]|(k & fr & Hk & _ & _ & ->)]; cbn [snd].
  - by apply save_frames_offset_keeps.
  - apply lookup_lt_Some in Hk.
    rewrite listing_write_file, decide_True by done. cbn [fp_name].
    rewrite lookup_insert_ne by (intros Heq; by apply (Hn k)).
    apply save_frames_offset_keeps. intros i Hi. apply Hn.
    rewrite length_take in Hi. lia.
Qed.

Lemma save_frames_offset_or_raise_is_Some (d' : path) (n : string) :
  is_Some (listing fs d' !! n) →
  is_Some (listing (save_frames_offset_or_raise E frames d offset fs).2 d' !! n).
Proof.
  intros Hn.
  assert (∀ fr0, is_Some (listing (save_frames_offset E fr0 d offset fs).2 d' !! n))
    as Hsaved.
  { intros fr0. destruct (decide (d' = d)) as [->|Hd].
    - apply save_frames_offset_is_Some. by left.
    - by rewrite save_frames_offset_other_dir. }
  destruct save_frames_offset_or_raise_cases
    as [[Hok ->]|(k & fr & _ & _ & _ & ->)]; cbn [snd]; [done|].
  rewrite listing_write_file. case_decide; [|done]. cbn [fp_name].
  destruct (decide (frame_name (Z.of_nat k + offset) = n)) as [->|Hne].
  - rewrite lookup_insert_eq. eauto.
  - by rewrite lookup_insert_ne.
Qed.

Lemma save_frames_offset_or_raise_dir_exists_iff (d' : path) :
  dir_exists (save_frames_offset_or_raise E frames d offset fs).2 d' = true
  ↔ dir_exists fs d' = true ∨ d' ∈ prefixes d.
Proof.
  destruct save_frames_offset_or_raise_cases
    as [[Hok ->]|(k & fr & _ & _ & _ & ->)]; cbn [snd].
  - unfold save_frames_offset, enumerate.
    rewrite (save_loop_dir_exists_iff E d (λ i, Z.of_nat i + offset)%Z).
    + apply dir_exists_mkdir_parents.
    + apply dir_exists_mkdir_parents_self.
  - rewrite dir_exists_write_file. cbn [fp_dir].
    unfold save_frames_offset, enumerate.
    rewrite (save_loop_dir_exists_iff E d (λ i, Z.of_nat i + offset)%Z)
      by apply dir_exists_mkdir_parents_self.
    rewrite dir_exists_mkdir_parents. split; [|tauto].
    intros [?| ->]; [done|]. right. apply prefixes_self.
Qed.

(** The file of the first frame exists afterwards in either case. *)
Lemma save_frames_offset_or_raise_first :
  frames ≠ [] →
  is_Some (listing (save_frames_offset_or_raise E frames d offset fs).2 d
             !! frame_name (Z.of_nat 0 + offset)).
Proof.
  intros Hne. destruct frames as [|fr0 rest] eqn:Hfr; [done|]. rewrite <- Hfr.
  assert (frames !! 0 = Some fr0) as H0 by (by rewrite Hfr).
  destruct save_frames_offset_or_raise_cases
    as [[Hok ->]|(k & fr & Hk & _ & _ & ->)]; cbn [snd].
  - pose proof (save_frames_offset_read E frames d offset fs 0 fr0 H0) as Hr.
    unfold read_file in Hr. cbn [fp_dir fp_name] in Hr. rewrite Hr. eauto.
  - rewrite listing_write_file, decide_True by done. cbn [fp_name].
    destruct k as [|k]; [rewrite lookup_insert_eq; eauto|].
    rewrite lookup_insert_ne by (intros Heq%frame_name_inj; lia).
    assert (take (S k) frames !! 0 = Some fr0) as H0'
      by (by rewrite Hfr).
    pose proof (save_frames_offset_read E (take (S k) frames) d offset fs 0 fr0 H0')
      as Hr.
    unfold read_file in Hr. cbn [fp_dir fp_name] in Hr. rewrite Hr. eauto.
Qed.
End SaveOffsetOrRaise.

Lemma save_frames_or_raise_returned (E : externals) (frames : list frame)
    (d : path) (fs : FS) (paths : list fpath) (fs' : FS) :
  save_frames_or_raise E frames d fs = (Returned paths, fs') →
  frames_ok E frames = true
  ∧ paths = (save_frames E frames d fs).1
  ∧ fs' = (save_frames E frames d fs).2.
Proof.
  rewrite save_frames_or_raise_is_offset_0, save_frames_is_offset_0.
  apply save_frames_offset_or_raise_returned.
Qed.

Lemma save_frames_or_raise_ok (E : externals) (frames : list frame)
    (d : path) (fs : FS) :
  frames_ok E frames = true →
  save_frames_or_raise E frames d fs
  = (Returned (save_frames E frames d fs).1, (save_frames E frames d fs).2).
Proof.
  rewrite save_frames_or_raise_is_offset_0, save_frames_is_offset_0.
  apply save_frames_offset_or_raise_ok.
Qed.

Lemma save_frames_or_raise_raised (E : externals) (frames : list frame)
    (d : path) (fs : FS) (e : exn) (fs' : FS) :
  save_frames_or_raise E frames d fs = (Raised e, fs') →
  e = BinasciiError ∧ frames_ok E frames = false.
Proof.
  rewrite save_frames_or_raise_is_offset_0.
  apply save_frames_offset_or_raise_raised.
Qed.

Lemma save_frames_or_raise_other_dir (E : externals) (frames : list frame)
    (d d' : path) (fs : FS) :
  d' ≠ d → listing (save_frames_or_raise E frames d fs).2 d' = listing fs d'.
Proof.
  rewrite save_frames_or_raise_is_offset_0.
  apply save_frames_offset_or_raise_other_dir.
Qed.

Lemma save_frames_or_raise_is_Some (E : externals) (frames : list frame)
    (d d' : path) (fs : FS) (n : string) :
  is_Some (listing fs d' !! n) →
  is_Some (listing (save_frames_or_raise E frames d fs).2 d' !! n).
Proof.
  rewrite save_frames_or_raise_is_offset_0.
  apply save_frames_offset_or_raise_is_Some.
Qed.

Lemma save_frames_or_raise_dir_exists_iff (E : externals) (frames : list frame)
    (d d' : path) (fs : FS) :
  dir_exists (save_frames_or_raise E frames d fs).2 d' = true
  ↔ dir_exists fs d' = true ∨ d' ∈ prefixes d.
Proof.
  rewrite save_frames_or_raise_is_offset_0.
  apply save_frames_offset_or_raise_dir_exists_iff.
Qed.

(** *** Opening the frame files *)

Lemma files_ok_elem (E : externals) (fs : FS) (d : path) (f : fpath) :
  files_ok E fs d = true → f ∈ sorted_frames fs d →
  image_open_ok E (file_bytes fs f) = true.
Proof.
  unfold files_ok. rewrite forallb_forall. intros H Hin.
  by apply H, list_elem_of_In.
Qed.

Lemma open_all_ok (E : externals) (fs : FS) (files : list fpath) :
  forallb (λ f, image_open_ok E (file_bytes fs f)) files = true →
  open_all E fs files = Returned ((λ f, image_open E (file_bytes fs f)) <$> files).
Proof.
  induction files as [|f files IH]; cbn [forallb open_all]; [done|].
  intros [Hf Hok]%andb_true_iff. by rewrite Hf, IH.
Qed.

Lemma open_all_raised (E : externals) (fs : FS) (files : list fpath) :
  forallb (λ f, image_open_ok E (file_bytes fs f)) files = false →
  ∃ f, f ∈ files ∧ image_open_ok E (file_bytes fs f) = false
       ∧ open_all E fs files = Raised (UnidentifiedImageError f).
Proof.
  induction files as [|f files IH]; cbn [forallb open_all]; [done|].
  destruct (image_open_ok E (file_bytes fs f)) eqn:Hf; cbn [andb].
  - intros (f' & Hin & Hbad & ->)%IH. exists f'. split_and!; try done.
    by apply list_elem_of_further.
  - intros _. exists f. split_and!; try done. apply list_elem_of_here.
Qed.

Lemma frames_to_gif_or_raise_ok (E : externals) (frame_dir : path)
    (output_path : fpath) (upscale_size duration_ms : Z) (fs : FS) :
  files_ok E fs frame_dir = true →
  frames_to_gif_or_raise E frame_dir output_path upscale_size duration_ms fs
  = (Returned (frames_to_gif E frame_dir output_path upscale_size duration_ms fs).1,
     (frames_to_gif E frame_dir output_path upscale_size duration_ms fs).2).
Proof.
  unfold files_ok, frames_to_gif_or_raise, frames_to_gif. intros Hok.
  destruct (sorted_frames fs frame_dir) as [|f files]; [done|].
  by rewrite open_all_ok.
Qed.

Lemma frames_to_gif_or_raise_raised (E : externals) (frame_dir : path)
    (output_path : fpath) (upscale_size duration_ms : Z) (fs : FS) :
  files_ok E fs frame_dir = false →
  ∃ f, f ∈ sorted_frames fs frame_dir ∧ image_open_ok E (file_bytes fs f) = false
       ∧ frames_to_gif_or_raise E frame_dir output_path upscale_size duration_ms fs
         = (Raised (UnidentifiedImageError f), fs).
Proof.
  unfold files_ok, frames_to_gif_or_raise. intros Hbad.
  destruct (open_all_raised E fs _ Hbad) as (f & Hin & Hf & Hopen).
  exists f. split_and!; try done.
  destruct (sorted_frames fs frame_dir) as [|f0 files]; [by apply elem_of_nil in Hin|].
  by rewrite Hopen.
Qed.

Lemma create_static_fallback_or_raise_ok (E : externals) (frame_dir : path)
    (output_path : fpath) (upscale_size frame_index : Z) (fs : FS) :
  files_ok E fs frame_dir = true →
  create_static_fallback_or_raise E frame_dir output_path upscale_size
    frame_index fs
  = (Returned (create_static_fallback E frame_dir output_path upscale_size
                 frame_index fs).1,
     (create_static_fallback E frame_dir output_path upscale_size
        frame_index fs).2).
Proof.
  intros Hok. unfold create_static_fallback_or_raise, create_static_fallback.
  cbv zeta. fold (frame_name frame_index).
  destruct (file_exists fs (frame_dir // frame_name frame_index)) eqn:Hex.
  - rewrite (files_ok_elem E fs frame_dir); [done|done|].
    apply elem_of_sorted_frames. split_and!; [done|apply fnmatch_frame_name|].
    by apply file_exists_true.
  - destruct (last (sorted_frames fs frame_dir)) as [f|] eqn:Hlast; [|done].
    rewrite (files_ok_elem E fs frame_dir); [done|done|].
    by eapply last_Some_elem_of.
Qed.

Lemma forallb_ext_elem {A} (f g : A → bool) (l : list A) :
  (∀ x, x ∈ l → f x = g x) → forallb f l = forallb g l.
Proof.
  induction l as [|x l IH]; intros H; cbn [forallb]; [done|].
  rewrite (H x) by apply list_elem_of_here.
  rewrite IH; [done|]. intros y Hy. by apply H, list_elem_of_further.
Qed.

Lemma files_ok_listing (E : externals) (fs fs' : FS) (d : path) :
  listing fs d = listing fs' d → files_ok E fs d = files_ok E fs' d.
Proof.
  intros Hl. unfold files_ok. rewrite (sorted_frames_listing fs fs' d Hl).
  apply forallb_ext_elem. intros f Hf.
  apply elem_of_sorted_frames in Hf as (Hd & _ & _).
  unfold file_bytes, read_file. by rewrite Hd, Hl.
Qed.

Section AssembleOrRaise.
Context (E : externals) (config : PipelineConfig) (base : path)
  (leaf name : string) (w : world).

Local Abbreviation frame_dir := (base ++ [leaf]).

(** With every frame file of the directory opening, assembling is
    [_assemble_animation]. *)
Lemma _assemble_animation_or_raise_ok :
  files_ok E (w_fs w) frame_dir = true →
  _assemble_animation_or_raise E config frame_dir name w
  = (Returned tt, _assemble_animation E config frame_dir name w).
Proof.
  intros Hok. unfold _assemble_animation_or_raise, _assemble_animation. cbv zeta.
  rewrite frames_to_gif_or_raise_ok by done.
  set (fs1 := (frames_to_gif E frame_dir _ _ _ (w_fs w)).2).
  assert (files_ok E fs1 frame_dir = true) as Hok1.
  { rewrite <- Hok. apply files_ok_listing. apply frames_to_gif_listing.
    cbn [fp_dir]. rewrite dir_parent_snoc. apply snoc_ne_self. }
  destruct (file_exists (w_fs (set_fs fs1 w)) _);
    cbn [w_fs set_fs print]; by rewrite create_static_fallback_or_raise_ok.
Qed.

(** Otherwise it stops at the first frame file that does not open, and
    nothing was written. *)
Lemma _assemble_animation_or_raise_raised :
  files_ok E (w_fs w) frame_dir = false →
  ∃ f, f ∈ sorted_frames (w_fs w) frame_dir
       ∧ image_open_ok E (file_bytes (w_fs w) f) = false
       ∧ _assemble_animation_or_raise E config frame_dir name w
         = (Raised (UnidentifiedImageError f), w).
Proof.
  intros Hbad. unfold _assemble_animation_or_raise. cbv zeta.
  destruct (frames_to_gif_or_raise_raised E frame_dir
              (dir_parent frame_dir // (name +:+ ".gif")) (upscale_size config)
              (frame_duration_ms config) (w_fs w) Hbad) as (f & Hin & Hf & ->).
  exists f. by rewrite set_fs_same.
Qed.

Lemma _assemble_animation_or_raise_cases :
  (files_ok E (w_fs w) frame_dir = true
   ∧ _assemble_animation_or_raise E config frame_dir name w
     = (Returned tt, _assemble_animation E config frame_dir name w))
  ∨ (files_ok E (w_fs w) frame_dir = false
     ∧ ∃ f, f ∈ sorted_frames (w_fs w) frame_dir
            ∧ image_open_ok E (file_bytes (w_fs w) f) = false
            ∧ _assemble_animation_or_raise E config frame_dir name w
              = (Raised (UnidentifiedImageError f), w)).
Proof.
  destruct (files_ok E (w_fs w) frame_dir) eqn:Hok.
  - left. split; [done|]. by apply _assemble_animation_or_raise_ok.
  - right. split; [done|]. by apply _assemble_animation_or_raise_raised.
Qed.

Lemma _assemble_animation_or_raise_calls :
  w_calls (_assemble_animation_or_raise E config frame_dir name w).2 = w_calls w.
Proof.
  destruct _assemble_animation_or_raise_cases as [[_ ->]|(_ & f & _ & _ & ->)];
    [|done].
  apply _assemble_animation_calls.
Qed.

(** Assembling leaves every directory of frames as it is. *)
Lemma _assemble_animation_or_raise_listing (d : path) :
  d ≠ base → d ≠ static_dir config →
  listing (w_fs (_assemble_animation_or_raise E config frame_dir name w).2) d
  = listing (w_fs w) d.
Proof.
  intros Hb Hs.
  destruct _assemble_animation_or_raise_cases as [[_ ->]|(_ & f & _ & _ & ->)];
    [|done].
  cbn [snd]. apply _assemble_animation_listing; [|done].
  by rewrite dir_parent_snoc.
Qed.

Lemma _assemble_animation_or_raise_dir_exists (d : path) :
  dir_exists (w_fs w) d = true →
  dir_exists (w_fs (_assemble_animation_or_raise E config frame_dir name w).2) d
  = true.
Proof.
  intros Hd.
  destruct _assemble_animation_or_raise_cases as [[_ ->]|(_ & f & _ & _ & ->)];
    [|done].
  by apply _assemble_animation_dir_exists.
Qed.
End AssembleOrRaise.

Section ResolveOrRaise.
Context (E : externals) (config : PipelineConfig) (step : step)
  (previous_frames : list frame) (w : world).

Lemma _resolve_step_reference_or_raise_ok :
  (∀ fr, last previous_frames = Some fr → b64decode_ok E (base64 fr) = true) →
  _resolve_step_reference_or_raise E config step previous_frames w
  = (Returned (_resolve_step_reference E config step previous_frames w).1,
     (_resolve_step_reference E config step previous_frames w).2).
Proof.
  intros Hok. unfold _resolve_step_reference_or_raise, _resolve_step_reference.
  destruct (_ || _); [done|]. destruct (file_exists _ _); [done|].
  destruct (last previous_frames) as [fr|]; [|done].
  rewrite Hok by done. cbn [fst snd w_fs set_fs].
  by rewrite write_file_twice.
Qed.

Lemma _resolve_step_reference_or_raise_raised (e : exn) (w' : world) :
  _resolve_step_reference_or_raise E config step previous_frames w = (Raised e, w') →
  e = BinasciiError
  ∧ w' = set_fs (write_file (mktemp E (w_fs w)) [] (w_fs w)) w
  ∧ ∃ fr, last previous_frames = Some fr ∧ b64decode_ok E (base64 fr) = false.
Proof.
  unfold _resolve_step_reference_or_raise.
  destruct (_ || _); [done|]. destruct (file_exists _ _); [done|].
  destruct (last previous_frames) as [fr|]; [|done].
  destruct (b64decode_ok E (base64 fr)) eqn:Hfr; [done|].
  intros [= <- <-]. eauto.
Qed.

Lemma _resolve_step_reference_or_raise_calls :
  w_calls (_resolve_step_reference_or_raise E config step previous_frames w).2
  = w_calls w.
Proof.
  unfold _resolve_step_reference_or_raise.
  destruct (_ || _); [done|]. destruct (file_exists _ _); [done|].
  destruct (last previous_frames) as [fr|]; [|done].
  by destruct (b64decode_ok E (base64 fr)).
Qed.

Lemma _resolve_step_reference_or_raise_nil :
  previous_frames = [] →
  _resolve_step_reference_or_raise E config step previous_frames w
  = (Returned (_resolve_step_reference E config step [] w).1, w).
Proof.
  intros ->. unfold _resolve_step_reference_or_raise, _resolve_step_reference.
  destruct (_ || _); [done|]. by destruct (file_exists _ _).
Qed.
End ResolveOrRaise.
(** ** Emotes *)

Lemma read_file_assembled_item (E : externals) (config : PipelineConfig)
    (kind name n : string) (w : world) :
  let frame_dir := (output_dir config ++ [kind]) ++ [name] in
  read_file (w_fs (_assemble_animation E config frame_dir name w)) (frame_dir // n)
  = read_file (w_fs w) (frame_dir // n).
Proof.
  intros frame_dir. unfold read_file. cbn [fp_dir fp_name].
  rewrite _assemble_animation_listing; [done| |apply item_dir_ne_static].
  unfold frame_dir. rewrite dir_parent_snoc. apply snoc_ne_self.
Qed.


(** ** The steps of a chain or journey *)



Lemma frames_ok_bad (E : externals) (frames : list frame) (fr : frame) :
  fr ∈ frames → b64decode_ok E (base64 fr) = false → frames_ok E frames = false.
Proof.
  intros Hin Hbad. apply not_true_is_false. intros Hok.
  by rewrite (frames_ok_elem E frames fr Hok Hin) in Hbad.
Qed.


Section Sequences.
Context (E : externals) (config : PipelineConfig).

Lemma run_steps_spec (steps : list step) (step_idx total : nat)
    (all_frames : list frame) (total_cost : float) (w : world) :
  ∃ new,
    steps_run E steps all_frames total_cost w
      (run_steps E config steps step_idx total all_frames total_cost w) new.
Proof.
  revert step_idx all_frames total_cost w.
  induction steps as [|step rest IH]; intros step_idx all_frames total_cost w;
    cbn [run_steps].
  { exists []. unfold steps_run. cbn [fst snd length].
    rewrite !app_nil_r. split_and!; try done; try lia. }
  pose proof (_resolve_step_reference_or_raise_calls E config step all_frames w)
    as Hrc.
  pose proof (_resolve_step_reference_or_raise_nil E config step all_frames w)
    as Hrf.
  destruct (_resolve_step_reference_or_raise E config step all_frames w)
    as [[ref|e] w1] eqn:Hres; cbn [snd] in Hrc.
  2:{ apply _resolve_step_reference_or_raise_raised in Hres
        as (-> & -> & fr & Hlast & Hbad).
      exists []. unfold steps_run. cbn [fst snd length w_calls set_fs].
      rewrite !app_nil_r. split_and!; try done; try lia.
      apply (frames_ok_bad E all_frames fr); [|done].
      by eapply last_Some_elem_of. }
  assert (all_frames = [] → w1 = w) as Hw1.
  { intros Hnil. specialize (Hrf Hnil). by injection Hrf as _ ->. }
  clear Hrf Hres.
  unfold generate_animation. cbn [w_fs w_calls w_out print].
  destruct (client_result E (w_fs w1) (length (w_calls w1)) ref
              (step_prompt step) (frame_size config) (frame_size config))
    as [[frames cost]|e];
    match goal with
    | |- context [Call ?a ?b ?x ?y ?r] => set (c := Call a b x y r)
    end.
  - match goal with
    | |- ∃ new, steps_run _ _ _ _ _ (run_steps _ _ _ ?i ?t ?a ?tc ?w') new =>
      destruct (IH i a tc w') as (new & Hc & Hlen & Hact & Hfail & Hres);
      destruct (run_steps E config rest i t a tc w') as [[[all' total']|e] w2]
    end; cbn [fst snd w_calls w_fs print] in *.
    + destruct Hres as (Hall & Hcost & Hearly & Hfs).
      exists (c :: new). unfold steps_run. cbn [fst snd].
      rewrite Hc, Hrc, Hall, Hcost. cbn [length fmap list_fmap concat].
      rewrite <- !app_assoc.
      change (call_frames c) with frames.
      split_and!.
      * done.
      * lia.
      * intros [|k] c' Hk; cbn in Hk.
        -- injection Hk as <-. exists step. split; [done|]. done.
        -- by apply Hact in Hk.
      * intros [|k] c' Hk Hf; cbn in Hk.
        -- by injection Hk as <-.
        -- f_equal. by eapply Hfail.
      * done.
      * reflexivity.
      * intros Hlt. destruct Hearly as (c' & Hlast & Hf); [lia|].
        exists c'. split; [|done]. destruct new; [done|]. done.
      * intros Hnil. rewrite Hall in Hfs. rewrite <- app_assoc in Hfs.
        apply app_eq_nil in Hnil as [-> Hnil]. rewrite Hfs by done.
        by rewrite Hw1.
    + destruct Hres as (-> & Hbad).
      exists (c :: new). unfold steps_run. cbn [fst snd].
      rewrite Hc, Hrc. cbn [length fmap list_fmap concat].
      rewrite <- !app_assoc in Hbad |- *.
      change (call_frames c) with frames.
      split_and!.
      * done.
      * lia.
      * intros [|k] c' Hk; cbn in Hk.
        -- injection Hk as <-. exists step. split; [done|]. done.
        -- by apply Hact in Hk.
      * intros [|k] c' Hk Hf; cbn in Hk.
        -- by injection Hk as <-.
        -- f_equal. by eapply Hfail.
      * done.
      * done.
  - exists [c]. unfold steps_run. cbn [fst snd w_calls w_fs print length].
    rewrite Hrc. cbn [fmap list_fmap concat].
    change (call_frames c) with (@nil frame).
    rewrite !app_nil_r. split_and!.
    + done.
    + lia.
    + intros [|k] c' Hk; cbn in Hk; [|done].
      injection Hk as <-. exists step. split; done.
    + intros [|k] c' Hk Hf; cbn in Hk; done.
    + done.
    + reflexivity.
    + intros _. by exists c.
    + intros ->. by rewrite Hw1.
Qed.
End Sequences.

Lemma save_frames_read (E : externals) (frames : list frame) (d : path) (fs : FS)
    (i : nat) (fr : frame) :
  frames !! i = Some fr →
  read_file (save_frames E frames d fs).2 (d // frame_name (Z.of_nat i))
  = Some (b64decode E (base64 fr)).
Proof.
  intros Hi. rewrite save_frames_is_offset_0.
  rewrite <- (Z.add_0_r (Z.of_nat i)). by apply save_frames_offset_read.
Qed.

(** ** Cost accumulation *)







Lemma frames_ok_concat (E : externals) (new : list call) (c : call) :
  c ∈ new → frames_ok E (concat (call_frames <$> new)) = true →
  frames_ok E (call_frames c) = true.
Proof.
  induction new as [|c' new IH]; [by intros ?%elem_of_nil|].
  cbn [fmap list_fmap concat]. rewrite frames_ok_app.
  intros [->|Hin]%elem_of_cons [Hc Hnew]%andb_true_iff; auto.
Qed.

Section Charged.
Context (E : externals) (config : PipelineConfig).









(** *** The exceptions that leave an iteration *)





(** *** The loops go on *)


End Charged.







(** ** Cycles *)

Lemma save_frames_sorted_nil (E : externals) (frames : list frame) (d : path)
    (fs : FS) :
  sorted_frames (save_frames E frames d fs).2 d = [] → frames = [].
Proof.
  intros Hs. apply sorted_frames_nil in Hs.
  pose proof (save_frames_offset_count E frames d 0 fs) as Hc.
  rewrite <- save_frames_is_offset_0, Hs in Hc. simpl in Hc.
  destruct frames; [done|simpl in Hc; lia].
Qed.

Lemma save_frames_other_dir (E : externals) (frames : list frame) (d d' : path)
    (fs : FS) :
  d' ≠ d → listing (save_frames E frames d fs).2 d' = listing fs d'.
Proof.
  intros Hd. rewrite save_frames_is_offset_0. by apply save_frames_offset_other_dir.
Qed.

Lemma save_frames_dir_exists (E : externals) (frames : list frame) (d d' : path)
    (fs : FS) :
  dir_exists fs d' = true ∨ d' = d →
  dir_exists (save_frames E frames d fs).2 d' = true.
Proof.
  intros Hd. rewrite save_frames_is_offset_0. by apply save_frames_offset_dir_exists.
Qed.

Lemma save_frames_count (E : externals) (frames : list frame) (d : path) (fs : FS) :
  length frames ≤ length (glob_frames (save_frames E frames d fs).2 d).
Proof. rewrite save_frames_is_offset_0. apply save_frames_offset_count. Qed.

Lemma _has_frames_listing (fs fs' : FS) (d : path) (n : nat) :
  listing fs d = listing fs' d →
  (dir_exists fs d = true → dir_exists fs' d = true) →
  _has_frames fs d n = true → _has_frames fs' d n = true.
Proof.
  intros Hl Hd. rewrite !_has_frames_true, !length_glob_frames.
  rewrite (glob_names_listing fs fs' d d Hl). intros [? ?]. auto.
Qed.

Section Cycle.
Context (E : externals) (config : PipelineConfig) (total_cost : float)
  (w : world) (name : string) (entry : cycle_entry).

Local Abbreviation cycle_dir := (cycles_dir config ++ [name]).
Local Abbreviation forward_dir := (singles_dir config ++ [shape entry]).
Local Abbreviation size := (frame_size config).

Context (frames : list frame) (cost : float).
Context (Hskip : _has_frames (w_fs w) cycle_dir 32 = false).
Context (Hnone : glob_frames (w_fs w) forward_dir = []).
Context (Hforward :
  client_result E (w_fs w) (length (w_calls w)) (reference config)
    (forward_prompt entry) size size = Returned (frames, cost)).
Context (Hok : frames_ok E frames = true).

Local Abbreviation fs1 := (save_frames E frames forward_dir (w_fs w)).2.

Lemma cycle_forward_generates :
  cycle_forward E config entry total_cost (print (LStart "Cycle" name) w)
  = (Some (sorted_frames fs1 forward_dir), (total_cost + cost)%float,
     after_forward E config w name entry frames cost).
Proof.
  unfold cycle_forward. cbn [w_fs print].
  assert ((if dir_exists (w_fs w) forward_dir
           then sorted_frames (w_fs w) forward_dir else []) = []) as ->.
  { destruct (dir_exists _ _); [|done]. by apply sorted_frames_nil. }
  unfold generate_animation. cbn [w_fs w_calls w_out print].
  rewrite Hforward, save_frames_or_raise_ok by done.
  cbn [set_fs w_fs w_calls w_out].
  unfold after_forward. by rewrite <- app_assoc.
Qed.

Lemma forward_files_nonempty :
  frames ≠ [] → is_Some (last (sorted_frames fs1 forward_dir)).
Proof.
  intros Hne. apply last_is_Some. intros Hs.
  by apply save_frames_sorted_nil in Hs.
Qed.

Lemma forward_dir_ne_cycle_dir : forward_dir ≠ cycle_dir.
Proof. by apply item_dir_ne. Qed.

(** Whatever the second half of the iteration writes, the listing of the
    singles directory stays as the forward half left it. *)
Lemma cycle_item_generates (last_frame : fpath) :
  last (sorted_frames fs1 forward_dir) = Some last_frame →
  let forward_files := sorted_frames fs1 forward_dir in
  let r := cycle_item E config (total_cost, w) (name, entry) in
  listing (w_fs r.2) forward_dir = listing fs1 forward_dir
  ∧ (∀ d, dir_exists fs1 d = true → dir_exists (w_fs r.2) d = true)
  ∧ match client_result E fs1 (S (length (w_calls w))) last_frame
            (reverse_prompt entry) size size with
    | Returned (reverse_frames, cost') =>
      let all :=
        ((λ fp, Frame (b64encode E (file_bytes fs1 fp))) <$> forward_files)
        ++ reverse_frames in
      if frames_ok E all then
        (∀ i fr, all !! i = Some fr →
           read_file (w_fs r.2) (cycle_dir // frame_name (Z.of_nat i))
           = Some (b64decode E (base64 fr)))
        ∧ (files_ok E (w_fs r.2) cycle_dir = true →
           r.1 = Returned (total_cost + cost + cost')%float)
        ∧ (∀ e, r.1 = Raised e → ∃ f, e = UnidentifiedImageError f)
      else r.1 = Raised BinasciiError
    | Raised _ =>
      r.1 = Returned (total_cost + cost)%float ∧ w_fs r.2 = fs1
    end.
Proof.
  intros Hlast forward_files r. subst r. unfold cycle_item.
  rewrite Hskip, cycle_forward_generates, Hlast.
  unfold generate_animation. cbn [w_fs w_calls w_out print after_forward].
  rewrite length_app, Nat.add_1_r.
  destruct (client_result E fs1 (S (length (w_calls w))) last_frame
              (reverse_prompt entry) size size) as [[reverse_frames cost']|e].
  2:{ cbn [fst snd w_fs print]. done. }
  fold forward_files. cbv zeta.
  set (all := _ ++ reverse_frames).
  pose proof (save_frames_or_raise_other_dir E all cycle_dir forward_dir fs1
                forward_dir_ne_cycle_dir) as Hother.
  pose proof (λ d, proj2 (save_frames_or_raise_dir_exists_iff E all cycle_dir d fs1))
    as Hex.
  destruct (frames_ok E all) eqn:Hall.
  - rewrite save_frames_or_raise_ok in Hother, Hex |- * by done.
    pose proof (save_frames_read E all cycle_dir fs1) as Hread.
    destruct (save_frames E all cycle_dir fs1) as [saved fs].
    cbn [fst snd w_fs print set_fs] in *.
    match goal with
    | |- context [_assemble_animation_or_raise E config _ name ?w'] =>
      pose proof (_assemble_animation_or_raise_listing E config
                    (cycles_dir config) name name w' forward_dir) as Hl;
      pose proof (_assemble_animation_or_raise_dir_exists E config
                    (cycles_dir config) name name w') as Hd;
      destruct (_assemble_animation_or_raise_cases E config (cycles_dir config)
                  name name w') as [[Hfiles Heq]|(Hfiles & f & _ & _ & Heq)];
        rewrite Heq in Hl, Hd |- *
    end; cbn [fst snd w_fs w_calls w_out print set_fs] in *.
    + split.
      { rewrite Hl; [done| |apply item_dir_ne_static].
        unfold singles_dir, cycles_dir. rewrite <- app_assoc. apply kind_dir_ne. }
      split; [intros d Hd'; apply Hd; auto|].
      split.
      { intros i fr Hi. unfold cycles_dir. rewrite read_file_assembled_item.
        by apply Hread. }
      split; [done|done].
    + split; [done|]. split; [intros d Hd'; auto|].
      split; [intros i fr Hi; by apply Hread|].
      split; [intros Hgood; by rewrite Hgood in Hfiles|].
      intros e [= <-]. eauto.
  - destruct (save_frames_or_raise E all cycle_dir fs1) as [[paths|e] fs] eqn:Hsave.
    { apply save_frames_or_raise_returned in Hsave as [Hgood _].
      by rewrite Hgood in Hall. }
    apply save_frames_or_raise_raised in Hsave as [-> _].
    cbn [fst snd w_fs set_fs] in *. split; [done|]. split; [|done].
    intros d Hd. apply Hex. by left.
Qed.
End Cycle.

Lemma single_item_skip (E : externals) (config : PipelineConfig) (t : float)
    (w : world) (name : string) (entry : single_entry) :
  _has_frames (w_fs w) (singles_dir config ++ [name]) 16 = true →
  single_item E config (t, w) (name, entry)
  = (t, print (LSkipHasFrames name
                 (length (glob_frames (w_fs w) (singles_dir config ++ [name])))) w).
Proof. intros H. unfold single_item. by rewrite H. Qed.

Lemma frames_ok_encoded (E : externals) (fs : FS) (files : list fpath) :
  (∀ b, b64decode_ok E (b64encode E b) = true) →
  frames_ok E ((λ fp, Frame (b64encode E (file_bytes fs fp))) <$> files) = true.
Proof.
  intros Hcodec. induction files as [|f files IH]; [done|].
  cbn [fmap list_fmap frames_ok forallb base64]. rewrite Hcodec. exact IH.
Qed.

(** C10 (amended). A cycle that is not skipped and finds no frame file in
    the singles directory of its shape generates the forward animation from
    the project reference. When that call returns at least 16 frames, all
    of which decode: the frames are persisted as [frame_NN.png] in
    [singles/<shape>], where they stay; that directory then passes the skip
    check of [generate_singles], whose loop skips the shape; and when the
    reverse call succeeds with frames that decode, the cycle's own directory
    receives, in order, the content of the forward files followed by the
    reverse frames, and the total is returned unless assembling meets a
    frame file that does not open; a failed reverse call writes nothing
    more. *)
Theorem cycle_generates_single (E : externals) (config : PipelineConfig)
    (total_cost : float) (w : world) (name : string) (entry : cycle_entry)
    (frames : list frame) (cost : float) :
  let cycle_dir := cycles_dir config ++ [name] in
  let forward_dir := singles_dir config ++ [shape entry] in
  let size := frame_size config in
  _has_frames (w_fs w) cycle_dir 32 = false →
  glob_frames (w_fs w) forward_dir = [] →
  client_result E (w_fs w) (length (w_calls w)) (reference config)
    (forward_prompt entry) size size = Returned (frames, cost) →
  16 ≤ length frames →
  frames_ok E frames = true →
  (∀ b, b64decode E (b64encode E b) = b) →
  (∀ b, b64decode_ok E (b64encode E b) = true) →
  let fs1 := (save_frames E frames forward_dir (w_fs w)).2 in
  let r := cycle_item E config (total_cost, w) (name, entry) in
  (∀ i fr, frames !! i = Some fr →
     read_file (w_fs r.2) (forward_dir // frame_name (Z.of_nat i))
     = Some (b64decode E (base64 fr)))
  ∧ 16 ≤ length (glob_frames (w_fs r.2) forward_dir)
  ∧ (∀ t single rest,
       fold_left (single_item E config) ((shape entry, single) :: rest) (t, r.2)
       = fold_left (single_item E config) rest
           (t, print (LSkipHasFrames (shape entry)
                        (length (glob_frames (w_fs r.2) forward_dir))) r.2))
  ∧ ∃ last_frame,
      last (sorted_frames fs1 forward_dir) = Some last_frame
      ∧ match client_result E fs1 (S (length (w_calls w))) last_frame
                (reverse_prompt entry) size size with
        | Returned (reverse_frames, cost') =>
          if frames_ok E reverse_frames then
            (∀ i content,
               ((file_bytes fs1 <$> sorted_frames fs1 forward_dir)
                ++ ((λ fr, b64decode E (base64 fr)) <$> reverse_frames)) !! i
               = Some content →
               read_file (w_fs r.2) (cycle_dir // frame_name (Z.of_nat i))
               = Some content)
            ∧ (files_ok E (w_fs r.2) cycle_dir = true →
               r.1 = Returned (total_cost + cost + cost')%float)
            ∧ (∀ e, r.1 = Raised e → ∃ f, e = UnidentifiedImageError f)
          else r.1 = Raised BinasciiError
        | Raised _ =>
          r.1 = Returned (total_cost + cost)%float ∧ w_fs r.2 = fs1
        end.
Proof.
  intros cycle_dir forward_dir size Hskip Hnone Hforward Hlen Hok Hb64 Hb64ok fs1 r.
  destruct (forward_files_nonempty E config w entry frames) as [last_frame Hlast].
  { intros ->. simpl in Hlen. lia. }
  destruct (cycle_item_generates E config total_cost w name entry frames cost
              Hskip Hnone Hforward Hok last_frame Hlast)
    as (Hlisting & Hexists & Hrev).
  fold cycle_dir forward_dir size fs1 r in Hlisting, Hexists, Hrev, Hlast.
  assert (_has_frames (w_fs r.2) forward_dir 16 = true) as Hhas.
  { apply (_has_frames_listing fs1); [done|apply Hexists|].
    apply _has_frames_true. split.
    - apply save_frames_dir_exists. by right.
    - etrans; [exact Hlen|]. apply save_frames_count. }
  split.
  { intros i fr Hi. unfold read_file. cbn [fp_dir fp_name]. rewrite Hlisting.
    by apply (save_frames_read E frames forward_dir (w_fs w)). }
  split; [by apply _has_frames_true in Hhas as [_ ?]|].
  split; [intros t single rest; cbn [fold_left]; by rewrite single_item_skip|].
  exists last_frame. split; [done|].
  destruct (client_result E fs1 (S (length (w_calls w))) last_frame
              (reverse_prompt entry) size size) as [[reverse_frames cost']|e];
    [|done].
  cbv zeta in Hrev. rewrite frames_ok_app, frames_ok_encoded in Hrev by done.
  cbn [andb] in Hrev.
  destruct (frames_ok E reverse_frames); [|done].
  destruct Hrev as (Hread & Hret & Hraise). split; [|done].
  intros i content Hi.
  assert ((file_bytes fs1 <$> sorted_frames fs1 forward_dir)
          ++ ((λ fr, b64decode E (base64 fr)) <$> reverse_frames)
          = (λ fr, b64decode E (base64 fr))
              <$> (((λ fp, Frame (b64encode E (file_bytes fs1 fp)))
                      <$> sorted_frames fs1 forward_dir) ++ reverse_frames))
    as Heq.
  { rewrite fmap_app, <- list_fmap_compose. f_equal.
    apply list_fmap_ext. intros ? fp _. cbn. by rewrite Hb64. }
  rewrite Heq in Hi. apply list_lookup_fmap_Some in Hi as (fr & -> & Hfr).
  by apply Hread.
Qed.
(** ** The cost estimate *)

Lemma sum_Z_singleton (z : Z) : sum_Z [z] = z.
Proof. unfold sum_Z. simpl. lia. Qed.

(** C9. A configuration with 2 singles, 1 emote, one chain of 2 steps, one
    journey of 3 steps and one cycle counts 2+1+2+3+1 = 9 API calls, and its
    estimated cost, the binary64 product of 9 and 0.16, is the binary64
    number 1.44. *)
Theorem estimate_cost_example (c : PipelineConfig)
    (chain journey : string * sequence_entry) :
  length (singles c) = 2 →
  length (emotes c) = 1 →
  chains c = [chain] → length (steps chain.2) = 2 →
  journeys c = [journey] → length (steps journey.2) = 3 →
  length (cycles c) = 1 →
  count_animations c = Counts 2 1 2 3 1 9
  ∧ total_api_calls (count_animations c) = (2 + 1 + 2 + 3 + 1)%Z
  ∧ estimate_cost c = (float_of_int 9 * 0.16)%float
  ∧ estimate_cost c = 1.44%float.
Proof.
  intros Hs He Hc Hcs Hj Hjs Hcy.
  assert (count_animations c = Counts 2 1 2 3 1 9) as Hcount.
  { unfold count_animations. rewrite Hs, He, Hc, Hj, Hcy.
    cbn [fmap list_fmap]. rewrite !sum_Z_singleton, Hcs, Hjs. reflexivity. }
  unfold estimate_cost. rewrite Hcount. cbn [total_api_calls].
  split_and!; reflexivity.
Qed.

Lemma estimate_cost_example_witness :
  count_animations sample_config = Counts 2 1 2 3 1 9
  ∧ total_api_calls (count_animations sample_config) = (2 + 1 + 2 + 3 + 1)%Z
  ∧ estimate_cost sample_config = (float_of_int 9 * 0.16)%float
  ∧ estimate_cost sample_config = 1.44%float.
Proof.
  apply (estimate_cost_example sample_config
           ("flame_to_heart",
            SequenceEntry (Some "Fire to Love")
              [Step (Some "reference") (Some "flame") "becomes a flame";
               Step (Some "flame") (Some "heart") "becomes a heart"])
           ("hero",
            SequenceEntry (Some "Hero")
              [Step (Some "reference") (Some "sword") "becomes sword";
               Step (Some "sword") (Some "mushroom") "becomes mushroom";
               Step (Some "mushroom") (Some "crown") "becomes crown"]));
    reflexivity.
Defined.

(** ** The theorems at concrete inputs *)

Lemma skip_rule_witness :
  let E := steady in
  let w := complete_world in
  let flame := singles_dir sample_config ++ ["flame"] in
  fold_left (single_item E sample_config) [("flame", SingleEntry "p")] (0%float, w)
  = (0%float, print (LSkipHasFrames "flame" (length (glob_frames (w_fs w) flame))) w)
  ∧ sequence_loop E "Chain" (chains_dir sample_config) sample_config
      [("flame_to_heart", SequenceEntry None [Step None None "a"; Step None None "b"])]
      0%float w
    = (Returned 0%float, print (LSkipComplete "flame_to_heart") w)
  ∧ sequence_loop E "Journey" (journeys_dir sample_config) sample_config
      [("hero", SequenceEntry None
                  [Step None None "a"; Step None None "b"; Step None None "c"])]
      0%float w
    = (Returned 0%float, print (LSkipComplete "hero") w)
  ∧ cycle_loop E sample_config [("cycle_flame", CycleEntry "flame" "f" "r")] 0%float w
    = (Returned 0%float, print (LSkipComplete "cycle_flame") w).
Proof.
  intros E w flame. split_and!.
  - apply (proj1 (skip_rule E sample_config 0%float w "flame")).
    split; [vm_compute; reflexivity|vm_compute; lia].
  - apply (proj1 (proj2 (skip_rule E sample_config 0%float w "flame_to_heart"))).
    split; [vm_compute; reflexivity|vm_compute; lia].
  - apply (proj1 (proj2 (proj2 (skip_rule E sample_config 0%float w "hero")))).
    split; [vm_compute; reflexivity|vm_compute; lia].
  - apply (proj2 (proj2 (proj2 (skip_rule E sample_config 0%float w "cycle_flame")))).
    split; [vm_compute; reflexivity|vm_compute; lia].
Defined.




(** The same chain, read off the final world: the second call failed, one
    call's cost was charged, and the sixteen frames of the first step are
    on disk. *)
Lemma sequence_partial_failure_example :
  let r := generate_chains flaky sample_config fresh_world in
  call_cost <$> w_calls r.2 = [Some 0.16%float; None]
  ∧ r.1 = Returned 0.16%float
  ∧ length (glob_frames (w_fs r.2) (chains_dir sample_config ++ ["flame_to_heart"]))
    = 16.
Proof. vm_compute. done. Qed.



(** One successful call and one failed call: the total is the cost of the
    successful one. *)
Lemma cost_accumulation_example :
  let r := generate_singles flaky sample_config None fresh_world in
  call_cost <$> w_calls r.2 = [Some 0.16%float; None] ∧ r.1 = 0.16%float.
Proof. vm_compute. done. Qed.


(** A forward call that succeeds without frames ends [generate_cycles]. *)
Lemma generate_cycles_index_error :
  (generate_cycles (sample_externals (Some "key") [Http200 [] 0.16%float])
     sample_config fresh_world).1
  = Raised IndexError.
Proof. vm_compute. done. Qed.





Lemma sample_codec_roundtrip (key : option string) (answers : list response)
    (b : bytes) :
  b64decode (sample_externals key answers) (b64encode (sample_externals key answers) b)
  = b.
Proof. apply list_byte_of_string_of_list_byte. Qed.

Lemma sample_codec_ok (key : option string) (answers : list response)
    (b : bytes) :
  b64decode_ok (sample_externals key answers)
    (b64encode (sample_externals key answers) b)
  = true.
Proof. done. Qed.

Lemma cycle_generates_single_witness :
  let entry := CycleEntry "flame" "becomes a flame" "flame returns to gold" in
  let forward_dir := singles_dir sample_config ++ [shape entry] in
  let r := cycle_item steady sample_config (0%float, fresh_world)
             ("cycle_flame", entry) in
  16 ≤ length (glob_frames (w_fs r.2) forward_dir)
  ∧ (∀ t single rest,
       fold_left (single_item steady sample_config)
         ((shape entry, single) :: rest) (t, r.2)
       = fold_left (single_item steady sample_config) rest
           (t, print (LSkipHasFrames (shape entry)
                        (length (glob_frames (w_fs r.2) forward_dir))) r.2)).
Proof.
  cbv zeta.
  pose proof (cycle_generates_single steady sample_config 0%float fresh_world
                "cycle_flame"
                (CycleEntry "flame" "becomes a flame" "flame returns to gold")
                (sample_frames 65 16) 0.16%float) as H.
  cbv zeta in H.
  assert (_has_frames (w_fs fresh_world) (cycles_dir sample_config ++ ["cycle_flame"]) 32
          = false) as H1 by (vm_compute; reflexivity).
  assert (glob_frames (w_fs fresh_world)
            (singles_dir sample_config
             ++ [shape (CycleEntry "flame" "becomes a flame" "flame returns to gold")])
          = []) as H2 by (vm_compute; reflexivity).
  assert (client_result steady (w_fs fresh_world) (length (w_calls fresh_world))
            (reference sample_config)
            (forward_prompt (CycleEntry "flame" "becomes a flame" "flame returns to gold"))
            (frame_size sample_config) (frame_size sample_config)
          = Returned (sample_frames 65 16, 0.16%float)) as H3
    by (vm_compute; reflexivity).
  assert (16 ≤ length (sample_frames 65 16)) as H4 by (vm_compute; lia).
  assert (frames_ok steady (sample_frames 65 16) = true) as H5
    by (vm_compute; reflexivity).
  pose proof (H H1 H2 H3 H4 H5 (sample_codec_roundtrip _ _) (sample_codec_ok _ _))
    as H6.
  destruct H6 as (_ & Hcount & Hskip & _).
  split; [exact Hcount|exact Hskip].
Defined.

(** C10 as stated fails in two ways. When the forward call returns 8 frames,
    they are persisted in [singles/<shape>], but a later run of the singles
    does not skip the shape: it calls the client again. And when the forward
    call returns a frame that does not decode, the frame is not persisted:
    its file is left empty and the iteration ends there. *)
Lemma cycle_forward_of_8_frames_is_not_skipped :
  let entry := CycleEntry "flame" "becomes a flame" "flame returns to gold" in
  let forward_dir := singles_dir sample_config ++ [shape entry] in
  let r := cycle_item short_reply sample_config (0%float, fresh_world)
             ("cycle_flame", entry) in
  let r' := cycle_item garbled sample_config (0%float, fresh_world)
              ("cycle_flame", entry) in
  (length (glob_frames (w_fs r.2) forward_dir) = 8
   ∧ _has_frames (w_fs r.2) forward_dir 16 = false
   ∧ length (w_calls (generate_singles short_reply sample_config (Some ["flame"])
                        r.2).2)
     = S (length (w_calls r.2)))
  ∧ (call_result <$> w_calls r'.2 = [Returned ([Frame "?"], 0.16%float)]
     ∧ read_file (w_fs r'.2) (forward_dir // frame_name 0) = Some []
     ∧ r'.1 = Returned 0%float).
Proof. vm_compute. done. Qed.

(** * Further properties of the code *)

(** ** More on the assembler *)



(** X2. Persisting any number of frames from any start offset: the returned
    paths are pairwise distinct, one per frame in input order, the file at
    the i-th path holds the decoded payload of the i-th frame, and the
    directory lists at least as many frame files as frames were given. *)
Theorem save_frames_offset_writes_each_frame (E : externals)
    (frames : list frame) (d : path) (offset : Z) (fs : FS) :
  let r := save_frames_offset E frames d offset fs in
  NoDup r.1
  ∧ length r.1 = length frames
  ∧ (∀ i fr, frames !! i = Some fr →
       ∃ p, r.1 !! i = Some p
            ∧ fp_dir p = d
            ∧ read_file r.2 p = Some (b64decode E (base64 fr)))
  ∧ length frames ≤ length (glob_frames r.2 d)
  ∧ save_frames E frames d fs = save_frames_offset E frames d 0 fs.
Proof.
  intros r. subst r. rewrite save_frames_offset_paths. split_and!.
  - rewrite (list_fmap_compose (λ i, frame_name (Z.of_nat i + offset)) (FPath d)).
    apply NoDup_fmap_2; [by intros ?? [= ->]|]. apply NoDup_saved_names.
  - by rewrite length_fmap, length_seq.
  - intros i fr Hi. exists (d // frame_name (Z.of_nat i + offset)).
    split; [|split; [done|by apply save_frames_offset_read]].
    rewrite list_lookup_fmap, lookup_seq_lt by (by eapply lookup_lt_Some). done.
  - apply save_frames_offset_count.
  - apply save_frames_is_offset_0.
Qed.

(** X3. What persisting frames leaves alone: the files of every other
    directory, and in the target directory every file whose name is not one
    of the frame names it writes. It creates the target directory with its
    parents when they are missing and keeps every directory that exists. *)
Theorem save_frames_offset_frame_rule (E : externals) (frames : list frame)
    (d : path) (offset : Z) (fs : FS) :
  let fs' := (save_frames_offset E frames d offset fs).2 in
  (∀ d', d' ≠ d → listing fs' d' = listing fs d')
  ∧ (∀ n, (∀ i, i < length frames → n ≠ frame_name (Z.of_nat i + offset)) →
       read_file fs' (d // n) = read_file fs (d // n))
  ∧ (∀ d', dir_exists fs' d' = true ↔ dir_exists fs d' = true ∨ d' ∈ prefixes d)
  ∧ dir_exists fs' d = true.
Proof.
  intros fs'. subst fs'. split_and!.
  - intros d' Hd. by apply save_frames_offset_other_dir.
  - intros n Hn. unfold read_file. cbn [fp_dir fp_name].
    by apply save_frames_offset_keeps.
  - apply save_frames_offset_dir_exists_iff.
  - apply save_frames_offset_dir_exists. by right.
Qed.

Lemma save_frames_offset_frame_rule_witness :
  let E := sample_externals None [] in
  let fs' := (save_frames_offset E (sample_frames 97 2) ["frames"] 16 four_frames_fs).2 in
  read_file fs' (["frames"] // "frame_03.png") = Some [Byte.x44]
  ∧ read_file fs' (["frames"] // "frame_17.png") = Some [Byte.x62].
Proof.
  cbv zeta.
  pose proof (save_frames_offset_frame_rule (sample_externals None [])
                (sample_frames 97 2) ["frames"] 16 four_frames_fs) as H.
  cbv zeta in H. destruct H as (_ & Hkeep & _ & _).
  split; [|vm_compute; reflexivity].
  rewrite (Hkeep "frame_03.png").
  - vm_compute. reflexivity.
  - intros i Hi. cbn in Hi.
    destruct i as [|[|i]]; [vm_compute; discriminate..|lia].
Defined.

Lemma mkdir_parents_existing (d : path) (fs : FS) :
  (∀ p, p ∈ prefixes d → dir_exists fs p = true) → mkdir_parents d fs = fs.
Proof.
  intros Hp. apply FS_eq.
  - intros d'. apply bool_eq_iff. rewrite dir_exists_mkdir_parents.
    split; [|auto]. intros [?|Hin]; [done|by apply Hp].
  - intros d'. apply listing_mkdir_parents.
Qed.

(** X4. Persisting is compositional: frames persisted in two batches, the
    second numbered after the first (as emotes are appended to a single),
    leave the same filesystem and, concatenated, the same paths as
    persisting all frames in one batch. *)
Theorem save_frames_offset_app (E : externals) (frames1 frames2 : list frame)
    (d : path) (offset : Z) (fs : FS) :
  let one := save_frames_offset E (frames1 ++ frames2) d offset fs in
  let first := save_frames_offset E frames1 d offset fs in
  let second :=
    save_frames_offset E frames2 d (offset + Z.of_nat (length frames1)) first.2 in
  second.2 = one.2 ∧ first.1 ++ second.1 = one.1.
Proof.
  intros one first second. subst one first second. split.
  - apply FS_eq.
    + intros d'. apply bool_eq_iff.
      rewrite !save_frames_offset_dir_exists_iff. tauto.
    + intros d'. destruct (decide (d' = d)) as [->|Hd].
      2:{ by rewrite !save_frames_offset_other_dir. }
      apply map_eq. intros n.
      destruct (save_frames_offset_lookup E (frames1 ++ frames2) d offset fs n)
        as [(i & fr & Hi & -> & ->)|[Hn ->]].
      * apply lookup_app_Some in Hi as [Hi|[Hlen Hi]].
        -- rewrite save_frames_offset_keeps.
           ++ by apply save_frames_offset_read.
           ++ intros j Hj Heq. apply frame_name_inj in Heq.
              apply lookup_lt_Some in Hi. lia.
        -- replace (Z.of_nat i + offset)%Z
             with (Z.of_nat (i - length frames1)
                   + (offset + Z.of_nat (length frames1)))%Z by lia.
           by apply save_frames_offset_read.
      * rewrite length_app in Hn.
        rewrite save_frames_offset_keeps.
        -- apply save_frames_offset_keeps. intros i Hi. apply Hn. lia.
        -- intros i Hi.
           replace (Z.of_nat i + (offset + Z.of_nat (length frames1)))%Z
             with (Z.of_nat (length frames1 + i) + offset)%Z by lia.
           apply Hn. lia.
  - rewrite !save_frames_offset_paths, length_app, seq_app, fmap_app. f_equal.
    cbn [Nat.add].
    assert (seq (length frames1) (length frames2)
            = Nat.add (length frames1) <$> seq 0 (length frames2)) as ->
      by (by rewrite fmap_add_seq, Nat.add_0_r).
    rewrite <- list_fmap_compose.
    apply list_fmap_ext. intros ? i _. cbn. do 2 f_equal. lia.
Qed.

(** ** Validation of the configuration *)

Lemma bind_nil_Forall {A B} (f : A → list B) (l : list A) :
  l ≫= f = [] ↔ Forall (λ x, f x = []) l.
Proof.
  induction l as [|x l IH]; [by split; constructor|].
  rewrite bind_cons, Forall_cons, <- IH.
  split; [by intros [? ?]%app_eq_nil|by intros [-> ->]].
Qed.

Lemma enumerate_from_bind_nil {A B} (f : nat * A → list B) (P : A → Prop)
    (l : list A) (k : nat) :
  (∀ i x, f (i, x) = [] ↔ P x) →
  enumerate_from k l ≫= f = [] ↔ Forall P l.
Proof.
  intros Hf. revert k. induction l as [|x l IH]; intros k; cbn [enumerate_from].
  - by split; constructor.
  - rewrite bind_cons, Forall_cons, <- (IH (S k)), <- (Hf k x).
    split; [by intros [? ?]%app_eq_nil|by intros [-> ->]].
Qed.

Lemma if_nil_iff {A} (b : bool) (x : A) :
  (if b then [x] else []) = [] ↔ b = false.
Proof. by destruct b. Qed.

Lemma falsy_false (s : string) : falsy s = false ↔ s ≠ "".
Proof. unfold falsy. apply bool_decide_eq_false. Qed.

Lemma validate_prompts_nil (catalog : string)
    (items : list (string * single_entry)) :
  validate_prompts catalog items = []
  ↔ Forall (λ kv, prompt kv.2 ≠ "") items.
Proof.
  unfold validate_prompts. rewrite bind_nil_Forall.
  apply Forall_iff. intros kv. by rewrite if_nil_iff, falsy_false.
Qed.

Lemma validate_sequences_nil (catalog : string)
    (items : list (string * sequence_entry)) :
  validate_sequences catalog items = []
  ↔ Forall (λ kv, 2 ≤ length (steps kv.2)
                  ∧ Forall (λ s, step_prompt s ≠ "") (steps kv.2)) items.
Proof.
  unfold validate_sequences. rewrite bind_nil_Forall.
  apply Forall_iff. intros kv. unfold enumerate.
  rewrite app_nil, if_nil_iff, bool_decide_eq_false.
  rewrite (enumerate_from_bind_nil _ (λ s, step_prompt s ≠ "")).
  - split; intros [? ?]; split; [lia|done|lia|done].
  - intros i s. by rewrite if_nil_iff, falsy_false.
Qed.

Lemma validate_cycles_nil (items : list (string * cycle_entry)) :
  validate_cycles items = []
  ↔ Forall (λ kv, shape kv.2 ≠ "" ∧ forward_prompt kv.2 ≠ ""
                  ∧ reverse_prompt kv.2 ≠ "") items.
Proof.
  unfold validate_cycles. rewrite bind_nil_Forall.
  apply Forall_iff. intros kv.
  by rewrite !app_nil, !if_nil_iff, !falsy_false.
Qed.

(** X6. [validate] returns no error exactly when the reference image
    exists, the frame size is between 16 and 256, the upscale size is at
    least the frame size, the frame duration is at least 10, every single
    and emote has a non-empty prompt, every chain and journey has at least
    two steps, each with a non-empty prompt, and every cycle has a
    non-empty shape, forward prompt and reverse prompt. *)
Theorem validate_nil_iff (c : PipelineConfig) (fs : FS) :
  validate c fs = [] ↔ well_formed c fs.
Proof.
  unfold validate, well_formed.
  rewrite !app_nil, !if_nil_iff.
  rewrite !validate_prompts_nil, !validate_sequences_nil, validate_cycles_nil.
  rewrite orb_false_iff, !bool_decide_eq_false.
  assert ((if file_exists fs (reference c) then []
           else [ReferenceNotFound (reference c)]) = []
          ↔ is_Some (read_file fs (reference c))) as ->.
  { rewrite <- file_exists_true. by destruct (file_exists _ _). }
  split.
  - intros (? & [? ?] & ? & ? & ? & ? & ? & ? & ?).
    split_and!; try done; lia.
  - intros (? & [? ?] & ? & ? & ? & ? & ? & ? & ?).
    split_and!; try done; lia.
Qed.

Lemma elem_of_if_singleton {A} (b : bool) (x y : A) :
  y ∈ (if b then [x] else []) ↔ b = true ∧ y = x.
Proof.
  destruct b.
  - rewrite list_elem_of_singleton. split; [by intros ->|by intros [_ ->]].
  - rewrite elem_of_nil. split; [done|by intros [? _]].
Qed.

Lemma falsy_true (s : string) : falsy s = true ↔ s = "".
Proof. unfold falsy. apply bool_decide_eq_true. Qed.

Lemma elem_of_enumerate_from {A} (l : list A) (k i : nat) (x : A) :
  (i, x) ∈ enumerate_from k l ↔ k ≤ i ∧ l !! (i - k) = Some x.
Proof.
  revert k. induction l as [|y l IH]; intros k; cbn [enumerate_from].
  - rewrite elem_of_nil. split; [done|by intros [_ ?]].
  - rewrite elem_of_cons, IH. split.
    + intros [[= -> ->]|[Hk Hl]].
      * split; [lia|]. by rewrite Nat.sub_diag.
      * split; [lia|]. replace (i - k) with (S (i - S k)) by lia. done.
    + intros [Hk Hl]. destruct (decide (i = k)) as [->|Hne].
      * left. rewrite Nat.sub_diag in Hl. by injection Hl as ->.
      * right. split; [lia|]. replace (i - k) with (S (i - S k)) in Hl by lia. done.
Qed.

Lemma elem_of_validate_prompts (catalog : string)
    (items : list (string * single_entry)) (e : config_error) :
  e ∈ validate_prompts catalog items
  ↔ ∃ name entry, (name, entry) ∈ items ∧ prompt entry = ""
                  ∧ e = MissingPrompt catalog name.
Proof.
  unfold validate_prompts. rewrite list_elem_of_bind. split.
  - intros ([name entry] & He & Hin).
    apply elem_of_if_singleton in He as [Hf%falsy_true ->]. eauto.
  - intros (name & entry & Hin & Hp & ->). exists (name, entry).
    split; [|done]. apply elem_of_if_singleton. by rewrite falsy_true.
Qed.

Lemma elem_of_validate_sequences (catalog : string)
    (items : list (string * sequence_entry)) (e : config_error) :
  e ∈ validate_sequences catalog items
  ↔ ∃ name entry,
      (name, entry) ∈ items
      ∧ ((length (steps entry) < 2 ∧ e = TooFewSteps catalog name)
         ∨ ∃ i s, steps entry !! i = Some s ∧ step_prompt s = ""
                  ∧ e = StepMissingPrompt catalog name i).
Proof.
  unfold validate_sequences. rewrite list_elem_of_bind. split.
  - intros ([name entry] & He & Hin). exists name, entry. split; [done|].
    apply elem_of_app in He as [He|He].
    + apply elem_of_if_singleton in He as [Hl%bool_decide_eq_true ->]. by left.
    + right. apply list_elem_of_bind in He as ([i s] & He & Hs).
      apply elem_of_if_singleton in He as [Hf%falsy_true ->].
      apply elem_of_enumerate_from in Hs as [_ Hs]. rewrite Nat.sub_0_r in Hs.
      eauto.
  - intros (name & entry & Hin & He). exists (name, entry). split; [|done].
    apply elem_of_app. destruct He as [[Hl ->]|(i & s & Hs & Hp & ->)].
    + left. apply elem_of_if_singleton. by rewrite bool_decide_eq_true.
    + right. apply list_elem_of_bind. exists (i, s). split.
      * apply elem_of_if_singleton. by rewrite falsy_true.
      * apply elem_of_enumerate_from. rewrite Nat.sub_0_r. split; [lia|done].
Qed.

Lemma elem_of_validate_cycles (items : list (string * cycle_entry))
    (e : config_error) :
  e ∈ validate_cycles items
  ↔ ∃ name entry,
      (name, entry) ∈ items
      ∧ ((shape entry = "" ∧ e = CycleMissing name "shape")
         ∨ (forward_prompt entry = "" ∧ e = CycleMissing name "forward_prompt")
         ∨ (reverse_prompt entry = "" ∧ e = CycleMissing name "reverse_prompt")).
Proof.
  unfold validate_cycles. rewrite list_elem_of_bind. split.
  - intros ([name entry] & He & Hin). exists name, entry. split; [done|].
    rewrite !elem_of_app, !elem_of_if_singleton, !falsy_true in He. tauto.
  - intros (name & entry & Hin & He). exists (name, entry). split; [|done].
    rewrite !elem_of_app, !elem_of_if_singleton, !falsy_true. tauto.
Qed.

(** X7. [validate] reports every problem and nothing else: an error is
    returned exactly when its condition holds, be it the missing reference,
    one of the three numeric bounds, a single or emote with an empty
    prompt, a chain or journey with fewer than two steps or with a step
    whose prompt is empty (named by its index), or a cycle with an empty
    shape, forward prompt or reverse prompt. *)
Theorem validate_reports (c : PipelineConfig) (fs : FS) (e : config_error) :
  e ∈ validate c fs
  ↔ (read_file fs (reference c) = None ∧ e = ReferenceNotFound (reference c))
    ∨ ((frame_size c < 16 ∨ frame_size c > 256)%Z
       ∧ e = FrameSizeOutOfRange (frame_size c))
    ∨ ((upscale_size c < frame_size c)%Z
       ∧ e = UpscaleBelowFrameSize (upscale_size c) (frame_size c))
    ∨ ((frame_duration_ms c < 10)%Z
       ∧ e = FrameDurationTooShort (frame_duration_ms c))
    ∨ (∃ name entry, (name, entry) ∈ singles c ∧ prompt entry = ""
                     ∧ e = MissingPrompt "singles" name)
    ∨ (∃ name entry, (name, entry) ∈ emotes c ∧ prompt entry = ""
                     ∧ e = MissingPrompt "emotes" name)
    ∨ (∃ name entry,
         (name, entry) ∈ chains c
         ∧ ((length (steps entry) < 2 ∧ e = TooFewSteps "chains" name)
            ∨ ∃ i s, steps entry !! i = Some s ∧ step_prompt s = ""
                     ∧ e = StepMissingPrompt "chains" name i))
    ∨ (∃ name entry,
         (name, entry) ∈ journeys c
         ∧ ((length (steps entry) < 2 ∧ e = TooFewSteps "journeys" name)
            ∨ ∃ i s, steps entry !! i = Some s ∧ step_prompt s = ""
                     ∧ e = StepMissingPrompt "journeys" name i))
    ∨ (∃ name entry,
         (name, entry) ∈ cycles c
         ∧ ((shape entry = "" ∧ e = CycleMissing name "shape")
            ∨ (forward_prompt entry = ""
               ∧ e = CycleMissing name "forward_prompt")
            ∨ (reverse_prompt entry = ""
               ∧ e = CycleMissing name "reverse_prompt"))).
Proof.
  unfold validate. rewrite !elem_of_app.
  rewrite !elem_of_validate_prompts, !elem_of_validate_sequences,
    elem_of_validate_cycles.
  rewrite !elem_of_if_singleton, orb_true_iff, !bool_decide_eq_true.
  assert (e ∈ (if file_exists fs (reference c) then []
               else [ReferenceNotFound (reference c)])
          ↔ read_file fs (reference c) = None
            ∧ e = ReferenceNotFound (reference c)) as ->; [|tauto].
  destruct (file_exists fs (reference c)) eqn:Hex.
  - apply file_exists_true in Hex as [b Hb]. rewrite Hb, elem_of_nil.
    split; [done|by intros [? _]].
  - assert (read_file fs (reference c) = None) as ->.
    { destruct (read_file fs (reference c)) eqn:Hr; [|done].
      assert (file_exists fs (reference c) = true) as Ht
        by (apply file_exists_true; rewrite Hr; eauto).
      congruence. }
    rewrite list_elem_of_singleton. split; [by intros ->|by intros [_ ->]].
Qed.

(** The project of the tests is valid; a frame size of 8 and an entry
    without prompt are both reported. *)
Lemma validate_examples :
  validate sample_config fresh_fs = []
  ∧ validate
      (Config (["project"] // "reference.png") ["project"; "output"] 8 512 200
         [("flame", SingleEntry "")] [] [] [] [])
      fresh_fs
    = [FrameSizeOutOfRange 8; MissingPrompt "singles" "flame"].
Proof. split; vm_compute; reflexivity. Qed.

(** ** The reference of a step exists *)

(** X8. When the project reference image exists, the reference that
    [_resolve_step_reference] returns is a file that exists in the
    filesystem it leaves behind, whichever of its four cases applies; and
    the project reference still exists there. *)
Theorem resolve_step_reference_exists (E : externals) (config : PipelineConfig)
    (step : step) (previous_frames : list frame) (w : world) :
  is_Some (read_file (w_fs w) (reference config)) →
  let r := _resolve_step_reference E config step previous_frames w in
  is_Some (read_file (w_fs r.2) r.1)
  ∧ is_Some (read_file (w_fs r.2) (reference config)).
Proof.
  intros Href r. subst r. unfold _resolve_step_reference.
  destruct (_ || _); [done|].
  destruct (file_exists _ _) eqn:H15; [by apply file_exists_true in H15|].
  destruct (last previous_frames); [|done].
  cbn [fst snd w_fs set_fs]. rewrite !read_file_write_file.
  rewrite decide_True by done. split; [eauto|]. by case_decide; eauto.
Qed.

Lemma resolve_step_reference_exists_witness :
  let r := _resolve_step_reference steady sample_config
             (Step (Some "sword") (Some "mushroom") "becomes mushroom")
             (sample_frames 97 2) fresh_world in
  is_Some (read_file (w_fs r.2) r.1)
  ∧ is_Some (read_file (w_fs r.2) (reference sample_config)).
Proof.
  apply (resolve_step_reference_exists steady sample_config
           (Step (Some "sword") (Some "mushroom") "becomes mushroom")
           (sample_frames 97 2) fresh_world).
  vm_compute. eauto.
Defined.

(** ** Nothing is ever removed *)

Lemma fs_grows_refl (fs : FS) : fs_grows fs fs.
Proof. by intros d. Qed.

Lemma fs_grows_trans (fs1 fs2 fs3 : FS) :
  fs_grows fs1 fs2 → fs_grows fs2 fs3 → fs_grows fs1 fs3.
Proof.
  intros H12 H23 d. destruct (H12 d) as [Hd Hf], (H23 d) as [Hd' Hf'].
  split; [auto|]. intros n Hn. auto.
Qed.

Lemma fs_grows_mkdir_parents (d : path) (fs : FS) :
  fs_grows fs (mkdir_parents d fs).
Proof.
  intros d'. split.
  - intros Hd. apply dir_exists_mkdir_parents. by left.
  - intros n. by rewrite listing_mkdir_parents.
Qed.

Lemma fs_grows_write_file (p : fpath) (b : bytes) (fs : FS) :
  fs_grows fs (write_file p b fs).
Proof.
  intros d'. split.
  - intros Hd. apply dir_exists_write_file. by left.
  - intros n Hn. rewrite listing_write_file. case_decide as Hp; [|done].
    destruct (decide (fp_name p = n)) as [->|Hne].
    + rewrite lookup_insert_eq. eauto.
    + by rewrite lookup_insert_ne.
Qed.

Lemma fs_grows_save_frames_offset (E : externals) (frames : list frame)
    (d : path) (offset : Z) (fs : FS) :
  fs_grows fs (save_frames_offset E frames d offset fs).2.
Proof.
  intros d'. split.
  - intros Hd. apply save_frames_offset_dir_exists. by left.
  - intros n Hn. destruct (decide (d' = d)) as [->|Hne].
    + apply save_frames_offset_is_Some. by left.
    + by rewrite save_frames_offset_other_dir.
Qed.

Lemma fs_grows_save_frames (E : externals) (frames : list frame) (d : path)
    (fs : FS) :
  fs_grows fs (save_frames E frames d fs).2.
Proof. rewrite save_frames_is_offset_0. apply fs_grows_save_frames_offset. Qed.

Lemma fs_grows_frames_to_gif (E : externals) (frame_dir : path)
    (output_path : fpath) (upscale_size duration_ms : Z) (fs : FS) :
  fs_grows fs
    (frames_to_gif E frame_dir output_path upscale_size duration_ms fs).2.
Proof.
  unfold frames_to_gif. destruct (sorted_frames fs frame_dir);
    [apply fs_grows_refl|]. cbn [snd].
  eapply fs_grows_trans; [apply fs_grows_mkdir_parents|apply fs_grows_write_file].
Qed.

Lemma fs_grows_create_static_fallback (E : externals) (frame_dir : path)
    (output_path : fpath) (upscale_size frame_index : Z) (fs : FS) :
  fs_grows fs
    (create_static_fallback E frame_dir output_path upscale_size frame_index fs).2.
Proof.
  unfold create_static_fallback.
  destruct (if file_exists fs _ then _ else _); [|apply fs_grows_refl]. cbn [snd].
  eapply fs_grows_trans; [apply fs_grows_mkdir_parents|apply fs_grows_write_file].
Qed.

Lemma fs_grows_assemble (E : externals) (config : PipelineConfig)
    (frame_dir : path) (name : string) (w : world) (fs : FS) :
  w_fs w = fs →
  fs_grows fs (w_fs (_assemble_animation E config frame_dir name w)).
Proof.
  intros <-. rewrite _assemble_animation_w_fs.
  eapply fs_grows_trans;
    [apply fs_grows_frames_to_gif|apply fs_grows_create_static_fallback].
Qed.

Lemma fs_grows_resolve (E : externals) (config : PipelineConfig) (step : step)
    (previous_frames : list frame) (w : world) :
  fs_grows (w_fs w)
    (w_fs (_resolve_step_reference E config step previous_frames w).2).
Proof.
  unfold _resolve_step_reference.
  destruct (_ || _); [apply fs_grows_refl|].
  destruct (file_exists _ _); [apply fs_grows_refl|].
  destruct (last previous_frames); [|apply fs_grows_refl].
  apply fs_grows_write_file.
Qed.

Lemma fs_grows_save_frames_offset_or_raise (E : externals)
    (frames : list frame) (d : path) (offset : Z) (fs : FS) :
  fs_grows fs (save_frames_offset_or_raise E frames d offset fs).2.
Proof.
  intros d'. split.
  - intros Hd. apply save_frames_offset_or_raise_dir_exists_iff. by left.
  - intros n Hn. by apply save_frames_offset_or_raise_is_Some.
Qed.

Lemma fs_grows_save_frames_or_raise (E : externals) (frames : list frame)
    (d : path) (fs : FS) :
  fs_grows fs (save_frames_or_raise E frames d fs).2.
Proof.
  rewrite save_frames_or_raise_is_offset_0.
  apply fs_grows_save_frames_offset_or_raise.
Qed.

Lemma fs_grows_assemble_or_raise (E : externals) (config : PipelineConfig)
    (base : path) (leaf name : string) (w : world) (fs : FS) :
  w_fs w = fs →
  fs_grows fs
    (w_fs (_assemble_animation_or_raise E config (base ++ [leaf]) name w).2).
Proof.
  intros <-.
  destruct (_assemble_animation_or_raise_cases E config base leaf name w)
    as [[_ ->]|(_ & f & _ & _ & ->)]; [|apply fs_grows_refl].
  by apply fs_grows_assemble.
Qed.

Lemma fs_grows_resolve_or_raise (E : externals) (config : PipelineConfig)
    (step : step) (previous_frames : list frame) (w : world) :
  fs_grows (w_fs w)
    (w_fs (_resolve_step_reference_or_raise E config step previous_frames w).2).
Proof.
  unfold _resolve_step_reference_or_raise.
  destruct (_ || _); [apply fs_grows_refl|].
  destruct (file_exists _ _); [apply fs_grows_refl|].
  destruct (last previous_frames); [|apply fs_grows_refl].
  destruct (b64decode_ok _ _); cbn [snd w_fs set_fs].
  - rewrite write_file_twice. apply fs_grows_write_file.
  - apply fs_grows_write_file.
Qed.

Lemma fs_grows_fold {A B} (f : B * world → A → B * world) (items : list A)
    (st : B * world) :
  (∀ st item, fs_grows (w_fs st.2) (w_fs (f st item).2)) →
  fs_grows (w_fs st.2) (w_fs (fold_left f items st).2).
Proof.
  intros Hf. revert st. induction items as [|item items IH]; intros st;
    cbn [fold_left]; [apply fs_grows_refl|].
  eapply fs_grows_trans; [apply Hf|apply IH].
Qed.

Section Grows.
Context (E : externals) (config : PipelineConfig).

Lemma fs_grows_single_item (st : float * world) (item : string * single_entry) :
  fs_grows (w_fs st.2) (w_fs (single_item E config st item).2).
Proof.
  destruct st as [total w], item as [name entry]. unfold single_item.
  destruct (_has_frames _ _ _); [apply fs_grows_refl|].
  unfold generate_animation. cbn [w_fs w_calls w_out print].
  destruct (client_result _ _ _ _ _ _ _) as [[frames cost]|e];
    [|apply fs_grows_refl].
  pose proof (fs_grows_save_frames_or_raise E frames (singles_dir config ++ [name])
                (w_fs w)) as Hs.
  destruct (save_frames_or_raise _ _ _ _) as [[saved|e] fs]; cbn [fst snd] in *;
    [|exact Hs].
  match goal with
  | |- context [_assemble_animation_or_raise E config (?b ++ [?l]) ?n ?w'] =>
    pose proof (fs_grows_assemble_or_raise E config b l n w' fs eq_refl) as Ha;
    destruct (_assemble_animation_or_raise E config (b ++ [l]) n w')
      as [[[]|e] w2]
  end; cbn [fst snd w_fs print] in *; by eapply fs_grows_trans.
Qed.

Lemma fs_grows_emote_item (st : float * world) (item : string * single_entry) :
  fs_grows (w_fs st.2) (w_fs (emote_item E config st item).2).
Proof.
  destruct st as [total w], item as [name entry]. unfold emote_item.
  destruct (negb _); [apply fs_grows_refl|].
  destruct (file_exists _ _); [apply fs_grows_refl|].
  unfold generate_animation. cbn [w_fs w_calls w_out print].
  destruct (client_result _ _ _ _ _ _ _) as [[frames cost]|e];
    [|apply fs_grows_refl].
  pose proof (fs_grows_save_frames_offset_or_raise E frames
                (singles_dir config ++ [name]) 16 (w_fs w)) as Hs.
  destruct (save_frames_offset_or_raise _ _ _ _ _) as [[saved|e] fs];
    cbn [fst snd] in *; [|exact Hs].
  match goal with
  | |- context [_assemble_animation_or_raise E config (?b ++ [?l]) ?n ?w'] =>
    pose proof (fs_grows_assemble_or_raise E config b l n w' fs eq_refl) as Ha;
    destruct (_assemble_animation_or_raise E config (b ++ [l]) n w')
      as [[[]|e] w2]
  end; cbn [fst snd w_fs print] in *; by eapply fs_grows_trans.
Qed.

Lemma fs_grows_run_steps (steps : list step) (step_idx total : nat)
    (all_frames : list frame) (total_cost : float) (w : world) :
  fs_grows (w_fs w)
    (w_fs (run_steps E config steps step_idx total all_frames total_cost w).2).
Proof.
  revert step_idx all_frames total_cost w.
  induction steps as [|step rest IH]; intros step_idx all_frames total_cost w;
    cbn [run_steps]; [apply fs_grows_refl|].
  pose proof (fs_grows_resolve_or_raise E config step all_frames w) as Hr.
  destruct (_resolve_step_reference_or_raise E config step all_frames w)
    as [[ref|e] w1]; cbn [snd] in Hr; [|exact Hr].
  unfold generate_animation. cbn [w_fs w_calls w_out print].
  destruct (client_result _ _ _ _ _ _ _) as [[frames cost]|e]; [|exact Hr].
  eapply fs_grows_trans; [exact Hr|].
  match goal with
  | |- fs_grows _ (w_fs (run_steps _ _ _ ?i _ ?a ?c ?w').2) =>
    exact (IH i a c w')
  end.
Qed.

Lemma fs_grows_sequence_item (kind : string) (base : path)
    (st : float * world) (item : string * sequence_entry) :
  fs_grows (w_fs st.2) (w_fs (sequence_item E kind base config st item).2).
Proof.
  destruct st as [total w], item as [name entry]. unfold sequence_item.
  destruct (_has_frames _ _ _); [apply fs_grows_refl|]. cbv zeta.
  match goal with
  | |- context [run_steps E config ?s ?i ?t ?a ?tc ?w1] =>
    pose proof (fs_grows_run_steps s i t a tc w1) as Hs;
    destruct (run_steps E config s i t a tc w1) as [[[all_frames total']|e] w2]
  end.
  2: { cbn [fst snd w_fs set_fs print] in *.
       eapply fs_grows_trans; [apply fs_grows_mkdir_parents|exact Hs]. }
  cbn [fst snd w_fs set_fs print] in *.
  assert (fs_grows (w_fs w) (w_fs w2)) as Hw.
  { eapply fs_grows_trans; [apply fs_grows_mkdir_parents|exact Hs]. }
  destruct all_frames as [|fr all_frames]; [exact Hw|].
  match goal with
  | |- context [save_frames_or_raise E ?fr ?d ?fs] =>
    pose proof (fs_grows_save_frames_or_raise E fr d fs) as Hsave;
    destruct (save_frames_or_raise E fr d fs) as [[saved|e] fs']
  end; cbn [fst snd w_fs set_fs] in *; [|by eapply fs_grows_trans].
  match goal with
  | |- context [_assemble_animation_or_raise E config (?b ++ [?l]) ?n ?w'] =>
    pose proof (fs_grows_assemble_or_raise E config b l n w' fs' eq_refl) as Ha;
    destruct (_assemble_animation_or_raise E config (b ++ [l]) n w')
      as [[[]|e] w3]
  end; cbn [fst snd w_fs print] in *;
    (eapply fs_grows_trans; [exact Hw|]); by eapply fs_grows_trans.
Qed.

Lemma fs_grows_sequence_loop (kind : string) (base : path)
    (items : list (string * sequence_entry)) (total : float) (w : world) :
  fs_grows (w_fs w) (w_fs (sequence_loop E kind base config items total w).2).
Proof.
  revert total w. induction items as [|item items IH]; intros total w;
    cbn [sequence_loop]; [apply fs_grows_refl|].
  pose proof (fs_grows_sequence_item kind base (total, w) item) as Hi.
  destruct (sequence_item _ _ _ _ _ _) as [[total1|e] w1]; [|exact Hi].
  eapply fs_grows_trans; [exact Hi|apply IH].
Qed.

Lemma fs_grows_cycle_forward (entry : cycle_entry) (total : float) (w : world) :
  fs_grows (w_fs w) (w_fs (cycle_forward E config entry total w).2).
Proof.
  unfold cycle_forward.
  destruct (if dir_exists _ _ then _ else _); [|apply fs_grows_refl].
  unfold generate_animation. cbn [w_fs w_calls w_out print].
  destruct (client_result _ _ _ _ _ _ _) as [[frames cost]|e];
    [|apply fs_grows_refl].
  pose proof (fs_grows_save_frames_or_raise E frames
                (singles_dir config ++ [shape entry]) (w_fs w)) as Hs.
  destruct (save_frames_or_raise _ _ _ _) as [[saved|e] fs];
    cbn [fst snd w_fs set_fs print] in *; exact Hs.
Qed.

Lemma fs_grows_cycle_item (st : float * world) (item : string * cycle_entry) :
  fs_grows (w_fs st.2) (w_fs (cycle_item E config st item).2).
Proof.
  destruct st as [total w], item as [name entry]. unfold cycle_item.
  destruct (_has_frames _ _ _); [apply fs_grows_refl|].
  pose proof (fs_grows_cycle_forward entry total (print (LStart "Cycle" name) w))
    as Hf.
  destruct (cycle_forward _ _ _ _ _) as [[[forward_frames|] total1] w1];
    cbn [fst snd w_fs print] in Hf; [|exact Hf].
  destruct (last forward_frames) as [last_frame|]; [|exact Hf].
  unfold generate_animation. cbn [w_fs w_calls w_out print].
  destruct (client_result _ _ _ _ _ _ _) as [[frames cost]|e]; [|exact Hf].
  match goal with
  | |- context [save_frames_or_raise E ?fr ?d ?fs] =>
    pose proof (fs_grows_save_frames_or_raise E fr d fs) as Hsave;
    destruct (save_frames_or_raise E fr d fs) as [[saved|e] fs']
  end; cbn [fst snd w_fs set_fs] in *; [|by eapply fs_grows_trans].
  match goal with
  | |- context [_assemble_animation_or_raise E config (?b ++ [?l]) ?n ?w'] =>
    pose proof (fs_grows_assemble_or_raise E config b l n w' fs' eq_refl) as Ha;
    destruct (_assemble_animation_or_raise E config (b ++ [l]) n w')
      as [[[]|e] w3]
  end; cbn [fst snd w_fs print] in *;
    (eapply fs_grows_trans; [exact Hf|]); by eapply fs_grows_trans.
Qed.

Lemma fs_grows_cycle_loop (items : list (string * cycle_entry)) (total : float)
    (w : world) :
  fs_grows (w_fs w) (w_fs (cycle_loop E config items total w).2).
Proof.
  revert total w. induction items as [|item items IH]; intros total w;
    cbn [cycle_loop]; [apply fs_grows_refl|].
  pose proof (fs_grows_cycle_item (total, w) item) as Hi.
  destruct (cycle_item _ _ _ _) as [[total1|e] w1]; [|exact Hi].
  eapply fs_grows_trans; [exact Hi|apply IH].
Qed.

Lemma fs_grows_generate_singles (targets : option (list string)) (w : world) :
  fs_grows (w_fs w) (w_fs (generate_singles E config targets w).2).
Proof.
  unfold generate_singles. destruct (select_targets _ _) as [|item items];
    [apply fs_grows_refl|].
  match goal with
  | |- context [fold_left ?f ?l ?st] =>
    pose proof (fs_grows_fold f l st fs_grows_single_item) as Hf;
    destruct (fold_left f l st) as [total w1]
  end.
  exact Hf.
Qed.

Lemma fs_grows_generate_emotes (targets : option (list string)) (w : world) :
  fs_grows (w_fs w) (w_fs (generate_emotes E config targets w).2).
Proof.
  unfold generate_emotes. destruct (select_targets _ _) as [|item items];
    [apply fs_grows_refl|].
  match goal with
  | |- context [fold_left ?f ?l ?st] =>
    pose proof (fs_grows_fold f l st fs_grows_emote_item) as Hf;
    destruct (fold_left f l st) as [total w1]
  end.
  exact Hf.
Qed.

Lemma fs_grows_generate_chains (w : world) :
  fs_grows (w_fs w) (w_fs (generate_chains E config w).2).
Proof.
  unfold generate_chains. destruct (chains config) as [|item items];
    [apply fs_grows_refl|].
  match goal with
  | |- context [sequence_loop E ?k ?b config ?l ?t ?w0] =>
    pose proof (fs_grows_sequence_loop k b l t w0) as Hf;
    destruct (sequence_loop E k b config l t w0) as [[total|e] w1]
  end; exact Hf.
Qed.

Lemma fs_grows_generate_journeys (targets : option (list string)) (w : world) :
  fs_grows (w_fs w) (w_fs (generate_journeys E config targets w).2).
Proof.
  unfold generate_journeys. destruct (select_targets _ _) as [|item items];
    [apply fs_grows_refl|].
  match goal with
  | |- context [sequence_loop E ?k ?b config ?l ?t ?w0] =>
    pose proof (fs_grows_sequence_loop k b l t w0) as Hf;
    destruct (sequence_loop E k b config l t w0) as [[total|e] w1]
  end; exact Hf.
Qed.

Lemma fs_grows_generate_cycles (w : world) :
  fs_grows (w_fs w) (w_fs (generate_cycles E config w).2).
Proof.
  unfold generate_cycles. destruct (cycles config) as [|item items];
    [apply fs_grows_refl|].
  match goal with
  | |- context [cycle_loop E config ?l ?t ?w0] =>
    pose proof (fs_grows_cycle_loop l t w0) as Hf;
    destruct (cycle_loop E config l t w0) as [[total|e] w1]
  end; exact Hf.
Qed.
End Grows.

(** X9. No generator ever removes anything: every directory and every file
    that exists before a run of [generate_singles], [generate_emotes],
    [generate_chains], [generate_journeys] or [generate_cycles] (however
    the run ends) still exists after it. *)
Theorem generators_never_remove (E : externals) (config : PipelineConfig)
    (targets : option (list string)) (w : world) :
  fs_grows (w_fs w) (w_fs (generate_singles E config targets w).2)
  ∧ fs_grows (w_fs w) (w_fs (generate_emotes E config targets w).2)
  ∧ fs_grows (w_fs w) (w_fs (generate_chains E config w).2)
  ∧ fs_grows (w_fs w) (w_fs (generate_journeys E config targets w).2)
  ∧ fs_grows (w_fs w) (w_fs (generate_cycles E config w).2).
Proof.
  split_and!.
  - apply fs_grows_generate_singles.
  - apply fs_grows_generate_emotes.
  - apply fs_grows_generate_chains.
  - apply fs_grows_generate_journeys.
  - apply fs_grows_generate_cycles.
Qed.

Lemma _has_frames_grows (fs fs' : FS) (d : path) (n : nat) :
  fs_grows fs fs' → _has_frames fs d n = true → _has_frames fs' d n = true.
Proof.
  intros Hg. rewrite !_has_frames_true, !length_glob_frames.
  destruct (Hg d) as [Hd Hf]. intros [He Hn]. split; [auto|].
  etrans; [exact Hn|]. apply submseteq_length, NoDup_submseteq;
    [apply NoDup_glob_names|].
  intros x. rewrite !elem_of_glob_names. intros [? ?]. auto.
Qed.

(** X10. An animation that passes the skip check keeps passing it: a
    directory that has at least [n] frame files before a run of any of the
    five generators has at least [n] after it, so completed work is never
    redone because of a later run. *)
Theorem completed_stays_completed (E : externals) (config : PipelineConfig)
    (targets : option (list string)) (w : world) (d : path) (n : nat) :
  _has_frames (w_fs w) d n = true →
  _has_frames (w_fs (generate_singles E config targets w).2) d n = true
  ∧ _has_frames (w_fs (generate_emotes E config targets w).2) d n = true
  ∧ _has_frames (w_fs (generate_chains E config w).2) d n = true
  ∧ _has_frames (w_fs (generate_journeys E config targets w).2) d n = true
  ∧ _has_frames (w_fs (generate_cycles E config w).2) d n = true.
Proof.
  intros Hhas. split_and!; (eapply _has_frames_grows; [|exact Hhas]).
  - apply fs_grows_generate_singles.
  - apply fs_grows_generate_emotes.
  - apply fs_grows_generate_chains.
  - apply fs_grows_generate_journeys.
  - apply fs_grows_generate_cycles.
Qed.

Lemma completed_stays_completed_witness :
  let d := singles_dir sample_config ++ ["flame"] in
  let w := singles_world in
  _has_frames (w_fs (generate_singles flaky sample_config None w).2) d 16 = true
  ∧ _has_frames (w_fs (generate_emotes flaky sample_config None w).2) d 16 = true
  ∧ _has_frames (w_fs (generate_chains flaky sample_config w).2) d 16 = true
  ∧ _has_frames (w_fs (generate_journeys flaky sample_config None w).2) d 16 = true
  ∧ _has_frames (w_fs (generate_cycles flaky sample_config w).2) d 16 = true.
Proof.
  apply (completed_stays_completed flaky sample_config None singles_world
           (singles_dir sample_config ++ ["flame"]) 16).
  vm_compute. reflexivity.
Defined.

(** ** Calls made, and runs in which every call fails *)

Lemma ran_same (E : externals) (t : float) (w w' : world) :
  w_calls w' = w_calls w → (∀ d, listing (w_fs w') d = listing (w_fs w) d) →
  ran E 0 t w (Returned t) w'.
Proof.
  intros Hc Hl. exists []. rewrite app_nil_r. split_and!; [done|done|constructor|].
  done.
Qed.

Lemma ran_trans (E : externals) (b1 b2 : nat) (t t1 : float) (w w1 w2 : world)
    (o : outcome float) :
  ran E b1 t w (Returned t1) w1 → ran E b2 t1 w1 o w2 →
  ran E (b1 + b2) t w o w2.
Proof.
  intros (new1 & Hc1 & Hl1 & Hm1 & Hq1) (new2 & Hc2 & Hl2 & Hm2 & Hq2).
  exists (new1 ++ new2). split_and!.
  - by rewrite Hc2, Hc1, <- app_assoc.
  - rewrite length_app. lia.
  - by apply Forall_app.
  - intros [Hf1 Hf2]%Forall_app.
    destruct (Hq1 Hf1) as [[= <-] Hs1]. destruct (Hq2 Hf2) as [-> Hs2].
    split; [done|]. intros d. by rewrite Hs2, Hs1.
Qed.

Lemma ran_weaken (E : externals) (b b' : nat) (t : float) (w w' : world)
    (o : outcome float) :
  b ≤ b' → ran E b t w o w' → ran E b' t w o w'.
Proof.
  intros Hb (new & Hc & Hl & Hm & Hq). exists new. split_and!; try done. lia.
Qed.

(** The same run seen from a world that differs only in what is printed or
    whose files are the same. *)
Lemma ran_world (E : externals) (b : nat) (t : float) (w w' w'' : world)
    (o : outcome float) :
  w_calls w'' = w_calls w' → (∀ d, listing (w_fs w'') d = listing (w_fs w') d) →
  ran E b t w o w' → ran E b t w o w''.
Proof.
  intros Hc Hs (new & Hc' & Hl & Hm & Hq). exists new.
  split_and!; [by rewrite Hc|done|done|].
  intros Hf. destruct (Hq Hf) as [-> Hs']. split; [done|].
  intros d. by rewrite Hs, Hs'.
Qed.

Lemma ran_start (E : externals) (b : nat) (t : float) (w0 w w' : world)
    (o : outcome float) :
  w_calls w = w_calls w0 → (∀ d, listing (w_fs w) d = listing (w_fs w0) d) →
  ran E b t w o w' → ran E b t w0 o w'.
Proof.
  intros Hc Hs (new & Hc' & Hl & Hm & Hq). exists new.
  split_and!; [by rewrite <- Hc|done|done|].
  intros Hf. destruct (Hq Hf) as [-> Hs']. split; [done|].
  intros d. by rewrite Hs', Hs.
Qed.

(** A call that succeeded, whatever is written after it. *)
Lemma ran_success (E : externals) (t : float) (w w' : world) (o : outcome float)
    (c : call) :
  w_calls w' = w_calls w ++ [c] → made_by E c → ¬ call_failed c →
  ran E 1 t w o w'.
Proof.
  intros Hc Hm Hf. exists [c]. split_and!; [done|done|by constructor|].
  intros Hall. apply Forall_cons in Hall as [? _]. done.
Qed.

(** A call that failed, after which nothing is written. *)
Lemma ran_failure (E : externals) (t : float) (w w' : world) (c : call) :
  w_calls w' = w_calls w ++ [c] → made_by E c →
  (∀ d, listing (w_fs w') d = listing (w_fs w) d) →
  ran E 1 t w (Returned t) w'.
Proof.
  intros Hc Hm Hs. exists [c]. split_and!; [done|done|by constructor|done].
Qed.

Lemma made_by_call (E : externals) (fs : FS) (n : nat) (ref : fpath)
    (action : string) (width height : Z) :
  made_by E (Call ref action width height
               (client_result E fs n ref action width height)).
Proof. by exists fs, n. Qed.

Section Ran.
Context (E : externals) (config : PipelineConfig).

Lemma single_item_ran (t : float) (w : world) (item : string * single_entry) :
  ran E 1 t w (Returned (single_item E config (t, w) item).1)
    (single_item E config (t, w) item).2.
Proof.
  destruct item as [name entry]. unfold single_item.
  destruct (_has_frames _ _ _); [by apply (ran_weaken E 0), ran_same; [lia|..]|].
  unfold generate_animation. cbn [w_fs w_calls w_out print].
  pose proof (made_by_call E (w_fs w) (length (w_calls w)) (reference config)
                (prompt entry) (frame_size config) (frame_size config)) as Hm.
  destruct (client_result _ _ _ _ _ _ _) as [[frames cost]|e].
  - destruct (save_frames_or_raise _ _ _ _) as [[saved|e] fs]; cbn [fst snd].
    + match goal with
      | |- context [_assemble_animation_or_raise E config (?b ++ [?l]) ?n ?w'] =>
        pose proof (_assemble_animation_or_raise_calls E config b l n w') as Ha;
        destruct (_assemble_animation_or_raise E config (b ++ [l]) n w')
          as [[[]|e] w2]
      end; cbn [fst snd] in *;
        (eapply ran_success; [|exact Hm|by intros []]);
        cbn [w_calls print]; by rewrite Ha.
    + eapply ran_success; [|exact Hm|by intros []]. done.
  - cbn [fst snd]. by eapply ran_failure.
Qed.

Lemma emote_item_ran (t : float) (w : world) (item : string * single_entry) :
  ran E 1 t w (Returned (emote_item E config (t, w) item).1)
    (emote_item E config (t, w) item).2.
Proof.
  destruct item as [name entry]. unfold emote_item.
  destruct (negb _); [by apply (ran_weaken E 0), ran_same; [lia|..]|].
  destruct (file_exists _ _); [by apply (ran_weaken E 0), ran_same; [lia|..]|].
  unfold generate_animation. cbn [w_fs w_calls w_out print].
  pose proof (made_by_call E (w_fs w) (length (w_calls w))
                ((singles_dir config ++ [name]) // "frame_15.png")
                (prompt entry) (frame_size config) (frame_size config)) as Hm.
  destruct (client_result _ _ _ _ _ _ _) as [[frames cost]|e].
  - destruct (save_frames_offset_or_raise _ _ _ _ _) as [[saved|e] fs];
      cbn [fst snd].
    + match goal with
      | |- context [_assemble_animation_or_raise E config (?b ++ [?l]) ?n ?w'] =>
        pose proof (_assemble_animation_or_raise_calls E config b l n w') as Ha;
        destruct (_assemble_animation_or_raise E config (b ++ [l]) n w')
          as [[[]|e] w2]
      end; cbn [fst snd] in *;
        (eapply ran_success; [|exact Hm|by intros []]);
        cbn [w_calls print]; by rewrite Ha.
    + eapply ran_success; [|exact Hm|by intros []]. done.
  - cbn [fst snd]. by eapply ran_failure.
Qed.

Lemma run_steps_made_by (steps : list step) (step_idx total : nat)
    (all_frames : list frame) (total_cost : float) (w : world) :
  ∃ new,
    w_calls (run_steps E config steps step_idx total all_frames total_cost w).2
    = w_calls w ++ new
    ∧ Forall (made_by E) new.
Proof.
  revert step_idx all_frames total_cost w.
  induction steps as [|step rest IH]; intros step_idx all_frames total_cost w;
    cbn [run_steps].
  { exists []. by rewrite app_nil_r. }
  pose proof (_resolve_step_reference_or_raise_calls E config step all_frames w)
    as Hrc.
  destruct (_resolve_step_reference_or_raise E config step all_frames w)
    as [[ref|e] w1]; cbn [snd] in Hrc.
  2:{ exists []. by rewrite app_nil_r. }
  unfold generate_animation. cbn [w_fs w_calls w_out print].
  pose proof (made_by_call E (w_fs w1) (length (w_calls w1)) ref
                (step_prompt step) (frame_size config) (frame_size config)) as Hm.
  destruct (client_result _ _ _ _ _ _ _) as [[frames cost]|e].
  - match goal with
    | |- ∃ new, w_calls (run_steps _ _ _ ?i ?t ?a ?c ?w').2 = _ ∧ _ =>
      destruct (IH i a c w') as (new & Hc & Hm')
    end.
    cbn [w_calls print] in Hc. eexists (_ :: new). split.
    + rewrite Hc, Hrc, <- app_assoc. reflexivity.
    + by constructor.
  - cbn [snd w_calls print]. eexists [_]. rewrite Hrc. split; [reflexivity|].
    by constructor.
Qed.

Lemma call_frames_failed (new : list call) :
  Forall call_failed new → concat (call_frames <$> new) = [].
Proof.
  induction 1 as [|c new Hc _ IH]; [done|]. cbn. rewrite IH, app_nil_r.
  unfold call_failed, call_frames in *. by destruct (call_result c).
Qed.

Lemma add_costs_failed (t : float) (new : list call) :
  Forall call_failed new → add_costs t new = t.
Proof.
  unfold add_costs. induction 1 as [|c new Hc _ IH]; [done|]. cbn.
  unfold call_failed, call_cost in *. by destruct (call_result c) as [[]|].
Qed.

Lemma sequence_item_ran (kind : string) (base : path) (t : float) (w : world)
    (item : string * sequence_entry) :
  ran E (length (steps item.2)) t w
    (sequence_item E kind base config (t, w) item).1
    (sequence_item E kind base config (t, w) item).2.
Proof.
  destruct item as [name entry]. unfold sequence_item. cbn [snd].
  destruct (_has_frames _ _ _); [by apply (ran_weaken E 0), ran_same; [lia|..]|].
  cbv zeta.
  match goal with
  | |- context [run_steps E config ?s ?i ?tl ?a ?tc ?w1] =>
    destruct (run_steps_spec E config s i tl a tc w1)
      as (new & Hc & Hlen & _ & _ & Hres);
    destruct (run_steps_made_by s i tl a tc w1) as (new' & Hc' & Hm);
    destruct (run_steps E config s i tl a tc w1) as [[[all_frames total']|e] w2]
  end; cbn [fst snd w_fs w_calls set_fs print] in *;
    rewrite Hc in Hc'; apply app_inv_head in Hc' as <-;
    rewrite app_nil_l in Hres.
  - destruct Hres as (Hall & Hcost & _ & Hfs).
    destruct all_frames as [|fr all_frames].
    + exists new. split_and!; try done. intros Hf.
      rewrite Hcost, add_costs_failed by done. split; [done|].
      intros d. cbn [snd]. rewrite Hfs by done. apply listing_mkdir_parents.
    + assert (¬ Forall call_failed new) as Hnf.
      { intros Hf. apply call_frames_failed in Hf. by rewrite Hf in Hall. }
      destruct (save_frames_or_raise _ _ _ _) as [[saved|e] fs]; cbn [fst snd].
      * match goal with
        | |- context [_assemble_animation_or_raise E config (?b ++ [?l]) ?n ?w'] =>
          pose proof (_assemble_animation_or_raise_calls E config b l n w') as Ha;
          destruct (_assemble_animation_or_raise E config (b ++ [l]) n w')
            as [[[]|e] w3]
        end; cbn [fst snd w_calls set_fs print] in *;
          exists new; rewrite Ha; split_and!; done.
      * exists new. split_and!; done.
  - destruct Hres as (-> & Hbad).
    exists new. split_and!; try done. intros Hf.
    apply call_frames_failed in Hf. by rewrite Hf in Hbad.
Qed.

Lemma sequence_loop_ran (kind : string) (base : path)
    (items : list (string * sequence_entry)) (t : float) (w : world) :
  ran E (sum_list_with (λ kv, length (steps kv.2)) items) t w
    (sequence_loop E kind base config items t w).1
    (sequence_loop E kind base config items t w).2.
Proof.
  revert t w. induction items as [|item items IH]; intros t w;
    cbn [sequence_loop sum_list_with]; [by apply ran_same|].
  pose proof (sequence_item_ran kind base t w item) as Hi.
  destruct (sequence_item _ _ _ _ _ _) as [[t1|e] w1]; cbn [fst snd] in Hi.
  - eapply ran_trans; [exact Hi|apply IH].
  - eapply ran_weaken; [|exact Hi]. lia.
Qed.

Lemma cycle_forward_ran (entry : cycle_entry) (t : float) (w : world) :
  ran E 1 t w (Returned (cycle_forward E config entry t w).1.2)
    (cycle_forward E config entry t w).2.
Proof.
  unfold cycle_forward.
  destruct (if dir_exists _ _ then _ else _);
    [|by apply (ran_weaken E 0), ran_same; [lia|..]].
  unfold generate_animation. cbn [w_fs w_calls w_out print].
  pose proof (made_by_call E (w_fs w) (length (w_calls w)) (reference config)
                (forward_prompt entry) (frame_size config) (frame_size config))
    as Hm.
  destruct (client_result _ _ _ _ _ _ _) as [[frames cost]|e].
  - destruct (save_frames_or_raise _ _ _ _) as [[saved|e] fs]; cbn [fst snd];
      (eapply ran_success; [|exact Hm|by intros []]); done.
  - cbn [fst snd]. by eapply ran_failure.
Qed.

(** A failed forward call ends the iteration. *)
Lemma cycle_forward_some_quiet (entry : cycle_entry) (t t1 : float)
    (w w1 : world) (forward_frames : list fpath) :
  cycle_forward E config entry t w = (Some forward_frames, t1, w1) →
  (w1 = w ∧ t1 = t ∧ forward_frames ≠ [])
  ∨ ∃ c, w_calls w1 = w_calls w ++ [c] ∧ ¬ call_failed c.
Proof.
  unfold cycle_forward.
  destruct (if dir_exists _ _ then _ else _) as [|p ps] eqn:Hf.
  - unfold generate_animation. cbn [w_fs w_calls w_out print].
    destruct (client_result _ _ _ _ _ _ _) as [[frames cost]|e]; [|done].
    destruct (save_frames_or_raise _ _ _ _) as [[saved|e] fs]; [|done].
    intros [= _ _ <-]. right. eexists. split; [reflexivity|]. by intros [].
  - intros [= <- <- <-]. by left.
Qed.

Lemma cycle_item_ran (t : float) (w : world) (item : string * cycle_entry) :
  ran E 2 t w (cycle_item E config (t, w) item).1
    (cycle_item E config (t, w) item).2.
Proof.
  destruct item as [name entry]. unfold cycle_item.
  destruct (_has_frames _ _ _); [by apply (ran_weaken E 0), ran_same; [lia|..]|].
  pose proof (cycle_forward_ran entry t (print (LStart "Cycle" name) w)) as Hf.
  pose proof (cycle_forward_some_quiet entry t) as Hq.
  destruct (cycle_forward _ _ _ _ _) as [[[forward_frames|] t1] w1] eqn:Hcf;
    cbn [fst snd] in Hf.
  2:{ apply (ran_weaken E 1); [lia|]. eapply ran_start; [| |exact Hf]; done. }
  specialize (Hq t1 _ w1 forward_frames Hcf).
  assert (ran E 1 t w (Returned t1) w1) as Hf'
    by (eapply ran_start; [| |exact Hf]; done).
  destruct (last forward_frames) as [last_frame|] eqn:Hlast.
  - apply (ran_trans E 1 1 t t1 w w1); [exact Hf'|].
    unfold generate_animation. cbn [w_fs w_calls w_out print].
    pose proof (made_by_call E (w_fs w1) (length (w_calls w1)) last_frame
                  (reverse_prompt entry) (frame_size config) (frame_size config))
      as Hm.
    destruct (client_result _ _ _ _ _ _ _) as [[frames cost]|e].
    + destruct (save_frames_or_raise _ _ _ _) as [[saved|e] fs]; cbn [fst snd].
      * match goal with
        | |- context [_assemble_animation_or_raise E config (?b ++ [?l]) ?n ?w'] =>
          pose proof (_assemble_animation_or_raise_calls E config b l n w') as Ha;
          destruct (_assemble_animation_or_raise E config (b ++ [l]) n w')
            as [[[]|e] w3]
        end; cbn [fst snd] in *;
          (eapply ran_success; [|exact Hm|by intros []]);
          cbn [w_calls print] in *; by rewrite Ha.
      * eapply ran_success; [|exact Hm|by intros []]. done.
    + cbn [fst snd]. by eapply ran_failure.
  - apply last_None in Hlast as ->. cbn [fst snd].
    destruct Hq as [(_ & _ & Hne)|(c & Hc & Hnf)]; [done|].
    destruct Hf' as (new & Hc' & Hl & Hm & _).
    cbn [w_calls print] in Hc. rewrite Hc in Hc'. apply app_inv_head in Hc' as <-.
    exists [c]. split_and!; [done|cbn; lia|done|].
    intros Hall. apply Forall_cons in Hall as [? _]. done.
Qed.

Lemma fold_left_ran {A} (f : float * world → A → float * world)
    (b : A → nat) (items : list A) (t : float) (w : world) :
  (∀ t w item, ran E (b item) t w (Returned (f (t, w) item).1) (f (t, w) item).2) →
  ran E (sum_list_with b items) t w
    (Returned (fold_left f items (t, w)).1) (fold_left f items (t, w)).2.
Proof.
  intros Hf. revert t w. induction items as [|item items IH]; intros t w;
    cbn [fold_left sum_list_with]; [by apply ran_same|].
  eapply ran_trans; [apply Hf|].
  destruct (f (t, w) item) as [t1 w1]. apply IH.
Qed.

Lemma cycle_loop_ran (items : list (string * cycle_entry)) (t : float)
    (w : world) :
  ran E (2 * length items) t w (cycle_loop E config items t w).1
    (cycle_loop E config items t w).2.
Proof.
  revert t w. induction items as [|item items IH]; intros t w;
    cbn [cycle_loop]; [by apply ran_same|].
  pose proof (cycle_item_ran t w item) as Hi.
  destruct (cycle_item _ _ _ _) as [[t1|e] w1]; cbn [fst snd] in Hi.
  - replace (2 * length (item :: items)) with (2 + 2 * length items)
      by (cbn [length]; lia).
    eapply ran_trans; [exact Hi|apply IH].
  - eapply ran_weaken; [|exact Hi]. cbn [length]. lia.
Qed.
End Ran.

Lemma sum_list_with_one {A} (l : list A) : sum_list_with (λ _, 1) l = length l.
Proof. induction l as [|a l IH]; cbn; [done|]. by rewrite IH. Qed.

Lemma fold_left_add_nat (l : list nat) (a : nat) :
  fold_left Nat.add l a = a + sum_list l.
Proof.
  revert a. induction l as [|n l IH]; intros a; simpl; [lia|].
  rewrite IH. lia.
Qed.

Lemma total_steps_sum (items : list (string * sequence_entry)) :
  total_steps items = sum_list_with (λ kv, length (steps kv.2)) items.
Proof.
  unfold total_steps. rewrite fold_left_add_nat. cbn [Nat.add].
  induction items as [|i items IH]; cbn; [done|]. by rewrite IH.
Qed.

Lemma fold_left_add_Z (l : list Z) (a : Z) :
  fold_left Z.add l a = (a + fold_left Z.add l 0)%Z.
Proof.
  revert a. induction l as [|n l IH]; intros a; cbn [fold_left]; [lia|].
  rewrite IH, (IH (0 + n)%Z). lia.
Qed.

Lemma sum_Z_steps (items : list (string * sequence_entry)) :
  sum_Z (fmap (λ kv, Z.of_nat (length (steps kv.2))) items)
  = Z.of_nat (total_steps items).
Proof.
  rewrite total_steps_sum. unfold sum_Z.
  induction items as [|i items IH]; cbn [fmap list_fmap fold_left sum_list_with];
    [done|].
  rewrite fold_left_add_Z, IH. lia.
Qed.

Lemma length_select_targets {A} (items : list (string * A))
    (targets : option (list string)) :
  length (select_targets items targets) ≤ length items.
Proof.
  unfold select_targets. destruct targets as [[|t ts]|]; [done| |done].
  apply length_filter.
Qed.

Lemma total_steps_select_targets (items : list (string * sequence_entry))
    (targets : option (list string)) :
  total_steps (select_targets items targets) ≤ total_steps items.
Proof.
  rewrite !total_steps_sum.
  unfold select_targets. destruct targets as [[|t ts]|]; [done| |done].
  induction items as [|i items IH]; [done|].
  rewrite filter_cons. destruct (decide _); cbn [sum_list_with]; lia.
Qed.

Section RanGenerators.
Context (E : externals) (config : PipelineConfig).

Lemma generate_singles_ran (targets : option (list string)) (w : world) :
  ran E (length (select_targets (singles config) targets)) 0%float w
    (Returned (generate_singles E config targets w).1)
    (generate_singles E config targets w).2.
Proof.
  unfold generate_singles. cbv zeta.
  destruct (select_targets _ _) as [|i items] eqn:Hsel;
    [by apply ran_same|].
  rewrite <- Hsel. clear Hsel.
  match goal with
  | |- context [fold_left ?f ?l (?t, ?w1)] =>
    pose proof (fold_left_ran E f (λ _, 1) l t w1 (single_item_ran E config)) as H;
    destruct (fold_left f l (t, w1)) as [t' w']
  end.
  rewrite sum_list_with_one in H. cbn [fst snd] in *.
  eapply ran_world; [| |eapply ran_start; [| |exact H]]; done.
Qed.

Lemma generate_emotes_ran (targets : option (list string)) (w : world) :
  ran E (length (select_targets (emotes config) targets)) 0%float w
    (Returned (generate_emotes E config targets w).1)
    (generate_emotes E config targets w).2.
Proof.
  unfold generate_emotes. cbv zeta.
  destruct (select_targets _ _) as [|i items] eqn:Hsel;
    [by apply ran_same|].
  rewrite <- Hsel. clear Hsel.
  match goal with
  | |- context [fold_left ?f ?l (?t, ?w1)] =>
    pose proof (fold_left_ran E f (λ _, 1) l t w1 (emote_item_ran E config)) as H;
    destruct (fold_left f l (t, w1)) as [t' w']
  end.
  rewrite sum_list_with_one in H. cbn [fst snd] in *.
  eapply ran_world; [| |eapply ran_start; [| |exact H]]; done.
Qed.

Lemma generate_chains_ran (w : world) :
  ran E (total_steps (chains config)) 0%float w
    (generate_chains E config w).1 (generate_chains E config w).2.
Proof.
  unfold generate_chains.
  destruct (chains config) as [|i items] eqn:Hsel;
    [by apply (ran_weaken E 0), ran_same; [lia|..]|].
  rewrite <- Hsel. clear Hsel. rewrite total_steps_sum.
  match goal with
  | |- context [sequence_loop E ?k ?b config ?l ?t ?w1] =>
    pose proof (sequence_loop_ran E config k b l t w1) as H;
    destruct (sequence_loop E k b config l t w1) as [[t'|e] w']
  end; cbn [fst snd] in *.
  - eapply ran_world; [| |eapply ran_start; [| |exact H]]; done.
  - eapply ran_start; [| |exact H]; done.
Qed.

Lemma generate_journeys_ran (targets : option (list string)) (w : world) :
  ran E (total_steps (select_targets (journeys config) targets)) 0%float w
    (generate_journeys E config targets w).1
    (generate_journeys E config targets w).2.
Proof.
  unfold generate_journeys. cbv zeta.
  destruct (select_targets _ _) as [|i items] eqn:Hsel;
    [by apply (ran_weaken E 0), ran_same; [lia|..]|].
  rewrite <- Hsel. clear Hsel. rewrite total_steps_sum.
  match goal with
  | |- context [sequence_loop E ?k ?b config ?l ?t ?w1] =>
    pose proof (sequence_loop_ran E config k b l t w1) as H;
    destruct (sequence_loop E k b config l t w1) as [[t'|e] w']
  end; cbn [fst snd] in *.
  - eapply ran_world; [| |eapply ran_start; [| |exact H]]; done.
  - eapply ran_start; [| |exact H]; done.
Qed.

Lemma generate_cycles_ran (w : world) :
  ran E (2 * length (cycles config)) 0%float w
    (generate_cycles E config w).1 (generate_cycles E config w).2.
Proof.
  unfold generate_cycles.
  destruct (cycles config) as [|i items] eqn:Hsel;
    [by apply (ran_weaken E 0), ran_same; [lia|..]|].
  rewrite <- Hsel. clear Hsel.
  match goal with
  | |- context [cycle_loop E config ?l ?t ?w1] =>
    pose proof (cycle_loop_ran E config l t w1) as H;
    destruct (cycle_loop E config l t w1) as [[t'|e] w']
  end; cbn [fst snd] in *.
  - eapply ran_world; [| |eapply ran_start; [| |exact H]]; done.
  - eapply ran_start; [| |exact H]; done.
Qed.
End RanGenerators.

Lemma ran_quiet (E : externals) (b : nat) (t : float) (w : world)
    (o : outcome float) (w' : world) (new : list call) :
  ran E b t w o w' →
  w_calls w' = w_calls w ++ new → Forall call_failed new →
  o = Returned t ∧ ∀ p, read_file (w_fs w') p = read_file (w_fs w) p.
Proof.
  intros (new' & Hc & _ & _ & Hq) Hc' Hf.
  rewrite Hc in Hc'. apply app_inv_head in Hc' as ->.
  destruct (Hq Hf) as [-> Hs]. split; [done|].
  intros p. unfold read_file. by rewrite Hs.
Qed.

(** X11. A run in which every call fails costs nothing and writes nothing:
    for each of the five generators, if all the calls the run made raised,
    the run returns the total 0 (the chains, journeys and cycles runs do not
    raise) and every file reads afterwards as it did before. *)
Theorem failed_run_writes_nothing (E : externals) (config : PipelineConfig)
    (targets : option (list string)) (w : world) :
  let quiet (o : outcome float) (w' : world) :=
    ∀ new, w_calls w' = w_calls w ++ new → Forall call_failed new →
      o = Returned 0%float
      ∧ ∀ p, read_file (w_fs w') p = read_file (w_fs w) p in
  quiet (Returned (generate_singles E config targets w).1)
    (generate_singles E config targets w).2
  ∧ quiet (Returned (generate_emotes E config targets w).1)
      (generate_emotes E config targets w).2
  ∧ quiet (generate_chains E config w).1 (generate_chains E config w).2
  ∧ quiet (generate_journeys E config targets w).1
      (generate_journeys E config targets w).2
  ∧ quiet (generate_cycles E config w).1 (generate_cycles E config w).2.
Proof.
  intros quiet. subst quiet. cbv beta. split_and!; intros new Hc Hf.
  - eapply ran_quiet; [apply generate_singles_ran|done..].
  - eapply ran_quiet; [apply generate_emotes_ran|done..].
  - eapply ran_quiet; [apply generate_chains_ran|done..].
  - eapply ran_quiet; [apply generate_journeys_ran|done..].
  - eapply ran_quiet; [apply generate_cycles_ran|done..].
Qed.

Lemma ran_within (E : externals) (b : nat) (t : float) (w : world)
    (o : outcome float) (w' : world) (n : Z) :
  ran E b t w o w' → (Z.of_nat b ≤ n)%Z →
  ∃ new, w_calls w' = w_calls w ++ new ∧ (Z.of_nat (length new) ≤ n)%Z.
Proof. intros (new & Hc & Hl & _) Hb. exists new. split; [done|lia]. Qed.

(** X12. The calls a generator makes are bounded by the counts of
    [count_animations]: the earlier record of calls is kept, and the run adds
    at most one call per single, one per emote, one per step of a chain or of
    a journey, and at most two per cycle (the forward animation the cycle
    reuses is generated when it is missing). *)
Theorem call_budget (E : externals) (config : PipelineConfig)
    (targets : option (list string)) (w : world) :
  let within (w' : world) (n : Z) :=
    ∃ new, w_calls w' = w_calls w ++ new ∧ (Z.of_nat (length new) ≤ n)%Z in
  let n := count_animations config in
  within (generate_singles E config targets w).2 (n_singles n)
  ∧ within (generate_emotes E config targets w).2 (n_emotes n)
  ∧ within (generate_chains E config w).2 (n_chains n)
  ∧ within (generate_journeys E config targets w).2 (n_journeys n)
  ∧ within (generate_cycles E config w).2 (2 * n_cycles n)%Z.
Proof.
  intros within n. subst within n. cbv beta.
  unfold count_animations. cbv zeta. cbn [n_singles n_emotes n_chains n_journeys n_cycles].
  rewrite !sum_Z_steps.
  split_and!.
  - eapply ran_within; [apply generate_singles_ran|].
    pose proof (length_select_targets (singles config) targets). lia.
  - eapply ran_within; [apply generate_emotes_ran|].
    pose proof (length_select_targets (emotes config) targets). lia.
  - eapply ran_within; [apply generate_chains_ran|]. lia.
  - eapply ran_within; [apply generate_journeys_ran|].
    pose proof (total_steps_select_targets (journeys config) targets). lia.
  - eapply ran_within; [apply generate_cycles_ran|]. lia.
Qed.

Lemma made_by_no_key (E : externals) (c : call) :
  api_key E = None ∨ api_key E = Some "" → made_by E c →
  call_result c = Raised MissingApiKey
  ∨ call_result c = Raised (FileNotFoundError (call_reference c)).
Proof.
  intros Hk (fs & n & ->). unfold client_result.
  destruct (encode_image _ _ _); [|by right].
  destruct Hk as [-> | ->]; by left.
Qed.

Lemma ran_no_key (E : externals) (b : nat) (t : float) (w : world)
    (o : outcome float) (w' : world) :
  api_key E = None ∨ api_key E = Some "" → ran E b t w o w' →
  o = Returned t
  ∧ (∀ p, read_file (w_fs w') p = read_file (w_fs w) p)
  ∧ ∃ new, w_calls w' = w_calls w ++ new
      ∧ ∀ c, c ∈ new →
          call_result c = Raised MissingApiKey
          ∨ call_result c = Raised (FileNotFoundError (call_reference c)).
Proof.
  intros Hk Hr. pose proof Hr as (new & Hc & _ & Hm & _).
  assert (∀ c, c ∈ new →
            call_result c = Raised MissingApiKey
            ∨ call_result c = Raised (FileNotFoundError (call_reference c)))
    as Hall.
  { intros c Hin. rewrite Forall_forall in Hm. apply (made_by_no_key E); [done|by apply Hm]. }
  assert (Forall call_failed new) as Hf.
  { apply Forall_forall. intros c Hin. unfold call_failed.
    by destruct (Hall c Hin) as [-> | ->]. }
  destruct (ran_quiet E b t w o w' new Hr Hc Hf) as [-> Hs].
  split_and!; [done|done|]. by exists new.
Qed.

(** X13. Without an API key (none set, or an empty one) nothing is
    generated: each generator returns the total 0 (the chains, journeys and
    cycles runs do not raise), leaves every file as it was, and every call it
    made raised for the missing key, or for a reference image that cannot be
    read. *)
Theorem no_api_key_no_effect (E : externals) (config : PipelineConfig)
    (targets : option (list string)) (w : world) :
  api_key E = None ∨ api_key E = Some "" →
  let idle (o : outcome float) (w' : world) :=
    o = Returned 0%float
    ∧ (∀ p, read_file (w_fs w') p = read_file (w_fs w) p)
    ∧ ∃ new, w_calls w' = w_calls w ++ new
        ∧ ∀ c, c ∈ new →
            call_result c = Raised MissingApiKey
            ∨ call_result c = Raised (FileNotFoundError (call_reference c)) in
  idle (Returned (generate_singles E config targets w).1)
    (generate_singles E config targets w).2
  ∧ idle (Returned (generate_emotes E config targets w).1)
      (generate_emotes E config targets w).2
  ∧ idle (generate_chains E config w).1 (generate_chains E config w).2
  ∧ idle (generate_journeys E config targets w).1
      (generate_journeys E config targets w).2
  ∧ idle (generate_cycles E config w).1 (generate_cycles E config w).2.
Proof.
  intros Hk idle. subst idle. cbv beta.
  refine (conj _ (conj _ (conj _ (conj _ _)))).
  - eapply ran_no_key; [done|apply generate_singles_ran].
  - eapply ran_no_key; [done|apply generate_emotes_ran].
  - eapply ran_no_key; [done|apply generate_chains_ran].
  - eapply ran_no_key; [done|apply generate_journeys_ran].
  - eapply ran_no_key; [done|apply generate_cycles_ran].
Qed.

Lemma no_api_key_no_effect_witness :
  let E := sample_externals None [] in
  (generate_singles E sample_config None fresh_world).1 = 0%float
  ∧ read_file (w_fs (generate_singles E sample_config None fresh_world).2)
      (singles_dir sample_config // "flame.gif") = None
  ∧ (generate_cycles E sample_config fresh_world).1 = Returned 0%float.
Proof.
  cbv zeta.
  pose proof (no_api_key_no_effect (sample_externals None []) sample_config None
                fresh_world (or_introl eq_refl)) as H.
  cbv zeta in H. destruct H as ((H1 & H2 & _) & _ & _ & _ & (H5 & _)).
  split_and!.
  - exact (f_equal (λ o, match o with Returned a => a | Raised _ => 0%float end)
             H1).
  - rewrite H2. vm_compute. reflexivity.
  - exact H5.
Defined.

(** ** Running the singles again *)

Section Rerun.
Context (E : externals) (config : PipelineConfig).

Lemma single_item_done (t : float) (w : world) (item : string * single_entry) :
  ∃ new,
    w_calls (single_item E config (t, w) item).2 = w_calls w ++ new
    ∧ (forallb (call_saved E 16) new = true →
       _has_frames (w_fs (single_item E config (t, w) item).2)
         (singles_dir config ++ [item.1]) 16 = true).
Proof.
  destruct item as [name entry]. unfold single_item. cbn [fst].
  destruct (_has_frames _ _ _) eqn:Hh.
  { exists []. by rewrite app_nil_r. }
  unfold generate_animation. cbn [w_fs w_calls w_out print].
  destruct (client_result _ _ _ _ _ _ _) as [[frames cost]|e].
  - pose proof (save_frames_count E frames (singles_dir config ++ [name]) (w_fs w))
      as Hn.
    pose proof (save_frames_dir_exists E frames (singles_dir config ++ [name])
                  (singles_dir config ++ [name]) (w_fs w) (or_intror eq_refl))
      as Hd.
    pose proof (save_frames_or_raise_ok E frames (singles_dir config ++ [name])
                  (w_fs w)) as Hsave.
    assert (∀ w', w_calls w' = w_calls w ++ [Call (reference config) (prompt entry)
                     (frame_size config) (frame_size config)
                     (Returned (frames, cost))] →
              (frames_ok E frames = true → 16 ≤ length frames →
               _has_frames (w_fs w') (singles_dir config ++ [name]) 16 = true) →
              ∃ new, w_calls w' = w_calls w ++ new
                ∧ (forallb (call_saved E 16) new = true →
                   _has_frames (w_fs w') (singles_dir config ++ [name]) 16 = true))
      as Hgoal.
    { intros w' Hc Hw'. eexists [_]. split; [exact Hc|].
      cbn [forallb call_saved call_result]. rewrite andb_true_r.
      intros [Hlen%bool_decide_eq_true Hok]%andb_true_iff. by apply Hw'. }
    destruct (save_frames_or_raise _ _ _ _) as [[saved|e] fs]; cbn [fst snd].
    + match goal with
      | |- context [_assemble_animation_or_raise E config (?b ++ [?l]) ?n ?w'] =>
        pose proof (_assemble_animation_or_raise_calls E config b l n w') as Ha;
        pose proof (fs_grows_assemble_or_raise E config b l n w' fs eq_refl)
          as Hg;
        destruct (_assemble_animation_or_raise E config (b ++ [l]) n w')
          as [[[]|e] w2]
      end; cbn [fst snd w_calls w_fs print] in *;
        (apply Hgoal; [by rewrite Ha|]); intros Hok Hlen;
        specialize (Hsave Hok); injection Hsave as _ ->;
        (eapply _has_frames_grows; [exact Hg|]);
        apply _has_frames_true; (split; [done|lia]).
    + apply Hgoal; [done|]. intros Hok _. by specialize (Hsave Hok).
  - cbn [fst snd w_calls w_fs print]. eexists [_]. split; [reflexivity|].
    cbn [forallb call_saved call_result]. done.
Qed.

Lemma fold_single_item_done (items : list (string * single_entry)) (t : float)
    (w : world) :
  ∃ new,
    w_calls (fold_left (single_item E config) items (t, w)).2 = w_calls w ++ new
    ∧ (forallb (call_saved E 16) new = true →
       ∀ item, item ∈ items →
         _has_frames (w_fs (fold_left (single_item E config) items (t, w)).2)
           (singles_dir config ++ [item.1]) 16 = true).
Proof.
  revert t w. induction items as [|item items IH]; intros t w; cbn [fold_left].
  { exists []. rewrite app_nil_r. split; [done|]. by intros _ ? ?%elem_of_nil. }
  destruct (single_item_done t w item) as (new1 & Hc1 & Hd1).
  destruct (single_item E config (t, w) item) as [t1 w1] eqn:Hi.
  destruct (IH t1 w1) as (new2 & Hc2 & Hd2). cbn [snd] in *.
  exists (new1 ++ new2). split; [by rewrite Hc2, Hc1, <- app_assoc|].
  rewrite forallb_app. intros [H1 H2]%andb_true_iff it [->|Hin]%elem_of_cons.
  - eapply _has_frames_grows; [|exact (Hd1 H1)].
    exact (fs_grows_fold (single_item E config) items (t1, w1)
             (fs_grows_single_item E config)).
  - by apply Hd2.
Qed.

Lemma fold_single_item_skip (items : list (string * single_entry)) (t : float)
    (w : world) :
  (∀ item, item ∈ items →
     _has_frames (w_fs w) (singles_dir config ++ [item.1]) 16 = true) →
  (fold_left (single_item E config) items (t, w)).1 = t
  ∧ w_calls (fold_left (single_item E config) items (t, w)).2 = w_calls w
  ∧ w_fs (fold_left (single_item E config) items (t, w)).2 = w_fs w.
Proof.
  revert w. induction items as [|[name entry] items IH]; intros w Hall;
    cbn [fold_left]; [done|].
  rewrite single_item_skip by (apply (Hall (name, entry)), elem_of_cons; by left).
  match goal with
  | |- context [fold_left _ items (t, ?w1)] =>
    destruct (IH w1) as (H1 & H2 & H3); [|by rewrite H1, H2, H3]
  end.
  intros item Hin. cbn [w_fs print]. apply Hall, elem_of_cons. by right.
Qed.
End Rerun.

(** X14. Running the singles again after a run that completed them makes
    no call: if every call of a run of [generate_singles] returned at least
    16 frames, all of which decode, then the same run repeated on the
    resulting files makes no call, returns the total 0 and leaves the
    filesystem as it is. *)
Theorem generate_singles_rerun (E : externals) (config : PipelineConfig)
    (targets : option (list string)) (w : world) :
  let first := generate_singles E config targets w in
  let second := generate_singles E config targets first.2 in
  forallb (call_saved E 16) (drop (length (w_calls w)) (w_calls first.2)) = true →
  second.1 = 0%float
  ∧ w_calls second.2 = w_calls first.2
  ∧ w_fs second.2 = w_fs first.2.
Proof.
  intros first second. subst first second. unfold generate_singles. cbv zeta.
  destruct (select_targets (singles config) targets) as [|i items] eqn:Hsel;
    [done|].
  rewrite <- Hsel. clear Hsel i items.
  match goal with
  | |- context [fold_left ?f ?l (?t, ?w1)] =>
    destruct (fold_single_item_done E config l t w1) as (new & Hc & Hd);
    destruct (fold_left f l (t, w1)) as [t' w'] eqn:Hfold
  end.
  cbn [fst snd w_calls w_fs print] in *.
  rewrite Hc, drop_app_length. intros Hall. specialize (Hd Hall).
  match goal with
  | |- context [fold_left ?f ?l (?t, ?w1)] =>
    destruct (fold_single_item_skip E config l t w1) as (H1 & H2 & H3);
      [exact Hd|];
    destruct (fold_left f l (t, w1)) as [t'' w'']
  end.
  cbn [fst snd w_calls w_fs print] in *. by rewrite H2, Hc.
Qed.

Lemma generate_singles_rerun_witness :
  (generate_singles steady sample_config None singles_world).1 = 0%float
  ∧ w_calls (generate_singles steady sample_config None singles_world).2
    = w_calls singles_world.
Proof.
  pose proof (generate_singles_rerun steady sample_config None fresh_world) as H.
  cbv zeta in H.
  assert (forallb (call_saved steady 16)
            (drop (length (w_calls fresh_world))
               (w_calls (generate_singles steady sample_config None fresh_world).2))
          = true) as Hall by (vm_compute; reflexivity).
  destruct (H Hall) as (H1 & H2 & _). split; [exact H1|exact H2].
Defined.










(** ** The files a run can touch *)

Section Footprint.
Context (E : externals) (config : PipelineConfig) (p : fpath).













Lemma fold_left_read {A B} (f : B * world → A → B * world) (items : list A)
    (st : B * world) :
  (∀ st item, item ∈ items →
     read_file (w_fs (f st item).2) p = read_file (w_fs st.2) p) →
  read_file (w_fs (fold_left f items st).2) p = read_file (w_fs st.2) p.
Proof.
  revert st. induction items as [|item items IH]; intros st Hf;
    cbn [fold_left]; [done|].
  rewrite IH.
  - apply Hf, elem_of_cons. by left.
  - intros st' it Hin. apply Hf, elem_of_cons. by right.
Qed.

End Footprint.



(** ** The five generators, one after another *)

Lemma within_trans (w0 w1 w2 : world) (n1 n2 : Z) :
  (∃ new, w_calls w1 = w_calls w0 ++ new ∧ (Z.of_nat (length new) ≤ n1)%Z) →
  (∃ new, w_calls w2 = w_calls w1 ++ new ∧ (Z.of_nat (length new) ≤ n2)%Z) →
  ∃ new, w_calls w2 = w_calls w0 ++ new ∧ (Z.of_nat (length new) ≤ n1 + n2)%Z.
Proof.
  intros (new1 & Hc1 & Hl1) (new2 & Hc2 & Hl2). exists (new1 ++ new2).
  split; [by rewrite Hc2, Hc1, <- app_assoc|]. rewrite length_app. lia.
Qed.

(** X17. Singles, emotes, chains, journeys and cycles generated one after
    another, each on the files the one before left: the calls made in all
    are at most the [total_api_calls] of [count_animations] and one more per
    cycle, so the estimate of [estimate_cost], which prices
    [total_api_calls] calls, can be exceeded by the forward animations of
    the cycles. *)
Theorem sequential_run_budget (E : externals) (config : PipelineConfig)
    (targets : option (list string)) (w : world) :
  let w1 := (generate_singles E config targets w).2 in
  let w2 := (generate_emotes E config targets w1).2 in
  let w3 := (generate_chains E config w2).2 in
  let w4 := (generate_journeys E config targets w3).2 in
  let w5 := (generate_cycles E config w4).2 in
  let n := count_animations config in
  total_api_calls n
  = (n_singles n + n_emotes n + n_chains n + n_journeys n + n_cycles n)%Z
  ∧ ∃ new,
      w_calls w5 = w_calls w ++ new
      ∧ (Z.of_nat (length new) ≤ total_api_calls n + n_cycles n)%Z.
Proof.
  intros w1 w2 w3 w4 w5 n. split; [done|].
  assert (∃ new, w_calls w5 = w_calls w ++ new
            ∧ (Z.of_nat (length new)
               ≤ n_singles n + n_emotes n + n_chains n + n_journeys n
                 + 2 * n_cycles n)%Z) as (new & Hc & Hl).
  { pose proof (length_select_targets (singles config) targets) as Hs.
    pose proof (length_select_targets (emotes config) targets) as He.
    pose proof (total_steps_select_targets (journeys config) targets) as Hj.
    assert (n_singles n = Z.of_nat (length (singles config))) as -> by done.
    assert (n_emotes n = Z.of_nat (length (emotes config))) as -> by done.
    assert (n_chains n = Z.of_nat (total_steps (chains config))) as ->
      by (subst n; unfold count_animations; cbn [n_chains]; apply sum_Z_steps).
    assert (n_journeys n = Z.of_nat (total_steps (journeys config))) as ->
      by (subst n; unfold count_animations; cbn [n_journeys]; apply sum_Z_steps).
    assert (n_cycles n = Z.of_nat (length (cycles config))) as -> by done.
    apply (within_trans w w4 w5); [|eapply ran_within;
                                     [apply generate_cycles_ran|lia]].
    apply (within_trans w w3 w4); [|eapply ran_within;
                                     [apply generate_journeys_ran|lia]].
    apply (within_trans w w2 w3); [|eapply ran_within;
                                     [apply generate_chains_ran|lia]].
    apply (within_trans w w1 w2); [|eapply ran_within;
                                     [apply generate_emotes_ran|lia]].
    eapply ran_within; [apply generate_singles_ran|lia]. }
  exists new. split; [done|].
  assert (total_api_calls n
          = (n_singles n + n_emotes n + n_chains n + n_journeys n + n_cycles n)%Z)
    as -> by done.
  lia.
Qed.

(** ** Emotes and the frames of their single *)

Section EmoteFrames.
Context (E : externals) (config : PipelineConfig).

Lemma assemble_keeps_frame_dirs (kind name leaf item n : string) (w : world) :
  read_file
    (w_fs (_assemble_animation E config ((output_dir config ++ [kind]) ++ [item])
             name w))
    (((output_dir config ++ [kind]) ++ [leaf]) // n)
  = read_file (w_fs w) (((output_dir config ++ [kind]) ++ [leaf]) // n).
Proof.
  unfold read_file. cbn [fp_dir fp_name].
  rewrite _assemble_animation_listing; [done| |apply item_dir_ne_static].
  rewrite dir_parent_snoc. apply snoc_ne_self.
Qed.

Lemma assemble_or_raise_keeps_frame_dirs (kind name leaf item n : string)
    (w : world) :
  read_file
    (w_fs (_assemble_animation_or_raise E config
             ((output_dir config ++ [kind]) ++ [item]) name w).2)
    (((output_dir config ++ [kind]) ++ [leaf]) // n)
  = read_file (w_fs w) (((output_dir config ++ [kind]) ++ [leaf]) // n).
Proof.
  destruct (_assemble_animation_or_raise_cases E config
              (output_dir config ++ [kind]) item name w)
    as [[_ ->]|(_ & f & _ & _ & ->)]; [|done].
  apply assemble_keeps_frame_dirs.
Qed.

Lemma emote_item_keeps (st : float * world) (item : string * single_entry)
    (name n : string) :
  (∀ i : nat, n ≠ frame_name (Z.of_nat i + 16)) →
  read_file (w_fs (emote_item E config st item).2) ((singles_dir config ++ [name]) // n)
  = read_file (w_fs st.2) ((singles_dir config ++ [name]) // n).
Proof.
  destruct st as [total w], item as [iname entry]. cbn [fst snd]. intros Hn.
  unfold emote_item.
  destruct (negb _); [done|]. destruct (file_exists _ _); [done|].
  unfold generate_animation. cbn [w_fs w_calls w_out print].
  destruct (client_result _ _ _ _ _ _ _) as [[frames cost]|e]; [|done].
  assert (read_file
            (save_frames_offset_or_raise E frames (singles_dir config ++ [iname])
               16 (w_fs w)).2 ((singles_dir config ++ [name]) // n)
          = read_file (w_fs w) ((singles_dir config ++ [name]) // n)) as Hs.
  { unfold read_file. cbn [fp_dir fp_name].
    destruct (decide (name = iname)) as [->|Hne].
    - apply save_frames_offset_or_raise_keeps. intros i _. apply Hn.
    - rewrite save_frames_offset_or_raise_other_dir; [done|].
      intros H. apply app_inv_head in H. by injection H. }
  destruct (save_frames_offset_or_raise _ _ _ _ _) as [[saved|e] fs];
    cbn [fst snd] in *; [|exact Hs].
  unfold singles_dir in *.
  match goal with
  | |- context [_assemble_animation_or_raise E config ?d ?nm ?w'] =>
    pose proof (assemble_or_raise_keeps_frame_dirs "singles" nm name iname n w')
      as Ha;
    destruct (_assemble_animation_or_raise E config d nm w') as [[[]|e] w2]
  end; cbn [fst snd w_fs print set_fs] in *; by rewrite Ha.
Qed.

Lemma frame_15_not_appended (i : nat) :
  "frame_15.png" ≠ frame_name (Z.of_nat i + 16).
Proof.
  change "frame_15.png" with (frame_name 15). intros H%frame_name_inj. lia.
Qed.

Lemma emote_skips_stable (st : float * world) (item : string * single_entry)
    (name : string) :
  emote_skips config (w_fs st.2) name = true →
  emote_skips config (w_fs (emote_item E config st item).2) name = true.
Proof.
  unfold emote_skips. intros [H15|H16]%orb_true_iff; apply orb_true_iff.
  - left. unfold file_exists in *.
    by rewrite emote_item_keeps by apply frame_15_not_appended.
  - right. apply file_exists_true in H16. apply file_exists_true.
    destruct (fs_grows_emote_item E config st item
                (singles_dir config ++ [name])) as [_ Hf].
    by apply Hf.
Qed.

Lemma emote_item_done (t : float) (w : world) (item : string * single_entry) :
  ∃ new,
    w_calls (emote_item E config (t, w) item).2 = w_calls w ++ new
    ∧ (forallb (call_returned 1) new = true →
       emote_skips config (w_fs (emote_item E config (t, w) item).2) item.1 = true).
Proof.
  destruct item as [name entry]. unfold emote_item, emote_skips. cbn [fst].
  destruct (negb (file_exists (w_fs w) _)) eqn:H15.
  { exists []. rewrite app_nil_r. split; [done|]. intros _. cbn [snd w_fs print].
    by rewrite H15. }
  destruct (file_exists (w_fs w) (_ // "frame_16.png")) eqn:H16.
  { exists []. rewrite app_nil_r. split; [done|]. intros _. cbn [snd w_fs print].
    rewrite H16. apply orb_true_r. }
  unfold generate_animation. cbn [w_fs w_calls w_out print].
  destruct (client_result _ _ _ _ _ _ _) as [[frames cost]|e].
  - pose proof (save_frames_offset_or_raise_first E frames
                  (singles_dir config ++ [name]) 16 (w_fs w)) as Hfirst.
    assert (∀ w',
              w_calls w' = w_calls w ++ [Call ((singles_dir config ++ [name])
                                                // "frame_15.png")
                     (prompt entry) (frame_size config) (frame_size config)
                     (Returned (frames, cost))] →
              (frames ≠ [] →
               is_Some (read_file (w_fs w')
                          ((singles_dir config ++ [name]) // "frame_16.png"))) →
              ∃ new, w_calls w' = w_calls w ++ new
                ∧ (forallb (call_returned 1) new = true →
                   negb (file_exists (w_fs w')
                           ((singles_dir config ++ [name]) // "frame_15.png"))
                   || file_exists (w_fs w')
                        ((singles_dir config ++ [name]) // "frame_16.png") = true))
      as Hgoal.
    { intros w' Hc Hw'. eexists [_]. split; [exact Hc|].
      cbn [forallb call_returned call_result]. rewrite andb_true_r.
      intros Hlen%bool_decide_eq_true.
      apply orb_true_iff. right. apply file_exists_true. apply Hw'.
      intros ->. cbn in Hlen. lia. }
    destruct (save_frames_offset_or_raise _ _ _ _ _) as [[saved|e] fs];
      cbn [fst snd] in *.
    + unfold singles_dir in *.
      match goal with
      | |- context [_assemble_animation_or_raise E config (?b ++ [?l]) ?nm ?w'] =>
        pose proof (_assemble_animation_or_raise_calls E config b l nm w') as Hac;
        pose proof (assemble_or_raise_keeps_frame_dirs "singles" nm name name
                      "frame_16.png" w') as Ha;
        destruct (_assemble_animation_or_raise E config (b ++ [l]) nm w')
          as [[[]|e] w2]
      end; cbn [fst snd w_fs w_calls print set_fs] in *;
        (apply Hgoal; [by rewrite Hac|]); intros Hne; rewrite Ha;
        exact (Hfirst Hne).
    + apply Hgoal; [done|]. intros Hne. exact (Hfirst Hne).
  - cbn [fst snd w_calls w_fs print]. eexists [_]. split; [reflexivity|].
    cbn [forallb call_returned call_result]. done.
Qed.

Lemma emote_item_skips (t : float) (w : world) (item : string * single_entry) :
  emote_skips config (w_fs w) item.1 = true →
  (emote_item E config (t, w) item).1 = t
  ∧ w_calls (emote_item E config (t, w) item).2 = w_calls w
  ∧ w_fs (emote_item E config (t, w) item).2 = w_fs w.
Proof.
  destruct item as [name entry]. unfold emote_item, emote_skips. cbn [fst].
  destruct (negb _); [done|]. cbn [orb]. by intros ->.
Qed.
End EmoteFrames.

(** The same for any loop over a catalog whose iteration is skipped under
    a condition on the files that, once true, stays true. *)
Section RerunFold.
Context {A : Type} (f : float * world → A → float * world)
  (skips : FS → A → bool) (n : nat).
Context (Hdone : ∀ t w item,
  ∃ new,
    w_calls (f (t, w) item).2 = w_calls w ++ new
    ∧ (forallb (call_returned n) new = true →
       skips (w_fs (f (t, w) item).2) item = true)).
Context (Hstable : ∀ st item item',
  skips (w_fs st.2) item' = true → skips (w_fs (f st item).2) item' = true).
Context (Hskip : ∀ t w item,
  skips (w_fs w) item = true →
  (f (t, w) item).1 = t
  ∧ w_calls (f (t, w) item).2 = w_calls w
  ∧ w_fs (f (t, w) item).2 = w_fs w).

Lemma fold_stable (items : list A) (st : float * world) (item' : A) :
  skips (w_fs st.2) item' = true →
  skips (w_fs (fold_left f items st).2) item' = true.
Proof.
  revert st. induction items as [|item items IH]; intros st Hs;
    cbn [fold_left]; [done|].
  by apply IH, Hstable.
Qed.

Lemma fold_done (items : list A) (t : float) (w : world) :
  ∃ new,
    w_calls (fold_left f items (t, w)).2 = w_calls w ++ new
    ∧ (forallb (call_returned n) new = true →
       ∀ item, item ∈ items →
         skips (w_fs (fold_left f items (t, w)).2) item = true).
Proof.
  revert t w. induction items as [|item items IH]; intros t w; cbn [fold_left].
  { exists []. rewrite app_nil_r. split; [done|]. by intros _ ? ?%elem_of_nil. }
  destruct (Hdone t w item) as (new1 & Hc1 & Hd1).
  destruct (f (t, w) item) as [t1 w1] eqn:Hi.
  destruct (IH t1 w1) as (new2 & Hc2 & Hd2). cbn [snd] in *.
  exists (new1 ++ new2). split; [by rewrite Hc2, Hc1, <- app_assoc|].
  rewrite forallb_app. intros [H1 H2]%andb_true_iff it [->|Hin]%elem_of_cons.
  - apply fold_stable. cbn [snd]. by apply Hd1.
  - by apply Hd2.
Qed.

Lemma fold_skip (items : list A) (t : float) (w : world) :
  (∀ item, item ∈ items → skips (w_fs w) item = true) →
  (fold_left f items (t, w)).1 = t
  ∧ w_calls (fold_left f items (t, w)).2 = w_calls w
  ∧ w_fs (fold_left f items (t, w)).2 = w_fs w.
Proof.
  revert w. induction items as [|item items IH]; intros w Hall;
    cbn [fold_left]; [done|].
  destruct (Hskip t w item) as (H1 & H2 & H3);
    [apply Hall, elem_of_cons; by left|].
  destruct (f (t, w) item) as [t1 w1]. cbn [fst snd] in *. subst t1.
  destruct (IH w1) as (H1' & H2' & H3').
  - intros it Hin. rewrite H3. apply Hall, elem_of_cons. by right.
  - by rewrite H1', H2', H3', H2, H3.
Qed.

(** A loop run twice, each time between a line printed before it and a line
    printed after it. *)
Lemma fold_rerun (items : list A) (w wa : world) (t : float) :
  w_fs wa = w_fs w → w_calls wa = w_calls w →
  let first := fold_left f items (t, wa) in
  forallb (call_returned n) (drop (length (w_calls w)) (w_calls first.2)) = true →
  ∀ wb, w_fs wb = w_fs first.2 → w_calls wb = w_calls first.2 →
    (fold_left f items (t, wb)).1 = t
    ∧ w_calls (fold_left f items (t, wb)).2 = w_calls first.2
    ∧ w_fs (fold_left f items (t, wb)).2 = w_fs first.2.
Proof.
  intros Hfs Hcalls first. subst first.
  destruct (fold_done items t wa) as (new & Hc & Hd).
  intros Hall wb Hfb Hcb.
  rewrite Hc in Hall. rewrite Hcalls, drop_app_length in Hall.
  destruct (fold_skip items t wb) as (H1 & H2 & H3).
  - intros item Hin. rewrite Hfb. by apply Hd.
  - by rewrite H1, H2, H3, Hcb, Hfb.
Qed.
End RerunFold.

(** X18. Emotes never overwrite the frames of their single: a run of
    [generate_emotes] changes, in the frame directory of any single, only
    files named [frame_NN.png] with NN from 16 on; frames 0 to 15, and every
    file that is not a frame, read afterwards as before. *)
Theorem emotes_keep_single_frames (E : externals) (config : PipelineConfig)
    (targets : option (list string)) (w : world) (name : string) :
  let fs' := w_fs (generate_emotes E config targets w).2 in
  let file n := (singles_dir config ++ [name]) // n in
  (∀ n, (∀ i : nat, n ≠ frame_name (Z.of_nat i + 16)) →
     read_file fs' (file n) = read_file (w_fs w) (file n))
  ∧ (∀ k, (k < 16)%Z →
       read_file fs' (file (frame_name k)) = read_file (w_fs w) (file (frame_name k))).
Proof.
  intros fs' file.
  assert (∀ n, (∀ i : nat, n ≠ frame_name (Z.of_nat i + 16)) →
            read_file fs' (file n) = read_file (w_fs w) (file n)) as Hkeep.
  { intros n Hn. subst fs' file. unfold generate_emotes. cbv zeta.
    destruct (select_targets _ _) as [|i items] eqn:Hsel; [done|].
    rewrite <- Hsel in *. clear Hsel.
    match goal with
    | |- context [fold_left ?f ?l ?st] =>
      pose proof (fold_left_read ((singles_dir config ++ [name]) // n) f l st) as H;
      destruct (fold_left f l st) as [t' w']
    end.
    cbn [fst snd w_fs print] in *. apply H.
    intros st item Hin. by apply emote_item_keeps. }
  split; [exact Hkeep|].
  intros k Hk. apply Hkeep. intros i H%frame_name_inj. lia.
Qed.

(** X19. Running the emotes again after a run that completed them makes no
    call: if every call of a run of [generate_emotes] returned at least one
    frame, then the same run repeated on the resulting files makes no call,
    returns the total 0 and leaves the filesystem as it is. *)
Theorem generate_emotes_rerun (E : externals) (config : PipelineConfig)
    (targets : option (list string)) (w : world) :
  let first := generate_emotes E config targets w in
  let second := generate_emotes E config targets first.2 in
  forallb (call_returned 1) (drop (length (w_calls w)) (w_calls first.2)) = true →
  second.1 = 0%float
  ∧ w_calls second.2 = w_calls first.2
  ∧ w_fs second.2 = w_fs first.2.
Proof.
  intros first second. subst first second. unfold generate_emotes. cbv zeta.
  destruct (select_targets (emotes config) targets) as [|i items] eqn:Hsel;
    [done|].
  rewrite <- Hsel. clear Hsel i items.
  set (items := select_targets (emotes config) targets).
  set (wa := print (LBanner "EMOTES" (length items) (length items)) w).
  pose proof (fold_rerun (emote_item E config)
                (λ fs (item : string * single_entry), emote_skips config fs item.1) 1
                (emote_item_done E config)
                (λ st item item', emote_skips_stable E config st item item'.1)
                (emote_item_skips E config)
                items w wa 0%float eq_refl eq_refl) as H.
  cbv zeta in H.
  destruct (fold_left (emote_item E config) items (0%float, wa)) as [t' w'].
  cbn [fst snd w_calls w_fs print] in *. intros Hall.
  specialize (H Hall (print (LBanner "EMOTES" (length items) (length items))
                        (print (LComplete "Emotes" t') w')) eq_refl eq_refl).
  destruct (fold_left _ _ _) as [t'' w'']. cbn [fst snd w_calls w_fs print] in *.
  exact H.
Qed.

Lemma generate_emotes_rerun_witness :
  (generate_emotes steady sample_config None emotes_world).1 = 0%float
  ∧ w_calls (generate_emotes steady sample_config None emotes_world).2
    = w_calls emotes_world.
Proof.
  pose proof (generate_emotes_rerun steady sample_config None singles_world) as H.
  cbv zeta in H.
  assert (forallb (call_returned 1)
            (drop (length (w_calls singles_world))
               (w_calls (generate_emotes steady sample_config None singles_world).2))
          = true) as Hall by (vm_compute; reflexivity).
  destruct (H Hall) as (H1 & H2 & _). split; [exact H1|exact H2].
Defined.

(** ** Running chains and journeys again *)

Lemma call_returned_frames (n : nat) (new : list call) :
  forallb (call_returned n) new = true →
  n * length new ≤ length (concat (call_frames <$> new)).
Proof.
  induction new as [|c new IH]; cbn [forallb]; [cbn; lia|].
  intros [Hc Hnew]%andb_true_iff. specialize (IH Hnew).
  cbn [fmap list_fmap concat length]. rewrite length_app.
  unfold call_returned, call_frames in *.
  destruct (call_result c) as [[frames cost]|e]; [|done].
  apply bool_decide_eq_true in Hc. lia.
Qed.

Lemma call_returned_not_failed (n : nat) (c : call) :
  call_returned n c = true → ¬ call_failed c.
Proof.
  unfold call_returned, call_failed.
  destruct (call_result c) as [[frames cost]|e]; [by intros _ []|done].
Qed.

Section RerunSequences.
Context (E : externals) (config : PipelineConfig) (kind : string) (base : path).

Local Abbreviation completed fs item :=
  (_has_frames fs (base ++ [item.1]) (length (steps item.2) * 16)).

Lemma sequence_item_done (t : float) (w : world)
    (item : string * sequence_entry) :
  ∃ new,
    w_calls (sequence_item E kind base config (t, w) item).2 = w_calls w ++ new
    ∧ (∀ t', (sequence_item E kind base config (t, w) item).1 = Returned t' →
       forallb (call_returned 16) new = true →
       completed (w_fs (sequence_item E kind base config (t, w) item).2) item
       = true).
Proof.
  destruct item as [name entry]. unfold sequence_item. cbn [fst snd].
  destruct (_has_frames _ _ _) eqn:Hh.
  { exists []. by rewrite app_nil_r. }
  cbv zeta.
  match goal with
  | |- context [run_steps E config ?s ?i ?tl ?a ?tc ?w1] =>
    destruct (run_steps_spec E config s i tl a tc w1)
      as (new & Hc & Hlen & _ & _ & Hres);
    pose proof (fs_grows_run_steps E config s i tl a tc w1) as Hgrow;
    destruct (run_steps E config s i tl a tc w1) as [[[all_frames total']|e] w2]
  end; cbn [fst snd w_fs w_calls set_fs print] in *.
  2:{ by exists new. }
  destruct Hres as (Hall & _ & Hearly & _). rewrite app_nil_l in Hall.
  assert (dir_exists (w_fs w2) (base ++ [name]) = true) as Hdir.
  { apply (Hgrow (base ++ [name])). apply dir_exists_mkdir_parents_self. }
  assert (forallb (call_returned 16) new = true →
          length (steps entry) * 16 ≤ length all_frames) as Hcount.
  { intros Hgood. pose proof (call_returned_frames 16 new Hgood) as Hn.
    rewrite <- Hall in Hn.
    destruct (decide (length new < length (steps entry))) as [Hlt|Hge]; [|lia].
    destruct (Hearly Hlt) as (c & Hlast & Hfail).
    apply last_Some_elem_of in Hlast.
    rewrite forallb_forall in Hgood.
    apply (call_returned_not_failed 16 c) in Hfail; [done|].
    apply Hgood. by apply list_elem_of_In. }
  destruct all_frames as [|fr all_frames].
  - exists new. split; [done|]. intros t' _ Hgood. specialize (Hcount Hgood).
    cbn [snd]. apply _has_frames_true. split; [done|]. cbn [length] in Hcount. lia.
  - pose proof (save_frames_count E (fr :: all_frames) (base ++ [name]) (w_fs w2))
      as Hn.
    pose proof (save_frames_dir_exists E (fr :: all_frames) (base ++ [name])
                  (base ++ [name]) (w_fs w2) (or_intror eq_refl)) as Hd.
    pose proof (save_frames_or_raise_returned E (fr :: all_frames) (base ++ [name])
                  (w_fs w2)) as Hret.
    destruct (save_frames_or_raise _ _ _ _) as [[saved|e] fs]; cbn [fst snd];
      [|by exists new].
    destruct (Hret saved fs eq_refl) as (_ & _ & ->).
    match goal with
    | |- context [_assemble_animation_or_raise E config (?b ++ [?l]) ?n ?w'] =>
      pose proof (_assemble_animation_or_raise_calls E config b l n w') as Hac;
      pose proof (fs_grows_assemble_or_raise E config b l n w' _ eq_refl) as Hg;
      destruct (_assemble_animation_or_raise E config (b ++ [l]) n w')
        as [[[]|e] w3]
    end; cbn [fst snd w_fs w_calls set_fs print] in *;
      exists new; rewrite Hac; (split; [done|]); [|done].
    intros t' _ Hgood. specialize (Hcount Hgood).
    eapply _has_frames_grows; [exact Hg|].
    apply _has_frames_true. split; [done|]. cbn [length] in *. lia.
Qed.

Lemma sequence_loop_done (items : list (string * sequence_entry)) (t : float)
    (w : world) :
  ∃ new,
    w_calls (sequence_loop E kind base config items t w).2 = w_calls w ++ new
    ∧ (∀ t', (sequence_loop E kind base config items t w).1 = Returned t' →
       forallb (call_returned 16) new = true →
       ∀ item, item ∈ items →
         completed (w_fs (sequence_loop E kind base config items t w).2) item
         = true).
Proof.
  revert t w. induction items as [|item items IH]; intros t w;
    cbn [sequence_loop].
  { exists []. rewrite app_nil_r. split; [done|]. by intros _ _ _ ? ?%elem_of_nil. }
  destruct (sequence_item_done t w item) as (new1 & Hc1 & Hd1).
  destruct (sequence_item E kind base config (t, w) item) as [[t1|e] w1];
    cbn [fst snd] in *; [|by exists new1].
  destruct (IH t1 w1) as (new2 & Hc2 & Hd2).
  pose proof (fs_grows_sequence_loop E config kind base items t1 w1) as Hg.
  exists (new1 ++ new2). split; [by rewrite Hc2, Hc1, <- app_assoc|].
  rewrite forallb_app.
  intros t' Hret [H1 H2]%andb_true_iff it [->|Hin]%elem_of_cons.
  - eapply _has_frames_grows; [exact Hg|]. by eapply Hd1.
  - by eapply Hd2.
Qed.

Lemma sequence_loop_skip (items : list (string * sequence_entry)) (t : float)
    (w : world) :
  (∀ item, item ∈ items → completed (w_fs w) item = true) →
  (sequence_loop E kind base config items t w).1 = Returned t
  ∧ w_calls (sequence_loop E kind base config items t w).2 = w_calls w
  ∧ w_fs (sequence_loop E kind base config items t w).2 = w_fs w.
Proof.
  revert w. induction items as [|[name entry] items IH]; intros w Hall;
    cbn [sequence_loop]; [done|].
  unfold sequence_item.
  assert (completed (w_fs w) (name, entry) = true) as Hh
    by (apply Hall, elem_of_cons; by left).
  cbn [fst snd] in Hh. rewrite Hh.
  match goal with
  | |- context [sequence_loop _ _ _ _ items t ?w1] =>
    destruct (IH w1) as (H1 & H2 & H3); [|by rewrite H1, H2, H3]
  end.
  intros item Hin. cbn [w_fs print]. apply Hall, elem_of_cons. by right.
Qed.

(** The loop run twice, each time after a line was printed. *)
Lemma sequences_rerun (items : list (string * sequence_entry)) (w wa : world)
    (t1 : float) (w1 : world) :
  w_fs wa = w_fs w → w_calls wa = w_calls w →
  sequence_loop E kind base config items 0%float wa = (Returned t1, w1) →
  forallb (call_returned 16) (drop (length (w_calls w)) (w_calls w1)) = true →
  ∀ wb, w_fs wb = w_fs w1 → w_calls wb = w_calls w1 →
    (sequence_loop E kind base config items 0%float wb).1 = Returned 0%float
    ∧ w_calls (sequence_loop E kind base config items 0%float wb).2 = w_calls w1
    ∧ w_fs (sequence_loop E kind base config items 0%float wb).2 = w_fs w1.
Proof.
  intros Hfs Hcalls Hfirst Hall wb Hfb Hcb.
  destruct (sequence_loop_done items 0%float wa) as (new & Hc & Hd).
  rewrite Hfirst in Hc, Hd. cbn [fst snd] in Hc, Hd.
  rewrite Hc, Hcalls, drop_app_length in Hall.
  destruct (sequence_loop_skip items 0%float wb) as (H1 & H2 & H3).
  - intros item Hin. rewrite Hfb. by eapply Hd.
  - by rewrite H1, H2, H3, Hcb, Hfb.
Qed.
End RerunSequences.

(** X20. Running chains or journeys again after a run that completed them
    makes no call: if a run of [generate_chains] (of [generate_journeys])
    returned, raising no exception, and every call of it returned at least
    16 frames, then the same run repeated on the resulting files makes no
    call, returns the total 0 and leaves the filesystem as it is. *)
Theorem generate_sequences_rerun (E : externals) (config : PipelineConfig)
    (targets : option (list string)) (w : world) :
  let rerun (generate : world → outcome float * world) :=
    (∃ total, (generate w).1 = Returned total) →
    forallb (call_returned 16)
      (drop (length (w_calls w)) (w_calls (generate w).2)) = true →
    (generate (generate w).2).1 = Returned 0%float
    ∧ w_calls (generate (generate w).2).2 = w_calls (generate w).2
    ∧ w_fs (generate (generate w).2).2 = w_fs (generate w).2 in
  rerun (generate_chains E config)
  ∧ rerun (generate_journeys E config targets).
Proof.
  intros rerun. subst rerun. cbv beta. split.
  - unfold generate_chains.
    destruct (chains config) as [|i items0] eqn:Hsel; [done|].
    rewrite <- Hsel. clear Hsel i items0.
    set (items := chains config).
    set (wa := print (LBanner "CHAINS" (length items) (total_steps items)) w).
    pose proof (sequences_rerun E config "Chain" (chains_dir config) items w wa)
      as H.
    destruct (sequence_loop E "Chain" (chains_dir config) config items 0%float wa)
      as [[t'|e] w']; cbn [fst snd w_calls w_fs print] in *;
      [|by intros [? ?]].
    intros _ Hall.
    specialize (H t' w' eq_refl eq_refl eq_refl Hall
                  (print (LBanner "CHAINS" (length items) (total_steps items))
                     (print (LComplete "Chains" t') w')) eq_refl eq_refl).
    destruct (sequence_loop _ _ _ _ _ _ _) as [[t''|e] w''];
      cbn [fst snd w_calls w_fs print] in *; [exact H|].
    by destruct H as [? _].
  - unfold generate_journeys. cbv zeta.
    destruct (select_targets (journeys config) targets) as [|i items0] eqn:Hsel;
      [done|].
    rewrite <- Hsel. clear Hsel i items0.
    set (items := select_targets (journeys config) targets).
    set (wa := print (LBanner "JOURNEYS" (length items) (total_steps items)) w).
    pose proof (sequences_rerun E config "Journey" (journeys_dir config) items w wa)
      as H.
    destruct (sequence_loop E "Journey" (journeys_dir config) config items
                0%float wa) as [[t'|e] w']; cbn [fst snd w_calls w_fs print] in *;
      [|by intros [? ?]].
    intros _ Hall.
    specialize (H t' w' eq_refl eq_refl eq_refl Hall
                  (print (LBanner "JOURNEYS" (length items) (total_steps items))
                     (print (LComplete "Journeys" t') w')) eq_refl eq_refl).
    destruct (sequence_loop _ _ _ _ _ _ _) as [[t''|e] w''];
      cbn [fst snd w_calls w_fs print] in *; [exact H|].
    by destruct H as [? _].
Qed.

Lemma generate_sequences_rerun_witness :
  let first := generate_chains steady sample_config fresh_world in
  (generate_chains steady sample_config first.2).1 = Returned 0%float
  ∧ length (w_calls (generate_chains steady sample_config first.2).2) = 2.
Proof.
  cbv zeta.
  pose proof (generate_sequences_rerun steady sample_config None fresh_world) as H.
  cbv zeta in H. destruct H as [H _].
  assert (∃ total,
            (generate_chains steady sample_config fresh_world).1 = Returned total)
    as Hret by (eexists; vm_compute; reflexivity).
  assert (forallb (call_returned 16)
            (drop (length (w_calls fresh_world))
               (w_calls (generate_chains steady sample_config fresh_world).2))
          = true) as Hall by (vm_compute; reflexivity).
  destruct (H Hret Hall) as (H1 & H2 & _). split; [exact H1|].
  rewrite H2. vm_compute. reflexivity.
Defined.
